(** * Keptn lifecycle controller: the phase-gated reconcilers

    A shallow embedding of
    [operator/controllers/keptnworkloadinstance/controller.go] and of the
    application-version controller that accompanies it, together with the
    properties of the reconciliation engine.

    Conventions of the embedding:
    - Go strings are [string]s (lists of bytes); [time.Duration] is a [Z]
      counting nanoseconds; [metav1.Time] is an [option Z] whose [None] is
      the zero value.
    - A Go method that mutates its receiver through a pointer is a state
      transformer on the record it points to; the reconciler's own fields
      that change ([bindCRDSpan]) travel in the same state.
    - Everything a reconcile does to the outside (events, status writes,
      metric samples, spans, phase callbacks) is returned as a list of
      [Effect]s, in program order.
    - [context.Context] values, [r.Log] lines and the attribute decoration of
      spans ([semconv]) carry no behaviour that is observed here and are left
      out. *)

From Stdlib Require Import ZArith String Ascii List Bool Lia.
From stdpp Require Import base strings gmap.
Import ListNotations.

Local Open Scope string_scope.
Local Open Scope Z_scope.

(** ** Package [semver] (golang.org/x/mod/semver)

    The resolver imports this package; the functions below follow its
    source one by one.  A version is [vMAJOR[.MINOR[.PATCH[-PRERELEASE][+BUILD]]]];
    the leading [v] is required. *)
Module semver.

Record parsed := {
  major : string;
  minor : string;
  patch : string;
  short : string;
  prerelease : string;
  build : string
}.

Definition isDigit (c : ascii) : bool :=
  (Ascii.leb "0" c && Ascii.leb c "9")%char.

Definition isIdentChar (c : ascii) : bool :=
  (Ascii.leb "A" c && Ascii.leb c "Z"
   || Ascii.leb "a" c && Ascii.leb c "z"
   || Ascii.leb "0" c && Ascii.leb c "9"
   || Ascii.eqb c "-")%char.

(** [digits v] splits [v] after its longest prefix of decimal digits: the
    [for i < len(v) && '0' <= v[i] && v[i] <= '9'] loops. *)
Fixpoint digits (v : string) : string * string :=
  match v with
  | String c r =>
      if isDigit c
      then let '(t, rest) := digits r in (String c t, rest)
      else (EmptyString, v)
  | EmptyString => (EmptyString, EmptyString)
  end.

Definition parseInt (v : string) : option (string * string) :=
  match v with
  | EmptyString => None
  | String c _ =>
      if negb (isDigit c) then None
      else
        let '(t, rest) := digits v in
        if Ascii.eqb c "0" && negb (Nat.eqb (String.length t) 1)
        then None
        else Some (t, rest)
  end.

Definition isBadNum (v : string) : bool :=
  let '(t, rest) := digits v in
  String.eqb rest "" && Nat.ltb 1 (String.length v)
  && match v with String c _ => Ascii.eqb c "0" | EmptyString => false end.

Definition isNum (v : string) : bool :=
  String.eqb (snd (digits v)) "".

(** The loop of [parsePrerelease]: [v] is what is left at index [i],
    [ident] is [v[start:i]] and [taken] is [v[:i]]. *)
Fixpoint prereleaseLoop (v ident taken : string) : option (string * string) :=
  match v with
  | String c r =>
      if Ascii.eqb c "+" then
        if String.eqb ident "" || isBadNum ident then None
        else Some (taken, v)
      else if negb (isIdentChar c) && negb (Ascii.eqb c ".") then None
      else if Ascii.eqb c "." then
        if String.eqb ident "" || isBadNum ident then None
        else prereleaseLoop r "" (taken ++ String c "")
      else prereleaseLoop r (ident ++ String c "") (taken ++ String c "")
  | EmptyString =>
      if String.eqb ident "" || isBadNum ident then None
      else Some (taken, v)
  end.

Definition parsePrerelease (v : string) : option (string * string) :=
  match v with
  | String "-" r => prereleaseLoop r "" "-"
  | _ => None
  end.

Fixpoint buildLoop (v ident taken : string) : option (string * string) :=
  match v with
  | String c r =>
      if negb (isIdentChar c) && negb (Ascii.eqb c ".") then None
      else if Ascii.eqb c "." then
        if String.eqb ident "" then None
        else buildLoop r "" (taken ++ String c "")
      else buildLoop r (ident ++ String c "") (taken ++ String c "")
  | EmptyString =>
      if String.eqb ident "" then None else Some (taken, v)
  end.

Definition parseBuild (v : string) : option (string * string) :=
  match v with
  | String "+" r => buildLoop r "" "+"
  | _ => None
  end.

Definition startsWith (c : ascii) (v : string) : bool :=
  match v with String d _ => Ascii.eqb d c | EmptyString => false end.

Definition tail (v : string) : string :=
  match v with String _ r => r | EmptyString => EmptyString end.

(** The last part of [parse]: optional pre-release, optional build, and
    nothing after them. *)
Definition parseSuffix (ma mi pa v : string) : option parsed :=
  match (if startsWith "-" v then parsePrerelease v else Some ("", v)) with
  | None => None
  | Some (pre, v) =>
      match (if startsWith "+" v then parseBuild v else Some ("", v)) with
      | None => None
      | Some (bld, v) =>
          if String.eqb v "" then
            Some {| major := ma; minor := mi; patch := pa; short := "";
                    prerelease := pre; build := bld |}
          else None
      end
  end.

Definition parse (v : string) : option parsed :=
  match v with
  | String "v" v1 =>
      match parseInt v1 with
      | None => None
      | Some (ma, v) =>
          if String.eqb v "" then
            Some {| major := ma; minor := "0"; patch := "0"; short := ".0.0";
                    prerelease := ""; build := "" |}
          else if negb (startsWith "." v) then None
          else
            match parseInt (tail v) with
            | None => None
            | Some (mi, v) =>
                if String.eqb v "" then
                  Some {| major := ma; minor := mi; patch := "0"; short := ".0";
                          prerelease := ""; build := "" |}
                else if negb (startsWith "." v) then None
                else
                  match parseInt (tail v) with
                  | None => None
                  | Some (pa, v) => parseSuffix ma mi pa v
                  end
            end
      end
  | _ => None
  end.

Definition compareInt (x y : string) : Z :=
  if String.eqb x y then 0
  else if Nat.ltb (String.length x) (String.length y) then -1
  else if Nat.ltb (String.length y) (String.length x) then 1
  else if String.ltb x y then -1 else 1.

Fixpoint nextIdent (x : string) : string * string :=
  match x with
  | String c r =>
      if Ascii.eqb c "." then (EmptyString, x)
      else let '(dx, rest) := nextIdent r in (String c dx, rest)
  | EmptyString => (EmptyString, EmptyString)
  end.

(** The [for x != "" && y != ""] loop of [comparePrerelease]; every round
    drops at least one byte of [x], so [String.length x] rounds suffice. *)
Fixpoint comparePrereleaseLoop (fuel : nat) (x y : string) : Z :=
  if String.eqb x "" || String.eqb y "" then
    if String.eqb x "" then -1 else 1
  else
    match fuel with
    | O => if String.eqb x "" then -1 else 1
    | S fuel =>
        let '(dx, x) := nextIdent (tail x) in
        let '(dy, y) := nextIdent (tail y) in
        if negb (String.eqb dx dy) then
          let ix := isNum dx in
          let iy := isNum dy in
          if negb (Bool.eqb ix iy) then (if ix then -1 else 1)
          else if ix && Nat.ltb (String.length dx) (String.length dy) then -1
          else if ix && Nat.ltb (String.length dy) (String.length dx) then 1
          else if String.ltb dx dy then -1 else 1
        else comparePrereleaseLoop fuel x y
    end.

Definition comparePrerelease (x y : string) : Z :=
  if String.eqb x y then 0
  else if String.eqb x "" then 1
  else if String.eqb y "" then -1
  else comparePrereleaseLoop (String.length x) x y.

Definition Compare (v w : string) : Z :=
  match parse v, parse w with
  | None, None => 0
  | None, Some _ => -1
  | Some _, None => 1
  | Some pv, Some pw =>
      let c := compareInt (major pv) (major pw) in
      if negb (c =? 0) then c else
      let c := compareInt (minor pv) (minor pw) in
      if negb (c =? 0) then c else
      let c := compareInt (patch pv) (patch pw) in
      if negb (c =? 0) then c else
      comparePrerelease (prerelease pv) (prerelease pw)
  end.

End semver.

(** ** Package [common]: states, phases, check kinds *)
Module common.

(** Modelled from the spec: the declaration of [KeptnState] is in
    [api/v1alpha1/common], which is not part of the sources at hand.  §3
    gives the enumeration [{Pending, Progressing, Succeeded, Failed}] and
    §4.1 the predicates [IsXSucceeded() = (statusX == Succeeded)] and
    [IsXFailed() = (statusX == Failed)]; a state is completed when it is
    terminal, that is succeeded or failed. *)
Inductive KeptnState : Type :=
| StatePending
| StateProgressing
| StateSucceeded
| StateFailed.

Definition KeptnState_eqb (a b : KeptnState) : bool :=
  match a, b with
  | StatePending, StatePending
  | StateProgressing, StateProgressing
  | StateSucceeded, StateSucceeded
  | StateFailed, StateFailed => true
  | _, _ => false
  end.

Definition IsSucceeded (k : KeptnState) : bool := KeptnState_eqb k StateSucceeded.
Definition IsFailed (k : KeptnState) : bool := KeptnState_eqb k StateFailed.
Definition IsCompleted (k : KeptnState) : bool := IsSucceeded k || IsFailed k.

Record KeptnPhaseType : Type := {
  ShortName : string;
  LongName : string
}.

(** The phase table of package [common].  Its entries are declared outside
    the sources at hand, so the reconcilers take the table as an argument;
    nothing below depends on the names it holds. *)
Record Phases : Type := {
  PhaseWorkloadPreDeployment : KeptnPhaseType;
  PhaseWorkloadDeployment : KeptnPhaseType;
  PhaseWorkloadPostDeployment : KeptnPhaseType;
  PhaseAppPreDeployment : KeptnPhaseType;
  PhaseAppPreEvaluation : KeptnPhaseType;
  PhaseAppDeployment : KeptnPhaseType;
  PhaseAppPostDeployment : KeptnPhaseType;
  PhaseAppPostEvaluation : KeptnPhaseType;
  PhaseCompleted : KeptnPhaseType
}.

Inductive CheckType : Type :=
| PreDeploymentCheckType
| PostDeploymentCheckType
| PreDeploymentEvaluationCheckType
| PostDeploymentEvaluationCheckType.

End common.

(** ** Results, errors, time *)

(** A Go [error] value, reduced to its message; [None] is [nil]. *)
Definition error : Type := string.

(** [fmt.Errorf(format + ": %+v", err)]. *)
Definition Errorf (prefix : string) (err : error) : error := prefix ++ err.

(** [metav1.Time]; [None] is the zero value, for which [IsZero] holds. *)
Definition Time : Type := option Z.

Definition Sub (t u : Time) : Z := default 0 t - default 0 u.

Module time.
Definition Second : Z := 1000000000.
End time.

Module ctrl.
Record Result : Type := {
  Requeue : bool;
  RequeueAfter : Z
}.
(** [ctrl.Result{}] *)
Definition empty : Result := {| Requeue := false; RequeueAfter := 0 |}.
End ctrl.

Module types.
Record NamespacedName : Type := {
  Namespace : string;
  Name : string
}.
End types.

(** What a reconcile function hands back to the scheduler. *)
Definition Directive : Type := (ctrl.Result * option error)%type.

(** ** The engine both reconcilers share: effects, state, control flow *)

Definition Span : Type := nat.

Inductive Code : Type := CodeError | CodeOk.

(** The callbacks a phase can be driven by. *)
Inductive PhaseCall : Type :=
| CallPrePostDeployment (c : common.CheckType)
| CallPrePostEvaluation (c : common.CheckType)
| CallDeployment
| CallWorkloads.

Section Engine.

(** [E] is the kind of entity a reconciler works on. *)
Context {E : Type}.

Inductive Effect : Type :=
| RecordEvent (phase : common.KeptnPhaseType) (eventType : string) (obj : E)
    (shortReason longReason : string)
    (* r.recordEvent(phase, eventType, obj, shortReason, longReason) *)
| StatusUpdate (obj : E) (err : option error)
    (* r.Status().Update(ctx, obj) and what the store answered *)
| CounterAdd (n : Z)
    (* r.Meters.DeploymentCount / AppCount .Add(ctx, n, attrs...) *)
| DurationRecord (seconds : Z)
    (* r.Meters.DeploymentDuration / AppDuration .Record(ctx, d, attrs...) *)
| TracerStart (name : string) (s : Span)
| SpanAddEvent (s : Span) (msg : string)
| SpanSetStatus (s : Span) (c : Code) (msg : string)
| SpanEnd (s : Span)
| Callback (c : PhaseCall) (obj : E) (answer : common.KeptnState * option error).
    (* reconcilePhase() was called with the entity as it was then, and
       what it answered *)

(** The reconciler fields that change from call to call: the span cache
    [bindCRDSpan] (a nil map reads as the empty one) and the number of
    spans the tracer has handed out. *)
Record Reconciler : Type := {
  bindCRDSpan : gmap string Span;
  spanSeq : nat
}.

(** The state of one reconcile: the entity held through the pointer, the
    reconciler, and the number of status writes issued so far. *)
Record State : Type := {
  object : E;
  reconciler : Reconciler;
  updateSeq : nat
}.

(** A statement either falls through with a value or leaves the enclosing
    function with [return r]. *)
Inductive Flow (R A : Type) : Type :=
| Continue (a : A)
| Return (r : R).
Arguments Continue {R A} a.
Arguments Return {R A} r.

Definition M (R A : Type) : Type := State -> list Effect * State * Flow R A.
Definition Func (R : Type) : Type := State -> list Effect * State * R.

Definition ret {R A} (a : A) : M R A := fun st => ([], st, Continue a).

Definition bind {R A B} (c : M R A) (k : A -> M R B) : M R B :=
  fun st =>
    match c st with
    | (l1, st1, Continue a) =>
        let '(l2, st2, f) := k a st1 in ((l1 ++ l2)%list, st2, f)
    | (l1, st1, Return r) => (l1, st1, Return r)
    end.

Definition returnWith {R A} (r : R) : M R A := fun st => ([], st, Return r).

(** A function body, run to its [return]. *)
Definition body {R} (c : M R R) : Func R :=
  fun st =>
    match c st with
    | (l, st', Continue r) => (l, st', r)
    | (l, st', Return r) => (l, st', r)
    end.

(** A call of a function inside a body. *)
Definition call {R A} (f : Func A) : M R A :=
  fun st => let '(l, st', a) := f st in (l, st', Continue a).

Definition emit {R} (e : Effect) : M R unit := fun st => ([e], st, Continue tt).

Definition getObject {R} : M R E := fun st => ([], st, Continue (object st)).

Definition setObject {R} (o : E) : M R unit :=
  fun st =>
    ([], {| object := o; reconciler := reconciler st; updateSeq := updateSeq st |},
     Continue tt).

Definition modify {R} (f : E -> E) : M R unit :=
  fun st =>
    ([], {| object := f (object st); reconciler := reconciler st;
            updateSeq := updateSeq st |},
     Continue tt).

(** [r.Tracer.Start(ctx, name, ...)] *)
Definition tracerStart {R} (name : string) : M R Span :=
  fun st =>
    let s := spanSeq (reconciler st) in
    ([TracerStart name s],
     {| object := object st;
        reconciler := {| bindCRDSpan := bindCRDSpan (reconciler st); spanSeq := S s |};
        updateSeq := updateSeq st |},
     Continue s).

(** The body shared by the two [getSpan] methods, for the cache key and
    the span name each of them computes. *)
Definition getSpanFor {R} (key name : string) : M R Span :=
  fun st =>
    match bindCRDSpan (reconciler st) !! key with
    | Some s => ([], st, Continue s)
    | None =>
        let s := spanSeq (reconciler st) in
        ([TracerStart name s],
         {| object := object st;
            reconciler := {| bindCRDSpan := <[key := s]> (bindCRDSpan (reconciler st));
                             spanSeq := S s |};
            updateSeq := updateSeq st |},
         Continue s)
    end.

(** [delete(r.bindCRDSpan, key)] *)
Definition unbind {R} (key : string) : M R unit :=
  fun st =>
    ([], {| object := object st;
            reconciler := {| bindCRDSpan := delete key (bindCRDSpan (reconciler st));
                             spanSeq := spanSeq (reconciler st) |};
            updateSeq := updateSeq st |},
     Continue tt).

(** [r.Status().Update(ctx, obj)]: the store answers the [n]-th write of
    this reconcile with [store_answer n]. *)
Definition statusUpdate {R} (store_answer : nat -> option error) : M R (option error) :=
  fun st =>
    let err := store_answer (updateSeq st) in
    ([StatusUpdate (object st) err],
     {| object := object st; reconciler := reconciler st;
        updateSeq := S (updateSeq st) |},
     Continue err).

(** A phase callback: it sees the entity through the pointer, may change
    it, and answers with a state and possibly an error. *)
Definition callback (c : PhaseCall)
    (f : E -> E * (common.KeptnState * option error))
  : Func (common.KeptnState * option error) :=
  fun st =>
    let '(o, res) := f (object st) in
    ([Callback c (object st) res],
     {| object := o; reconciler := reconciler st; updateSeq := updateSeq st |},
     res).

(** Reading the effects: each of these keeps what one kind of effect
    carries and drops the others. *)
Definition observe {X} (obs : Effect -> list X) (l : list Effect) : list X :=
  flat_map obs l.

Definition aCallback (e : Effect)
  : list (PhaseCall * E * (common.KeptnState * option error)) :=
  match e with Callback c o res => [(c, o, res)] | _ => [] end.
Definition aWrite (e : Effect) : list E :=
  match e with StatusUpdate o _ => [o] | _ => [] end.
Definition aMetric (e : Effect) : list Effect :=
  match e with CounterAdd _ | DurationRecord _ => [e] | _ => [] end.
Definition anEvent (e : Effect) : list (common.KeptnPhaseType * string) :=
  match e with RecordEvent p _ _ r _ => [(p, r)] | _ => [] end.
Definition aSpanStart (e : Effect) : list string :=
  match e with TracerStart n _ => [n] | _ => [] end.

Definition callbacks
  : list Effect -> list (PhaseCall * E * (common.KeptnState * option error)) :=
  observe aCallback.
Definition written : list Effect -> list E := observe aWrite.
Definition metrics : list Effect -> list Effect := observe aMetric.
Definition events : list Effect -> list (common.KeptnPhaseType * string) :=
  observe anEvent.
Definition started : list Effect -> list string := observe aSpanStart.

End Engine.

Arguments Effect : clear implicits.
Arguments State : clear implicits.
Arguments M : clear implicits.
Arguments Func : clear implicits.
Arguments Continue {R A} a.
Arguments Return {R A} r.

Declare Scope go_scope.
Delimit Scope go_scope with go.
Notation "x <- c ;; k" := (bind c (fun x => k))
  (at level 100, c at next level, right associativity) : go_scope.
Notation "c ;; k" := (bind c (fun _ => k))
  (at level 100, right associativity) : go_scope.

(** ** Package [klcv1alpha1]: the two entities

    Modelled from the spec: the API types and their methods are declared in
    [api/v1alpha1], which is not part of the sources at hand.  The records
    hold the fields the controllers read and write; the methods follow §3
    and §4.1: [StartTime] and [EndTime] are stamped only while unset (the
    zero value means unset), and every phase has the two predicates
    [IsXSucceeded() = (statusX == Succeeded)] and
    [IsXFailed() = (statusX == Failed)].  The field [OverallStatus] is Go's
    [Status.Status], the spec's overall Status.  The zero value of a record
    has empty strings, unset times and [StatePending] for every state. *)

(** [fmt.Sprintf("%s", m)] for a [map[string]string], given by its entries in
    key order. *)
Definition fmtMap (m : list (string * string)) : string :=
  "map[" ++ String.concat " " (map (fun kv => fst kv ++ ":" ++ snd kv) m) ++ "]".

Module WorkloadRef.
(** An entry of an application's workload set. *)
Record KeptnWorkloadRef : Type := {
  Name : string;
  Version : string
}.
End WorkloadRef.

Module AppVersion.
Import common.

Record KeptnAppVersionSpec : Type := {
  AppName : string;
  Version : string;
  PreviousVersion : string;
  Workloads : list WorkloadRef.KeptnWorkloadRef;
  TraceId : list (string * string)
}.

Record KeptnAppVersionStatus : Type := {
  PreDeploymentStatus : KeptnState;
  PreDeploymentEvaluationStatus : KeptnState;
  WorkloadStatus : list KeptnState;
  PostDeploymentStatus : KeptnState;
  PostDeploymentEvaluationStatus : KeptnState;
  CurrentPhase : string;
  OverallStatus : KeptnState;
  StartTime : Time;
  EndTime : Time
}.

Record KeptnAppVersion : Type := {
  Namespace : string;
  Name : string;
  Spec : KeptnAppVersionSpec;
  Status : KeptnAppVersionStatus
}.

(** [klcv1alpha1.KeptnAppVersion{}] *)
Definition zero : KeptnAppVersion :=
  {| Namespace := ""; Name := "";
     Spec := {| AppName := ""; Version := ""; PreviousVersion := "";
                Workloads := []; TraceId := [] |};
     Status := {| PreDeploymentStatus := StatePending;
                  PreDeploymentEvaluationStatus := StatePending;
                  WorkloadStatus := [];
                  PostDeploymentStatus := StatePending;
                  PostDeploymentEvaluationStatus := StatePending;
                  CurrentPhase := ""; OverallStatus := StatePending;
                  StartTime := None; EndTime := None |} |}.

Definition withStatus (f : KeptnAppVersionStatus -> KeptnAppVersionStatus)
    (v : KeptnAppVersion) : KeptnAppVersion :=
  {| Namespace := Namespace v; Name := Name v; Spec := Spec v;
     Status := f (Status v) |}.

Definition setCurrentPhase (p : string) : KeptnAppVersion -> KeptnAppVersion :=
  withStatus (fun s =>
    {| PreDeploymentStatus := PreDeploymentStatus s;
       PreDeploymentEvaluationStatus := PreDeploymentEvaluationStatus s;
       WorkloadStatus := WorkloadStatus s;
       PostDeploymentStatus := PostDeploymentStatus s;
       PostDeploymentEvaluationStatus := PostDeploymentEvaluationStatus s;
       CurrentPhase := p; OverallStatus := OverallStatus s;
       StartTime := StartTime s; EndTime := EndTime s |}).

Definition setOverallStatus (k : KeptnState) : KeptnAppVersion -> KeptnAppVersion :=
  withStatus (fun s =>
    {| PreDeploymentStatus := PreDeploymentStatus s;
       PreDeploymentEvaluationStatus := PreDeploymentEvaluationStatus s;
       WorkloadStatus := WorkloadStatus s;
       PostDeploymentStatus := PostDeploymentStatus s;
       PostDeploymentEvaluationStatus := PostDeploymentEvaluationStatus s;
       CurrentPhase := CurrentPhase s; OverallStatus := k;
       StartTime := StartTime s; EndTime := EndTime s |}).

Definition setStartTime (t : Time) : KeptnAppVersion -> KeptnAppVersion :=
  withStatus (fun s =>
    {| PreDeploymentStatus := PreDeploymentStatus s;
       PreDeploymentEvaluationStatus := PreDeploymentEvaluationStatus s;
       WorkloadStatus := WorkloadStatus s;
       PostDeploymentStatus := PostDeploymentStatus s;
       PostDeploymentEvaluationStatus := PostDeploymentEvaluationStatus s;
       CurrentPhase := CurrentPhase s; OverallStatus := OverallStatus s;
       StartTime := t; EndTime := EndTime s |}).

Definition setEndTime (t : Time) : KeptnAppVersion -> KeptnAppVersion :=
  withStatus (fun s =>
    {| PreDeploymentStatus := PreDeploymentStatus s;
       PreDeploymentEvaluationStatus := PreDeploymentEvaluationStatus s;
       WorkloadStatus := WorkloadStatus s;
       PostDeploymentStatus := PostDeploymentStatus s;
       PostDeploymentEvaluationStatus := PostDeploymentEvaluationStatus s;
       CurrentPhase := CurrentPhase s; OverallStatus := OverallStatus s;
       StartTime := StartTime s; EndTime := t |}).

Definition IsEndTimeSet (v : KeptnAppVersion) : bool :=
  match EndTime (Status v) with Some _ => true | None => false end.

Definition SetStartTime (now : Z) (v : KeptnAppVersion) : KeptnAppVersion :=
  match StartTime (Status v) with
  | Some _ => v
  | None => setStartTime (Some now) v
  end.

Definition SetEndTime (now : Z) (v : KeptnAppVersion) : KeptnAppVersion :=
  match EndTime (Status v) with
  | Some _ => v
  | None => setEndTime (Some now) v
  end.

Definition IsPreDeploymentSucceeded (v : KeptnAppVersion) : bool :=
  IsSucceeded (PreDeploymentStatus (Status v)).
Definition IsPreDeploymentFailed (v : KeptnAppVersion) : bool :=
  IsFailed (PreDeploymentStatus (Status v)).
Definition IsPreDeploymentEvaluationSucceeded (v : KeptnAppVersion) : bool :=
  IsSucceeded (PreDeploymentEvaluationStatus (Status v)).
Definition IsPreDeploymentEvaluationFailed (v : KeptnAppVersion) : bool :=
  IsFailed (PreDeploymentEvaluationStatus (Status v)).
Definition IsPostDeploymentSucceeded (v : KeptnAppVersion) : bool :=
  IsSucceeded (PostDeploymentStatus (Status v)).
Definition IsPostDeploymentFailed (v : KeptnAppVersion) : bool :=
  IsFailed (PostDeploymentStatus (Status v)).
Definition IsPostDeploymentEvaluationSucceeded (v : KeptnAppVersion) : bool :=
  IsSucceeded (PostDeploymentEvaluationStatus (Status v)).
Definition IsPostDeploymentEvaluationFailed (v : KeptnAppVersion) : bool :=
  IsFailed (PostDeploymentEvaluationStatus (Status v)).
Definition IsPostDeploymentEvaluationCompleted (v : KeptnAppVersion) : bool :=
  IsCompleted (PostDeploymentEvaluationStatus (Status v)).

(** §4.1: succeeded iff every constituent workload instance reports
    Succeeded; failed iff at least one reports Failed. *)
Definition AreWorkloadsSucceeded (v : KeptnAppVersion) : bool :=
  forallb IsSucceeded (WorkloadStatus (Status v)).
Definition AreWorkloadsFailed (v : KeptnAppVersion) : bool :=
  existsb IsFailed (WorkloadStatus (Status v)).

End AppVersion.

Module WorkloadInstance.
Import common.

Record KeptnWorkloadInstanceSpec : Type := {
  AppName : string;
  WorkloadName : string;
  Version : string;
  PreviousVersion : string;
  TraceId : list (string * string)
}.

Record KeptnWorkloadInstanceStatus : Type := {
  PreDeploymentStatus : KeptnState;
  PreDeploymentEvaluationStatus : KeptnState;
  DeploymentStatus : KeptnState;
  PostDeploymentStatus : KeptnState;
  PostDeploymentEvaluationStatus : KeptnState;
  CurrentPhase : string;
  OverallStatus : KeptnState;
  StartTime : Time;
  EndTime : Time
}.

Record KeptnWorkloadInstance : Type := {
  Namespace : string;
  Name : string;
  Spec : KeptnWorkloadInstanceSpec;
  Status : KeptnWorkloadInstanceStatus
}.

Definition withStatus
    (f : KeptnWorkloadInstanceStatus -> KeptnWorkloadInstanceStatus)
    (w : KeptnWorkloadInstance) : KeptnWorkloadInstance :=
  {| Namespace := Namespace w; Name := Name w; Spec := Spec w;
     Status := f (Status w) |}.

Definition setTraceId (t : list (string * string))
    (w : KeptnWorkloadInstance) : KeptnWorkloadInstance :=
  {| Namespace := Namespace w; Name := Name w;
     Spec := {| AppName := AppName (Spec w); WorkloadName := WorkloadName (Spec w);
                Version := Version (Spec w);
                PreviousVersion := PreviousVersion (Spec w); TraceId := t |};
     Status := Status w |}.

Definition setPreDeploymentStatus (k : KeptnState) :=
  withStatus (fun s =>
    {| PreDeploymentStatus := k;
       PreDeploymentEvaluationStatus := PreDeploymentEvaluationStatus s;
       DeploymentStatus := DeploymentStatus s;
       PostDeploymentStatus := PostDeploymentStatus s;
       PostDeploymentEvaluationStatus := PostDeploymentEvaluationStatus s;
       CurrentPhase := CurrentPhase s; OverallStatus := OverallStatus s;
       StartTime := StartTime s; EndTime := EndTime s |}).

Definition setPreDeploymentEvaluationStatus (k : KeptnState) :=
  withStatus (fun s =>
    {| PreDeploymentStatus := PreDeploymentStatus s;
       PreDeploymentEvaluationStatus := k;
       DeploymentStatus := DeploymentStatus s;
       PostDeploymentStatus := PostDeploymentStatus s;
       PostDeploymentEvaluationStatus := PostDeploymentEvaluationStatus s;
       CurrentPhase := CurrentPhase s; OverallStatus := OverallStatus s;
       StartTime := StartTime s; EndTime := EndTime s |}).

Definition setDeploymentStatus (k : KeptnState) :=
  withStatus (fun s =>
    {| PreDeploymentStatus := PreDeploymentStatus s;
       PreDeploymentEvaluationStatus := PreDeploymentEvaluationStatus s;
       DeploymentStatus := k;
       PostDeploymentStatus := PostDeploymentStatus s;
       PostDeploymentEvaluationStatus := PostDeploymentEvaluationStatus s;
       CurrentPhase := CurrentPhase s; OverallStatus := OverallStatus s;
       StartTime := StartTime s; EndTime := EndTime s |}).

Definition setPostDeploymentStatus (k : KeptnState) :=
  withStatus (fun s =>
    {| PreDeploymentStatus := PreDeploymentStatus s;
       PreDeploymentEvaluationStatus := PreDeploymentEvaluationStatus s;
       DeploymentStatus := DeploymentStatus s;
       PostDeploymentStatus := k;
       PostDeploymentEvaluationStatus := PostDeploymentEvaluationStatus s;
       CurrentPhase := CurrentPhase s; OverallStatus := OverallStatus s;
       StartTime := StartTime s; EndTime := EndTime s |}).

Definition setCurrentPhase (p : string) :=
  withStatus (fun s =>
    {| PreDeploymentStatus := PreDeploymentStatus s;
       PreDeploymentEvaluationStatus := PreDeploymentEvaluationStatus s;
       DeploymentStatus := DeploymentStatus s;
       PostDeploymentStatus := PostDeploymentStatus s;
       PostDeploymentEvaluationStatus := PostDeploymentEvaluationStatus s;
       CurrentPhase := p; OverallStatus := OverallStatus s;
       StartTime := StartTime s; EndTime := EndTime s |}).

Definition setOverallStatus (k : KeptnState) :=
  withStatus (fun s =>
    {| PreDeploymentStatus := PreDeploymentStatus s;
       PreDeploymentEvaluationStatus := PreDeploymentEvaluationStatus s;
       DeploymentStatus := DeploymentStatus s;
       PostDeploymentStatus := PostDeploymentStatus s;
       PostDeploymentEvaluationStatus := PostDeploymentEvaluationStatus s;
       CurrentPhase := CurrentPhase s; OverallStatus := k;
       StartTime := StartTime s; EndTime := EndTime s |}).

Definition setStartTime (t : Time) :=
  withStatus (fun s =>
    {| PreDeploymentStatus := PreDeploymentStatus s;
       PreDeploymentEvaluationStatus := PreDeploymentEvaluationStatus s;
       DeploymentStatus := DeploymentStatus s;
       PostDeploymentStatus := PostDeploymentStatus s;
       PostDeploymentEvaluationStatus := PostDeploymentEvaluationStatus s;
       CurrentPhase := CurrentPhase s; OverallStatus := OverallStatus s;
       StartTime := t; EndTime := EndTime s |}).

Definition setEndTime (t : Time) :=
  withStatus (fun s =>
    {| PreDeploymentStatus := PreDeploymentStatus s;
       PreDeploymentEvaluationStatus := PreDeploymentEvaluationStatus s;
       DeploymentStatus := DeploymentStatus s;
       PostDeploymentStatus := PostDeploymentStatus s;
       PostDeploymentEvaluationStatus := PostDeploymentEvaluationStatus s;
       CurrentPhase := CurrentPhase s; OverallStatus := OverallStatus s;
       StartTime := StartTime s; EndTime := t |}).

Definition IsEndTimeSet (w : KeptnWorkloadInstance) : bool :=
  match EndTime (Status w) with Some _ => true | None => false end.

Definition SetStartTime (now : Z) (w : KeptnWorkloadInstance) : KeptnWorkloadInstance :=
  match StartTime (Status w) with
  | Some _ => w
  | None => setStartTime (Some now) w
  end.

Definition SetEndTime (now : Z) (w : KeptnWorkloadInstance) : KeptnWorkloadInstance :=
  match EndTime (Status w) with
  | Some _ => w
  | None => setEndTime (Some now) w
  end.

Definition IsPreDeploymentSucceeded (w : KeptnWorkloadInstance) : bool :=
  IsSucceeded (PreDeploymentStatus (Status w)).
Definition IsPreDeploymentFailed (w : KeptnWorkloadInstance) : bool :=
  IsFailed (PreDeploymentStatus (Status w)).
Definition IsPreDeploymentEvaluationSucceeded (w : KeptnWorkloadInstance) : bool :=
  IsSucceeded (PreDeploymentEvaluationStatus (Status w)).
Definition IsPreDeploymentEvaluationFailed (w : KeptnWorkloadInstance) : bool :=
  IsFailed (PreDeploymentEvaluationStatus (Status w)).
Definition IsDeploymentSucceeded (w : KeptnWorkloadInstance) : bool :=
  IsSucceeded (DeploymentStatus (Status w)).
Definition IsDeploymentFailed (w : KeptnWorkloadInstance) : bool :=
  IsFailed (DeploymentStatus (Status w)).
Definition IsPostDeploymentSucceeded (w : KeptnWorkloadInstance) : bool :=
  IsSucceeded (PostDeploymentStatus (Status w)).
Definition IsPostDeploymentFailed (w : KeptnWorkloadInstance) : bool :=
  IsFailed (PostDeploymentStatus (Status w)).
Definition IsPostDeploymentEvaluationSucceeded (w : KeptnWorkloadInstance) : bool :=
  IsSucceeded (PostDeploymentEvaluationStatus (Status w)).
Definition IsPostDeploymentEvaluationFailed (w : KeptnWorkloadInstance) : bool :=
  IsFailed (PostDeploymentEvaluationStatus (Status w)).

End WorkloadInstance.

(** What [r.Get] answers: the object, a not-found error, or another error. *)
Inductive GetResult (A : Type) : Type :=
| Found (a : A)
| NotFound
| GetFailed (err : error).
Arguments Found {A} a.
Arguments NotFound {A}.
Arguments GetFailed {A} err.

(** ** Package [common]: what the gauge callbacks report *)

(** [common.GaugeValue]: an integer sample with its attributes. *)
Module GaugeValue.
Record GaugeValue (A : Type) : Type := {
  Value : Z;
  Attributes : A
}.
Arguments Value {A} g.
Arguments Attributes {A} g.
End GaugeValue.

(** [common.GaugeFloatValue]: a [float64] sample with its attributes. *)
Module GaugeFloatValue.
Record GaugeFloatValue (F A : Type) : Type := {
  Value : F;
  Attributes : A
}.
Arguments Value {F A} g.
Arguments Attributes {F A} g.
End GaugeFloatValue.

(** ** Package [keptnworkloadinstance]: the workload-instance reconciler *)
Module keptnworkloadinstance.
Import common WorkloadInstance.

Abbreviation KeptnAppVersion := AppVersion.KeptnAppVersion.
Abbreviation Step := (M KeptnWorkloadInstance Directive).

(** What one reconcile meets outside the reconciler: the clock, the store
    (what [Get] answers, the application versions it holds, whether
    listing them fails, what it answers to each status write) and the
    three phase callbacks, which belong to the task and evaluation
    engines. *)
Record Env : Type := {
  now : Z;
  Get : types.NamespacedName -> GetResult KeptnWorkloadInstance;
  appVersions : list KeptnAppVersion;
  listErr : option error;
  store_answer : nat -> option error;
  reconcilePrePostDeployment :
    CheckType -> KeptnWorkloadInstance ->
    KeptnWorkloadInstance * (KeptnState * option error);
  reconcilePrePostEvaluation :
    CheckType -> KeptnWorkloadInstance ->
    KeptnWorkloadInstance * (KeptnState * option error);
  reconcileDeployment :
    KeptnWorkloadInstance ->
    KeptnWorkloadInstance * (KeptnState * option error)
}.

Section Controller.

Variable phases : Phases.
Variable env : Env.

Local Open Scope go_scope.

(** [r.Client.List(ctx, apps, client.InNamespace(ns))] *)
Definition List (ns : string) : error + list KeptnAppVersion :=
  match listErr env with
  | Some err => inl err
  | None =>
      inr (List.filter (fun a => String.eqb (AppVersion.Namespace a) ns)
             (appVersions env))
  end.

(** The body of the inner loop of [getAppVersionForWorkloadInstance]. *)
Definition selectWorkload (wli : KeptnWorkloadInstance) (app : KeptnAppVersion)
    (latestVersion : KeptnAppVersion) (appWorkload : WorkloadRef.KeptnWorkloadRef)
  : KeptnAppVersion :=
  let workloadName :=
    AppVersion.AppName (AppVersion.Spec app) ++ "-" ++ WorkloadRef.Name appWorkload in
  if String.eqb (WorkloadRef.Version appWorkload) (Version (Spec wli))
     && String.eqb workloadName (WorkloadName (Spec wli))
  then
    if String.eqb (AppVersion.Version (AppVersion.Spec latestVersion)) ""
    then app
    else if semver.Compare (AppVersion.Version (AppVersion.Spec latestVersion))
              (AppVersion.Version (AppVersion.Spec app)) <? 0
    then app
    else latestVersion
  else latestVersion.

(** The body of its outer loop. *)
Definition selectApp (wli : KeptnWorkloadInstance)
    (latestVersion app : KeptnAppVersion) : KeptnAppVersion :=
  if String.eqb (AppVersion.AppName (AppVersion.Spec app)) (AppName (Spec wli))
  then fold_left (selectWorkload wli app)
         (AppVersion.Workloads (AppVersion.Spec app)) latestVersion
  else latestVersion.

Definition getAppVersionForWorkloadInstance (wli : KeptnWorkloadInstance)
  : bool * KeptnAppVersion * option error :=
  match List (Namespace wli) with
  | inl err => (false, AppVersion.zero, Some err)
  | inr apps =>
      let latestVersion := fold_left (selectApp wli) apps AppVersion.zero in
      if String.eqb (AppVersion.Version (AppVersion.Spec latestVersion)) ""
      then (false, AppVersion.zero, None)
      else (true, latestVersion, None)
  end.

Definition getSpanName (wli : KeptnWorkloadInstance) (phase : string) : string :=
  fmtMap (TraceId (Spec wli)) ++ "." ++ AppName (Spec wli) ++ "."
  ++ WorkloadName (Spec wli) ++ "." ++ Version (Spec wli) ++ "." ++ phase.

Definition getSpan (phase : string) : Step Span :=
  wli <- getObject ;;
  getSpanFor (getSpanName wli phase) (WorkloadName (Spec wli) ++ "/" ++ phase).

Definition unbindSpan (phase : string) : Step unit :=
  wli <- getObject ;;
  unbind (getSpanName wli phase).

Definition recordEvent (phase : KeptnPhaseType) (eventType shortReason longReason : string)
  : Step unit :=
  workloadInstance <- getObject ;;
  emit (RecordEvent phase eventType workloadInstance shortReason longReason).

(** What [recordEvent] hands to [r.Recorder.Event]: the event type, the
    reason and the message. *)
Definition Recorder_Event (phase : KeptnPhaseType) (eventType : string)
    (workloadInstance : KeptnWorkloadInstance) (shortReason longReason : string)
  : string * string * string :=
  (eventType, ShortName phase ++ shortReason,
   LongName phase ++ " " ++ longReason ++ " / Namespace: "
   ++ Namespace workloadInstance ++ ", Name: " ++ Name workloadInstance
   ++ ", Version: " ++ Version (Spec workloadInstance) ++ " ").

(** [handlePhase].  [phaseFailed] is the accessor the caller passes as a
    method value; it is asked about the entity as it is when the driver
    reaches the test. *)
Definition handlePhase (phase : KeptnPhaseType) (span : Span)
    (phaseFailed : KeptnWorkloadInstance -> bool)
    (reconcilePhase : Func KeptnWorkloadInstance (KeptnState * option error))
  : Func KeptnWorkloadInstance Directive :=
  body (
    workloadInstance <- getObject ;;
    let oldstate := OverallStatus (Status workloadInstance) in
    let oldPhase := CurrentPhase (Status workloadInstance) in
    modify (setCurrentPhase (ShortName phase)) ;;
    spanAppTrace <- getSpan (ShortName phase) ;;
    workloadInstance <- getObject ;;
    if phaseFailed workloadInstance then
      (recordEvent phase "Warning" "Failed" "has failed" ;;
       returnWith ({| ctrl.Requeue := true; ctrl.RequeueAfter := 60 * time.Second |}, None))
    else
      (res <- call reconcilePhase ;;
       match snd res with
       | Some err =>
           emit (SpanAddEvent spanAppTrace (LongName phase ++ " could not get reconciled")) ;;
           recordEvent phase "Warning" "ReconcileErrored" "could not get reconciled" ;;
           emit (SpanSetStatus span CodeError err) ;;
           returnWith ({| ctrl.Requeue := true; ctrl.RequeueAfter := 0 |}, Some err)
       | None =>
           let state := fst res in
           overallStateUpdated <-
             (if IsSucceeded state then
                (emit (SpanAddEvent spanAppTrace (LongName phase ++ " has succeeded")) ;;
                 emit (SpanSetStatus spanAppTrace CodeOk "Succeeded") ;;
                 emit (SpanEnd spanAppTrace) ;;
                 unbindSpan (ShortName phase) ;;
                 recordEvent phase "Normal" "Succeeded" "has succeeded" ;;
                 ret false)
              else if IsFailed state then
                (recordEvent phase "Warning" "Failed" "has failed" ;;
                 modify (setOverallStatus StateFailed) ;;
                 modify (SetEndTime (now env)) ;;
                 emit (CounterAdd 1) ;;
                 emit (SpanAddEvent spanAppTrace (LongName phase ++ " has failed")) ;;
                 emit (SpanSetStatus spanAppTrace CodeError "Failed") ;;
                 emit (SpanEnd spanAppTrace) ;;
                 unbindSpan (ShortName phase) ;;
                 ret true)
              else
                (updated <-
                   (if negb (KeptnState_eqb oldstate StateProgressing) then
                      (modify (setOverallStatus StateProgressing) ;; ret true)
                    else ret false) ;;
                 emit (SpanAddEvent spanAppTrace (LongName phase ++ " not finished")) ;;
                 recordEvent phase "Warning" "NotFinished" "has not finished" ;;
                 ret updated)) ;;
           workloadInstance <- getObject ;;
           overallStateUpdated <-
             (if negb (String.eqb oldPhase (CurrentPhase (Status workloadInstance))) then
                (_ <- getSpan (CurrentPhase (Status workloadInstance)) ;; ret true)
              else ret overallStateUpdated) ;;
           (if overallStateUpdated : bool then
              (_ <- statusUpdate (store_answer env) ;; ret tt)
            else ret tt) ;;
           returnWith ({| ctrl.Requeue := true; ctrl.RequeueAfter := 5 * time.Second |}, None)
       end)
  ).

(** The status write that follows a Pending-to-Progressing promotion in
    [Reconcile]: [if err := r.Status().Update(...); err != nil { return
    ctrl.Result{}, err }]. *)
Definition updateOrReturn : Step unit :=
  err <- statusUpdate (store_answer env) ;;
  match err with
  | Some err => returnWith (ctrl.empty, Some err)
  | None => ret tt
  end.

(** [Reconcile], lines 104-129: wait for the pre-evaluation checks of the
    application. *)
Definition appGate (span : Span) : Step KeptnAppVersion :=
  let phase := PhaseAppPreEvaluation phases in
  workloadInstance <- getObject ;;
  let '(found, appVersion, err) := getAppVersionForWorkloadInstance workloadInstance in
  match err with
  | Some err =>
      emit (SpanSetStatus span CodeError err) ;;
      recordEvent phase "Warning" "GetAppVersionFailed"
        "has failed since app could not be retrieved" ;;
      returnWith ({| ctrl.Requeue := true; ctrl.RequeueAfter := 10 * time.Second |},
                  Some (Errorf "could not fetch AppVersion for KeptnWorkloadInstance: " err))
  | None =>
      if negb found then
        (emit (SpanSetStatus span CodeError "app could not be found") ;;
         recordEvent phase "Warning" "AppVersionNotFound"
           "has failed since app could not be found" ;;
         returnWith ({| ctrl.Requeue := true; ctrl.RequeueAfter := 10 * time.Second |},
                     Some "could not find AppVersion for KeptnWorkloadInstance"))
      else
        let appPreEvalStatus :=
          AppVersion.PreDeploymentEvaluationStatus (AppVersion.Status appVersion) in
        if negb (IsSucceeded appPreEvalStatus) then
          (if IsFailed appPreEvalStatus then
             (recordEvent phase "Warning" "Failed" "has failed since app has failed" ;;
              returnWith ({| ctrl.Requeue := true; ctrl.RequeueAfter := 60 * time.Second |},
                          None))
           else
             (recordEvent phase "Normal" "NotFinished"
                "Pre evaluations tasks for app not finished" ;;
              returnWith ({| ctrl.Requeue := true; ctrl.RequeueAfter := 20 * time.Second |},
                          None)))
        else ret appVersion
  end.

(** Lines 131-156: promote the pre-deployment status, take over the
    application's trace id, announce the start. *)
Definition preparePreDeployment (appVersion : KeptnAppVersion) : Step unit :=
  let phase := PhaseWorkloadPreDeployment phases in
  workloadInstance <- getObject ;;
  saveState <-
    (if KeptnState_eqb (PreDeploymentStatus (Status workloadInstance)) StatePending then
       (modify (setPreDeploymentStatus StateProgressing) ;; ret true)
     else ret false) ;;
  workloadInstance <- getObject ;;
  saveState <-
    (if (Z.of_nat (length (TraceId (Spec workloadInstance))) <? 1)%Z then
       (modify (setTraceId (AppVersion.TraceId (AppVersion.Spec appVersion))) ;; ret true)
     else ret saveState) ;;
  (if saveState : bool then updateOrReturn else ret tt) ;;
  (if String.eqb (AppVersion.CurrentPhase (AppVersion.Status appVersion)) "" then
     (unbindSpan (ShortName phase) ;;
      spanAppTrace <- getSpan (ShortName phase) ;;
      emit (SpanAddEvent spanAppTrace "WorkloadInstance Pre-Deployment Tasks started") ;;
      recordEvent phase "Normal" "Started" "have started")
   else ret tt).

(** Lines 158-163, 175-180, 191-196, 207-212 and 223-228: drive a phase
    that has not succeeded and return with what the driver says. *)
Definition drive (succeeded : KeptnWorkloadInstance -> bool)
    (phase : KeptnPhaseType) (span : Span)
    (phaseFailed : KeptnWorkloadInstance -> bool)
    (reconcilePhase : Func KeptnWorkloadInstance (KeptnState * option error))
  : Step unit :=
  workloadInstance <- getObject ;;
  if negb (succeeded workloadInstance) then
    (d <- call (handlePhase phase span phaseFailed reconcilePhase) ;; returnWith d)
  else ret tt.

(** Lines 169-174, 185-190, 201-206 and 217-222: set a phase status to
    progressing if it is pending, and save it. *)
Definition promote (field : KeptnWorkloadInstance -> KeptnState)
    (set : KeptnState -> KeptnWorkloadInstance -> KeptnWorkloadInstance)
  : Step unit :=
  workloadInstance <- getObject ;;
  if KeptnState_eqb (field workloadInstance) StatePending then
    (modify (set StateProgressing) ;; updateOrReturn)
  else ret tt.

(** Lines 230-255: the workload instance is completed. *)
Definition complete (phase : KeptnPhaseType) (span : Span) : Step Directive :=
  workloadInstance <- getObject ;;
  (if negb (IsEndTimeSet workloadInstance) then
     (modify (setCurrentPhase (ShortName (PhaseCompleted phases))) ;;
      modify (setOverallStatus StateSucceeded) ;;
      modify (SetEndTime (now env)))
   else ret tt) ;;
  err <- statusUpdate (store_answer env) ;;
  match err with
  | Some err =>
      emit (SpanSetStatus span CodeError err) ;;
      returnWith ({| ctrl.Requeue := true; ctrl.RequeueAfter := 0 |}, Some err)
  | None =>
      workloadInstance <- getObject ;;
      emit (CounterAdd 1) ;;
      emit (DurationRecord (Sub (EndTime (Status workloadInstance))
                                (StartTime (Status workloadInstance)))) ;;
      recordEvent phase "Normal" "Finished" "is finished" ;;
      returnWith (ctrl.empty, None)
  end.

(** Lines 131-255: the workload instance's own phase sequence. *)
Definition phaseSequence (appVersion : KeptnAppVersion) (span : Span)
  : Step Directive :=
    preparePreDeployment appVersion ;;
    drive IsPreDeploymentSucceeded (PhaseWorkloadPreDeployment phases) span
      IsPreDeploymentFailed
      (callback (CallPrePostDeployment PreDeploymentCheckType)
         (reconcilePrePostDeployment env PreDeploymentCheckType)) ;;
    promote (fun w => PreDeploymentEvaluationStatus (Status w))
      setPreDeploymentEvaluationStatus ;;
    drive IsPreDeploymentEvaluationSucceeded (PhaseAppPreEvaluation phases) span
      IsPreDeploymentEvaluationFailed
      (callback (CallPrePostEvaluation PreDeploymentEvaluationCheckType)
         (reconcilePrePostEvaluation env PreDeploymentEvaluationCheckType)) ;;
    promote (fun w => DeploymentStatus (Status w)) setDeploymentStatus ;;
    drive IsDeploymentSucceeded (PhaseWorkloadDeployment phases) span
      IsDeploymentFailed
      (callback CallDeployment (reconcileDeployment env)) ;;
    promote (fun w => PostDeploymentStatus (Status w)) setPostDeploymentStatus ;;
    drive IsPostDeploymentSucceeded (PhaseWorkloadPostDeployment phases) span
      IsPostDeploymentFailed
      (callback (CallPrePostDeployment PostDeploymentCheckType)
         (reconcilePrePostDeployment env PostDeploymentCheckType)) ;;
    promote (fun w => PostDeploymentStatus (Status w)) setPostDeploymentStatus ;;
    drive IsPostDeploymentEvaluationSucceeded (PhaseAppPostEvaluation phases) span
      IsPostDeploymentEvaluationFailed
      (callback (CallPrePostEvaluation PostDeploymentEvaluationCheckType)
         (reconcilePrePostEvaluation env PostDeploymentEvaluationCheckType)) ;;
    complete (PhaseAppPostEvaluation phases) span.

(** [Reconcile] from line 100 on, for the workload instance that was
    fetched. *)
Definition reconcileFound (span : Span) : Func KeptnWorkloadInstance Directive :=
  body (
    modify (SetStartTime (now env)) ;;
    appVersion <- appGate span ;;
    phaseSequence appVersion span
  ).

(** [Reconcile]: what the scheduler gets back, what was done on the way,
    and the reconciler afterwards. *)
Definition Reconcile (r : Reconciler) (req : types.NamespacedName)
  : list (Effect KeptnWorkloadInstance) * Reconciler * Directive :=
  match Get env req with
  | NotFound => ([], r, (ctrl.empty, None))
  | GetFailed err =>
      ([], r, (ctrl.empty, Some (Errorf "could not fetch KeptnWorkloadInstance: " err)))
  | Found workloadInstance =>
      let '(l, st, d) :=
        body (
          span <- tracerStart "reconcile_workload_instance" ;;
          d <- call (reconcileFound span) ;;
          emit (SpanEnd span) ;;
          returnWith d
        ) {| object := workloadInstance; reconciler := r; updateSeq := 0 |} in
      (l, reconciler st, d)
  end.

End Controller.

(** *** The gauge callbacks and the naming helpers

    The three [Get...] methods are read by the metrics exporter.  They see
    the store through [r.List] over all namespaces, whose answer is
    [workloadInstances], and through [r.Get].  The attribute sets come
    from methods of the entity that are declared in [api/v1alpha1], and
    the value of a float gauge from [t.Time.Sub(u.Time).Seconds()] of
    package [time]: all of them are taken as they are. *)
Section Gauges.

Context {F A : Type}.
Variable Seconds : Time -> Time -> F.
Variable GetActiveMetricsAttributes : KeptnWorkloadInstance -> A.
Variable GetIntervalMetricsAttributes : KeptnWorkloadInstance -> A.
Variable env : Env.
Variable workloadInstances : error + list KeptnWorkloadInstance.

Definition GetActiveDeployments : error + list (GaugeValue.GaugeValue A) :=
  match workloadInstances with
  | inl err => inl (Errorf "could not retrieve workload instances: " err)
  | inr Items =>
      inr (fold_left
             (fun res workloadInstance =>
                let gaugeValue :=
                  if negb (IsEndTimeSet workloadInstance) then 1 else 0 in
                res ++ [ {| GaugeValue.Value := gaugeValue;
                            GaugeValue.Attributes :=
                              GetActiveMetricsAttributes workloadInstance |} ])%list
             Items [])
  end.

Definition GetDeploymentInterval : error + list (GaugeFloatValue.GaugeFloatValue F A) :=
  match workloadInstances with
  | inl err => inl (Errorf "could not retrieve workload instances: " err)
  | inr Items =>
      inr (fold_left
             (fun res workloadInstance =>
                if negb (String.eqb (PreviousVersion (Spec workloadInstance)) "") then
                  match Get env
                          {| types.Name :=
                               WorkloadName (Spec workloadInstance) ++ "-"
                               ++ PreviousVersion (Spec workloadInstance);
                             types.Namespace := Namespace workloadInstance |} with
                  | Found previousWorkloadInstance =>
                      if IsEndTimeSet workloadInstance then
                        (res ++ [ {| GaugeFloatValue.Value :=
                                       Seconds (StartTime (Status workloadInstance))
                                         (EndTime (Status previousWorkloadInstance));
                                     GaugeFloatValue.Attributes :=
                                       GetIntervalMetricsAttributes workloadInstance |} ])%list
                      else res
                  | NotFound | GetFailed _ => res
                  end
                else res)
             Items [])
  end.

Definition GetDeploymentDuration : error + list (GaugeFloatValue.GaugeFloatValue F A) :=
  match workloadInstances with
  | inl err => inl (Errorf "could not retrieve workload instances: " err)
  | inr Items =>
      inr (fold_left
             (fun res workloadInstance =>
                if IsEndTimeSet workloadInstance then
                  (res ++ [ {| GaugeFloatValue.Value :=
                                 Seconds (EndTime (Status workloadInstance))
                                   (StartTime (Status workloadInstance));
                               GaugeFloatValue.Attributes :=
                                 GetIntervalMetricsAttributes workloadInstance |} ])%list
                else res)
             Items [])
  end.

End Gauges.

Definition GetAppVersionName (namespace appName version : string)
  : types.NamespacedName :=
  {| types.Namespace := namespace; types.Name := appName ++ "-" ++ version |}.

(** [generateSuffix], for the string [uid] that [uuid.New().String()]
    gave: [uid[:10]], which panics ([None]) on a shorter string. *)
Definition generateSuffix (uid : string) : option string :=
  if Nat.ltb (String.length uid) 10 then None
  else Some (String.substring 0 10 uid).
End keptnworkloadinstance.

(** ** Package [keptnappversion]: the application-version reconciler *)
Module keptnappversion.
Import common AppVersion.

Abbreviation Step := (M KeptnAppVersion Directive).

(** What one reconcile meets outside the reconciler: the clock, the store
    and the three phase callbacks. *)
Record Env : Type := {
  now : Z;
  Get : types.NamespacedName -> GetResult KeptnAppVersion;
  store_answer : nat -> option error;
  reconcilePrePostDeployment :
    CheckType -> KeptnAppVersion -> KeptnAppVersion * (KeptnState * option error);
  reconcilePrePostEvaluation :
    CheckType -> KeptnAppVersion -> KeptnAppVersion * (KeptnState * option error);
  reconcileWorkloads :
    KeptnAppVersion -> KeptnAppVersion * (KeptnState * option error)
}.

Section Controller.

Variable phases : Phases.
Variable env : Env.

Local Open Scope go_scope.

Definition getSpanName (appv : KeptnAppVersion) (phase : string) : string :=
  fmtMap (TraceId (Spec appv)) ++ "." ++ AppName (Spec appv) ++ "."
  ++ Version (Spec appv) ++ "." ++ phase.

Definition getSpan (phase : string) : Step Span :=
  appv <- getObject ;;
  getSpanFor (getSpanName appv phase) phase.

Definition unbindSpan (phase : string) : Step unit :=
  appv <- getObject ;;
  unbind (getSpanName appv phase).

Definition recordEvent (phase : KeptnPhaseType) (eventType shortReason longReason : string)
  : Step unit :=
  appVersion <- getObject ;;
  emit (RecordEvent phase eventType appVersion shortReason longReason).

Definition Recorder_Event (phase : KeptnPhaseType) (eventType : string)
    (appVersion : KeptnAppVersion) (shortReason longReason : string)
  : string * string * string :=
  (eventType, ShortName phase ++ shortReason,
   LongName phase ++ " " ++ longReason ++ " / Namespace: "
   ++ Namespace appVersion ++ ", Name: " ++ Name appVersion
   ++ ", Version: " ++ Version (Spec appVersion) ++ " ").

Definition handlePhase (phase : KeptnPhaseType) (span : Span)
    (phaseFailed : KeptnAppVersion -> bool)
    (reconcilePhase : Func KeptnAppVersion (KeptnState * option error))
  : Func KeptnAppVersion Directive :=
  body (
    appVersion <- getObject ;;
    let oldStatus := OverallStatus (Status appVersion) in
    spanAppTrace <- getSpan (ShortName phase) ;;
    let oldPhase := CurrentPhase (Status appVersion) in
    modify (setCurrentPhase (ShortName phase)) ;;
    appVersion <- getObject ;;
    if phaseFailed appVersion then
      (recordEvent phase "Warning" "Failed" "has failed" ;;
       returnWith ({| ctrl.Requeue := true; ctrl.RequeueAfter := 60 * time.Second |}, None))
    else
      (res <- call reconcilePhase ;;
       match snd res with
       | Some err =>
           emit (SpanAddEvent spanAppTrace (LongName phase ++ " could not get reconciled")) ;;
           recordEvent phase "Warning" "ReconcileErrored" "could not get reconciled" ;;
           emit (SpanSetStatus span CodeError err) ;;
           returnWith ({| ctrl.Requeue := true; ctrl.RequeueAfter := 0 |}, Some err)
       | None =>
           let state := fst res in
           newStatus <-
             (if IsSucceeded state then
                (emit (SpanAddEvent spanAppTrace (LongName phase ++ " has succeeded")) ;;
                 emit (SpanSetStatus spanAppTrace CodeOk "Succeeded") ;;
                 emit (SpanEnd spanAppTrace) ;;
                 unbindSpan (ShortName phase) ;;
                 recordEvent phase "Normal" "Succeeded" "has succeeded" ;;
                 ret StateSucceeded)
              else if IsFailed state then
                (modify (SetEndTime (now env)) ;;
                 emit (CounterAdd 1) ;;
                 emit (SpanAddEvent spanAppTrace (LongName phase ++ " has failed")) ;;
                 emit (SpanSetStatus spanAppTrace CodeError "Failed") ;;
                 emit (SpanEnd spanAppTrace) ;;
                 unbindSpan (ShortName phase) ;;
                 recordEvent phase "Warning" "Failed" "has failed" ;;
                 ret StateFailed)
              else
                (recordEvent phase "Warning" "NotFinished" "has not finished" ;;
                 ret StateProgressing)) ;;
           appVersion <- getObject ;;
           statusUpdated <-
             (if negb (String.eqb oldPhase (CurrentPhase (Status appVersion))) then
                (_ <- getSpan (CurrentPhase (Status appVersion)) ;; ret true)
              else ret false) ;;
           statusUpdated <-
             (if negb (KeptnState_eqb oldStatus newStatus) then
                (modify (setOverallStatus newStatus) ;; ret true)
              else ret statusUpdated) ;;
           (if statusUpdated : bool then
              (_ <- statusUpdate (store_answer env) ;; ret tt)
            else ret tt) ;;
           returnWith ({| ctrl.Requeue := true; ctrl.RequeueAfter := 5 * time.Second |}, None)
       end)
  ).

(** Lines 576-584 of the file: the first reconcile announces the start. *)
Definition announceStart : Step unit :=
  let phase := PhaseAppPreDeployment phases in
  appVersion <- getObject ;;
  if String.eqb (CurrentPhase (Status appVersion)) "" then
    (unbindSpan (ShortName phase) ;;
     spanAppTrace <- getSpan (ShortName phase) ;;
     emit (SpanAddEvent spanAppTrace "App Version Pre-Deployment Tasks started") ;;
     recordEvent phase "Normal" "Started" "have started")
  else ret tt.

(** Drive a phase that is not done and return with what the driver
    says. *)
Definition drive (done : KeptnAppVersion -> bool)
    (phase : KeptnPhaseType) (span : Span)
    (phaseFailed : KeptnAppVersion -> bool)
    (reconcilePhase : Func KeptnAppVersion (KeptnState * option error))
  : Step unit :=
  appVersion <- getObject ;;
  if negb (done appVersion) then
    (d <- call (handlePhase phase span phaseFailed reconcilePhase) ;; returnWith d)
  else ret tt.

(** Lines 626-656: the application version is completed. *)
Definition complete (phase : KeptnPhaseType) (span : Span) : Step Directive :=
  recordEvent phase "Normal" "Finished" "is finished" ;;
  err <- statusUpdate (store_answer env) ;;
  match err with
  | Some err =>
      emit (SpanSetStatus span CodeError err) ;;
      returnWith ({| ctrl.Requeue := true; ctrl.RequeueAfter := 0 |}, Some err)
  | None =>
      appVersion <- getObject ;;
      (if negb (IsEndTimeSet appVersion) then
         (modify (setCurrentPhase (ShortName (PhaseCompleted phases))) ;;
          modify (SetEndTime (now env)))
       else ret tt) ;;
      err <- statusUpdate (store_answer env) ;;
      match err with
      | Some err =>
          returnWith ({| ctrl.Requeue := true; ctrl.RequeueAfter := 0 |}, Some err)
      | None =>
          appVersion <- getObject ;;
          emit (CounterAdd 1) ;;
          emit (DurationRecord (Sub (EndTime (Status appVersion))
                                    (StartTime (Status appVersion)))) ;;
          returnWith (ctrl.empty, None)
      end
  end.

(** Lines 586-656: the application version's phase sequence. *)
Definition phaseSequence (span : Span) : Step Directive :=
    drive IsPreDeploymentSucceeded (PhaseAppPreDeployment phases) span
      IsPreDeploymentFailed
      (callback (CallPrePostDeployment PreDeploymentCheckType)
         (reconcilePrePostDeployment env PreDeploymentCheckType)) ;;
    drive IsPreDeploymentEvaluationSucceeded (PhaseAppPreEvaluation phases) span
      IsPreDeploymentEvaluationFailed
      (callback (CallPrePostEvaluation PreDeploymentEvaluationCheckType)
         (reconcilePrePostEvaluation env PreDeploymentEvaluationCheckType)) ;;
    drive AreWorkloadsSucceeded (PhaseAppDeployment phases) span
      AreWorkloadsFailed
      (callback CallWorkloads (reconcileWorkloads env)) ;;
    drive IsPostDeploymentSucceeded (PhaseAppPostDeployment phases) span
      IsPostDeploymentFailed
      (callback (CallPrePostDeployment PostDeploymentCheckType)
         (reconcilePrePostDeployment env PostDeploymentCheckType)) ;;
    drive IsPostDeploymentEvaluationCompleted (PhaseAppPostEvaluation phases) span
      IsPostDeploymentEvaluationFailed
      (callback (CallPrePostEvaluation PostDeploymentEvaluationCheckType)
         (reconcilePrePostEvaluation env PostDeploymentEvaluationCheckType)) ;;
    complete (PhaseAppPostEvaluation phases) span.

(** [Reconcile] from the span on, for the application version that was
    fetched. *)
Definition reconcileFound (span : Span) : Func KeptnAppVersion Directive :=
  body (
    announceStart ;;
    phaseSequence span
  ).

Definition Reconcile (r : Reconciler) (req : types.NamespacedName)
  : list (Effect KeptnAppVersion) * Reconciler * Directive :=
  match Get env req with
  | NotFound => ([], r, (ctrl.empty, None))
  | GetFailed err =>
      ([], r, (ctrl.empty, Some (Errorf "could not fetch KeptnappVersion: " err)))
  | Found appVersion =>
      let '(l, st, d) :=
        body (
          modify (SetStartTime (now env)) ;;
          span <- tracerStart "reconcile_app_version" ;;
          d <- call (reconcileFound span) ;;
          emit (SpanEnd span) ;;
          returnWith d
        ) {| object := appVersion; reconciler := r; updateSeq := 0 |} in
      (l, reconciler st, d)
  end.

End Controller.

(** *** The gauge callbacks

    As for workload instances: [appInstances] is what [r.List] answers
    over all namespaces. *)
Section Gauges.

Context {F A : Type}.
Variable Seconds : Time -> Time -> F.
Variable GetActiveMetricsAttributes : KeptnAppVersion -> A.
Variable GetDurationMetricsAttributes : KeptnAppVersion -> A.
Variable env : Env.
Variable appInstances : error + list KeptnAppVersion.

Definition GetActiveApps : error + list (GaugeValue.GaugeValue A) :=
  match appInstances with
  | inl err => inl (Errorf "could not retrieve app versions: " err)
  | inr Items =>
      inr (fold_left
             (fun res appInstance =>
                let gaugeValue :=
                  if negb (IsEndTimeSet appInstance) then 1 else 0 in
                res ++ [ {| GaugeValue.Value := gaugeValue;
                            GaugeValue.Attributes :=
                              GetActiveMetricsAttributes appInstance |} ])%list
             Items [])
  end.

Definition GetDeploymentInterval : error + list (GaugeFloatValue.GaugeFloatValue F A) :=
  match appInstances with
  | inl err => inl (Errorf "could not retrieve app versions: " err)
  | inr Items =>
      inr (fold_left
             (fun res appInstance =>
                if negb (String.eqb (PreviousVersion (Spec appInstance)) "") then
                  let appName :=
                    AppName (Spec appInstance) ++ "-"
                    ++ PreviousVersion (Spec appInstance) in
                  match Get env {| types.Name := appName;
                                   types.Namespace := Namespace appInstance |} with
                  | Found previousAppVersion =>
                      (res ++ [ {| GaugeFloatValue.Value :=
                                     Seconds (StartTime (Status appInstance))
                                       (EndTime (Status previousAppVersion));
                                   GaugeFloatValue.Attributes :=
                                     GetDurationMetricsAttributes appInstance |} ])%list
                  | NotFound | GetFailed _ => res
                  end
                else res)
             Items [])
  end.

Definition GetDeploymentDuration : error + list (GaugeFloatValue.GaugeFloatValue F A) :=
  match appInstances with
  | inl err => inl (Errorf "could not retrieve app versions: " err)
  | inr Items =>
      inr (fold_left
             (fun res appInstance =>
                if IsEndTimeSet appInstance then
                  (res ++ [ {| GaugeFloatValue.Value :=
                                 Seconds (EndTime (Status appInstance))
                                   (StartTime (Status appInstance));
                               GaugeFloatValue.Attributes :=
                                 GetDurationMetricsAttributes appInstance |} ])%list
                else res)
             Items [])
  end.

End Gauges.
End keptnappversion.

(** ** Sample entities and environments *)
Module Sample.
Import common.

Definition phases : Phases :=
  {| PhaseWorkloadPreDeployment :=
       {| ShortName := "WorkloadPreDeployTasks"; LongName := "Workload Pre-Deployment Tasks" |};
     PhaseWorkloadDeployment :=
       {| ShortName := "WorkloadDeploy"; LongName := "Workload Deployment" |};
     PhaseWorkloadPostDeployment :=
       {| ShortName := "WorkloadPostDeployTasks"; LongName := "Workload Post-Deployment Tasks" |};
     PhaseAppPreDeployment :=
       {| ShortName := "AppPreDeployTasks"; LongName := "App Pre-Deployment Tasks" |};
     PhaseAppPreEvaluation :=
       {| ShortName := "AppPreDeployEvaluations"; LongName := "App Pre-Deployment Evaluations" |};
     PhaseAppDeployment :=
       {| ShortName := "AppDeploy"; LongName := "App Deployment" |};
     PhaseAppPostDeployment :=
       {| ShortName := "AppPostDeployTasks"; LongName := "App Post-Deployment Tasks" |};
     PhaseAppPostEvaluation :=
       {| ShortName := "AppPostDeployEvaluations"; LongName := "App Post-Deployment Evaluations" |};
     PhaseCompleted := {| ShortName := "Completed"; LongName := "Completed" |} |}.

Definition req : types.NamespacedName :=
  {| types.Namespace := "default"; types.Name := "podtato-head-entry-1.0.0" |}.

(** A fresh reconciler: no span bound, no span started. *)
Definition r0 : Reconciler := {| bindCRDSpan := ∅; spanSeq := 0 |}.

(** A workload instance of application [podtato-head] in a given state. *)
Definition wliStatus (pre preEval dep post postEval overall : KeptnState)
    (phase : string) (start finish : Time)
  : WorkloadInstance.KeptnWorkloadInstanceStatus :=
  {| WorkloadInstance.PreDeploymentStatus := pre;
     WorkloadInstance.PreDeploymentEvaluationStatus := preEval;
     WorkloadInstance.DeploymentStatus := dep;
     WorkloadInstance.PostDeploymentStatus := post;
     WorkloadInstance.PostDeploymentEvaluationStatus := postEval;
     WorkloadInstance.CurrentPhase := phase;
     WorkloadInstance.OverallStatus := overall;
     WorkloadInstance.StartTime := start;
     WorkloadInstance.EndTime := finish |}.

Definition wli (st : WorkloadInstance.KeptnWorkloadInstanceStatus)
  : WorkloadInstance.KeptnWorkloadInstance :=
  {| WorkloadInstance.Namespace := "default";
     WorkloadInstance.Name := "podtato-head-entry-1.0.0";
     WorkloadInstance.Spec :=
       {| WorkloadInstance.AppName := "podtato-head";
          WorkloadInstance.WorkloadName := "podtato-head-entry";
          WorkloadInstance.Version := "1.0.0";
          WorkloadInstance.PreviousVersion := "";
          WorkloadInstance.TraceId := [("traceparent", "00-aa-bb-01")] |};
     WorkloadInstance.Status := st |}.

Definition wliFresh : WorkloadInstance.KeptnWorkloadInstance :=
  wli (wliStatus StatePending StatePending StatePending StatePending StatePending
         StatePending "" None None).

Definition wliDone : WorkloadInstance.KeptnWorkloadInstance :=
  wli (wliStatus StateSucceeded StateSucceeded StateSucceeded StateSucceeded
         StateSucceeded StateSucceeded "Completed" (Some 100) (Some 160)).

(** An application version of [podtato-head] that lists the workload
    [entry] at version [1.0.0]. *)
Definition appStatus (pre preEval : KeptnState) (workloads : list KeptnState)
    (post postEval overall : KeptnState) (phase : string) (start finish : Time)
  : AppVersion.KeptnAppVersionStatus :=
  {| AppVersion.PreDeploymentStatus := pre;
     AppVersion.PreDeploymentEvaluationStatus := preEval;
     AppVersion.WorkloadStatus := workloads;
     AppVersion.PostDeploymentStatus := post;
     AppVersion.PostDeploymentEvaluationStatus := postEval;
     AppVersion.CurrentPhase := phase;
     AppVersion.OverallStatus := overall;
     AppVersion.StartTime := start;
     AppVersion.EndTime := finish |}.

Definition app (version : string) (st : AppVersion.KeptnAppVersionStatus)
  : AppVersion.KeptnAppVersion :=
  {| AppVersion.Namespace := "default";
     AppVersion.Name := "podtato-head-" ++ version;
     AppVersion.Spec :=
       {| AppVersion.AppName := "podtato-head";
          AppVersion.Version := version;
          AppVersion.PreviousVersion := "";
          AppVersion.Workloads :=
            [ {| WorkloadRef.Name := "entry"; WorkloadRef.Version := "1.0.0" |} ];
          AppVersion.TraceId := [("traceparent", "00-aa-bb-01")] |};
     AppVersion.Status := st |}.

Definition appFresh : AppVersion.KeptnAppVersion :=
  app "1.2.0" (appStatus StatePending StatePending [StatePending] StatePending
                 StatePending StatePending "" None None).

(** Past its pre-deployment evaluation, so that workloads may go on. *)
Definition appGo (version : string) : AppVersion.KeptnAppVersion :=
  app version (appStatus StateSucceeded StateSucceeded [StateProgressing] StatePending
                 StatePending StateSucceeded "AppDeploy" (Some 90) None).

Definition appDone : AppVersion.KeptnAppVersion :=
  app "1.2.0" (appStatus StateSucceeded StateSucceeded [StateSucceeded] StateSucceeded
                 StateSucceeded StateSucceeded "Completed" (Some 90) (Some 170)).

(** All phases succeeded, as the driver leaves the entity after the last
    phase: overall Succeeded, no end time yet. *)
Definition appLastPhase : AppVersion.KeptnAppVersion :=
  app "1.2.0" (appStatus StateSucceeded StateSucceeded [StateSucceeded] StateSucceeded
                 StateSucceeded StateSucceeded "AppPostDeployEvaluations" (Some 90) None).

(** Through all phases but the post-deployment evaluation. *)
Definition wliPostEval : WorkloadInstance.KeptnWorkloadInstance :=
  wli (wliStatus StateSucceeded StateSucceeded StateSucceeded StateSucceeded
         StatePending StateProgressing "WorkloadPostDeployTasks" (Some 100) None).

(** A callback that reports [k] and marks nothing. *)
Definition answer {E : Type} (k : KeptnState) (o : E)
  : E * (KeptnState * option error) := (o, (k, None)).

(** Callbacks as the task and evaluation engines behave: each records its
    verdict [k] in the status field of its phase and reports it. *)
Definition wliMark (c : PhaseCall) (k : KeptnState)
    (o : WorkloadInstance.KeptnWorkloadInstance)
  : WorkloadInstance.KeptnWorkloadInstance * (KeptnState * option error) :=
  let s := WorkloadInstance.Status o in
  let pick (mine : PhaseCall) (old : KeptnState) : KeptnState :=
    match c, mine with
    | CallPrePostDeployment PreDeploymentCheckType,
      CallPrePostDeployment PreDeploymentCheckType
    | CallPrePostDeployment PostDeploymentCheckType,
      CallPrePostDeployment PostDeploymentCheckType
    | CallPrePostEvaluation PreDeploymentEvaluationCheckType,
      CallPrePostEvaluation PreDeploymentEvaluationCheckType
    | CallPrePostEvaluation PostDeploymentEvaluationCheckType,
      CallPrePostEvaluation PostDeploymentEvaluationCheckType
    | CallDeployment, CallDeployment => k
    | _, _ => old
    end in
  (WorkloadInstance.withStatus (fun _ =>
     wliStatus
       (pick (CallPrePostDeployment PreDeploymentCheckType)
          (WorkloadInstance.PreDeploymentStatus s))
       (pick (CallPrePostEvaluation PreDeploymentEvaluationCheckType)
          (WorkloadInstance.PreDeploymentEvaluationStatus s))
       (pick CallDeployment (WorkloadInstance.DeploymentStatus s))
       (pick (CallPrePostDeployment PostDeploymentCheckType)
          (WorkloadInstance.PostDeploymentStatus s))
       (pick (CallPrePostEvaluation PostDeploymentEvaluationCheckType)
          (WorkloadInstance.PostDeploymentEvaluationStatus s))
       (WorkloadInstance.OverallStatus s) (WorkloadInstance.CurrentPhase s)
       (WorkloadInstance.StartTime s) (WorkloadInstance.EndTime s)) o,
   (k, None)).

Definition appMark (c : PhaseCall) (k : KeptnState) (o : AppVersion.KeptnAppVersion)
  : AppVersion.KeptnAppVersion * (KeptnState * option error) :=
  let s := AppVersion.Status o in
  let pick (mine : PhaseCall) (old : KeptnState) : KeptnState :=
    match c, mine with
    | CallPrePostDeployment PreDeploymentCheckType,
      CallPrePostDeployment PreDeploymentCheckType
    | CallPrePostDeployment PostDeploymentCheckType,
      CallPrePostDeployment PostDeploymentCheckType
    | CallPrePostEvaluation PreDeploymentEvaluationCheckType,
      CallPrePostEvaluation PreDeploymentEvaluationCheckType
    | CallPrePostEvaluation PostDeploymentEvaluationCheckType,
      CallPrePostEvaluation PostDeploymentEvaluationCheckType => k
    | _, _ => old
    end in
  (AppVersion.withStatus (fun _ =>
     appStatus
       (pick (CallPrePostDeployment PreDeploymentCheckType)
          (AppVersion.PreDeploymentStatus s))
       (pick (CallPrePostEvaluation PreDeploymentEvaluationCheckType)
          (AppVersion.PreDeploymentEvaluationStatus s))
       (match c with CallWorkloads => [k] | _ => AppVersion.WorkloadStatus s end)
       (pick (CallPrePostDeployment PostDeploymentCheckType)
          (AppVersion.PostDeploymentStatus s))
       (pick (CallPrePostEvaluation PostDeploymentEvaluationCheckType)
          (AppVersion.PostDeploymentEvaluationStatus s))
       (AppVersion.OverallStatus s) (AppVersion.CurrentPhase s)
       (AppVersion.StartTime s) (AppVersion.EndTime s)) o,
   (k, None)).

(** The workload-instance reconciler's surroundings: the instance [w] in
    the store next to the application versions [apps], a store that
    accepts every write, callbacks whose verdict is [k]. *)
Definition wliEnv (w : WorkloadInstance.KeptnWorkloadInstance)
    (apps : list AppVersion.KeptnAppVersion) (k : KeptnState)
  : keptnworkloadinstance.Env :=
  {| keptnworkloadinstance.now := 200;
     keptnworkloadinstance.Get := fun _ => Found w;
     keptnworkloadinstance.appVersions := apps;
     keptnworkloadinstance.listErr := None;
     keptnworkloadinstance.store_answer := fun _ => None;
     keptnworkloadinstance.reconcilePrePostDeployment :=
       fun c => wliMark (CallPrePostDeployment c) k;
     keptnworkloadinstance.reconcilePrePostEvaluation :=
       fun c => wliMark (CallPrePostEvaluation c) k;
     keptnworkloadinstance.reconcileDeployment := wliMark CallDeployment k |}.

Definition appEnv (v : AppVersion.KeptnAppVersion) (k : KeptnState)
  : keptnappversion.Env :=
  {| keptnappversion.now := 200;
     keptnappversion.Get := fun _ => Found v;
     keptnappversion.store_answer := fun _ => None;
     keptnappversion.reconcilePrePostDeployment :=
       fun c => appMark (CallPrePostDeployment c) k;
     keptnappversion.reconcilePrePostEvaluation :=
       fun c => appMark (CallPrePostEvaluation c) k;
     keptnappversion.reconcileWorkloads := appMark CallWorkloads k |}.

(** An application version whose pre-deployment evaluation has failed. *)
Definition appFailedGate : AppVersion.KeptnAppVersion :=
  app "1.2.0"
    (appStatus StateSucceeded StateFailed [StatePending] StatePending StatePending
       StateFailed "AppPreDeployEvaluations" (Some 90) (Some 95)).

(** The driver's state on a workload instance whose pre-deployment tasks
    have failed, and on a fresh application version. *)
Definition wliFailedState : State WorkloadInstance.KeptnWorkloadInstance :=
  {| object :=
       wli (wliStatus StateFailed StatePending StatePending StatePending StatePending
              StateFailed "WorkloadPreDeployTasks" (Some 100) (Some 130));
     reconciler := r0; updateSeq := 0 |}.

Definition appFreshState : State AppVersion.KeptnAppVersion :=
  {| object := appFresh; reconciler := r0; updateSeq := 0 |}.

End Sample.

(** ** The vocabulary of the properties *)

(** What the phase driver tells the scheduler once the callback has
    answered (§4.4, step 7): an immediate requeue with the error, or a
    requeue after five seconds. *)
Definition driverDirective (answer : common.KeptnState * option error) : Directive :=
  match snd answer with
  | Some err => ({| ctrl.Requeue := true; ctrl.RequeueAfter := 0 |}, Some err)
  | None => ({| ctrl.Requeue := true; ctrl.RequeueAfter := 5 * time.Second |}, None)
  end.

(** A walk over a phase sequence: the callback of the first phase whose
    accessor does not report succeeded. *)
Definition firstUnfinished {E : Type} (sequence : list (PhaseCall * (E -> bool))) (o : E)
  : option PhaseCall :=
  match List.find (fun p => negb (snd p o)) sequence with
  | Some p => Some (fst p)
  | None => None
  end.

Definition wli_sequence
  : list (PhaseCall * (WorkloadInstance.KeptnWorkloadInstance -> bool)) :=
  [ (CallPrePostDeployment common.PreDeploymentCheckType,
     WorkloadInstance.IsPreDeploymentSucceeded);
    (CallPrePostEvaluation common.PreDeploymentEvaluationCheckType,
     WorkloadInstance.IsPreDeploymentEvaluationSucceeded);
    (CallDeployment, WorkloadInstance.IsDeploymentSucceeded);
    (CallPrePostDeployment common.PostDeploymentCheckType,
     WorkloadInstance.IsPostDeploymentSucceeded);
    (CallPrePostEvaluation common.PostDeploymentEvaluationCheckType,
     WorkloadInstance.IsPostDeploymentEvaluationSucceeded) ].

Definition app_sequence
  : list (PhaseCall * (AppVersion.KeptnAppVersion -> bool)) :=
  [ (CallPrePostDeployment common.PreDeploymentCheckType,
     AppVersion.IsPreDeploymentSucceeded);
    (CallPrePostEvaluation common.PreDeploymentEvaluationCheckType,
     AppVersion.IsPreDeploymentEvaluationSucceeded);
    (CallWorkloads, AppVersion.AreWorkloadsSucceeded);
    (CallPrePostDeployment common.PostDeploymentCheckType,
     AppVersion.IsPostDeploymentSucceeded);
    (CallPrePostEvaluation common.PostDeploymentEvaluationCheckType,
     AppVersion.IsPostDeploymentEvaluationSucceeded) ].

(** *** A program logic for reconcile bodies

    [spec LC QR P c Q]: started on an entity that satisfies [P], the
    statement [c] either falls through, having done only what [LC] allows and
    leaving an entity that satisfies [Q], or returns [r] having done [l] with
    [QR l r]. *)
Definition spec {E R A : Type}
    (LC : list (Effect E) -> Prop) (QR : list (Effect E) -> R -> Prop)
    (P : E -> Prop) (c : M E R A) (Q : A -> E -> Prop) : Prop :=
  forall st, P (object st) ->
    match c st with
    | (l, st', Continue a) => LC l /\ Q a (object st')
    | (l, st', Return r) => QR l r
    end.

Definition fspec {E R : Type} (QR : list (Effect E) -> R -> Prop)
    (P : E -> Prop) (f : Func E R) : Prop :=
  forall st, P (object st) -> QR (fst (fst (f st))) (snd (f st)).

(** [b] is [a], or [a] promoted from pending to progressing. *)
Definition stepped (a b : common.KeptnState) : Prop :=
  b = a \/ (a = common.StatePending /\ b = common.StateProgressing).

(** The status of a workload instance on its way through the phase
    sequence, against the status [s] it started from: nothing has moved but
    phase statuses promoted from pending to progressing, and the
    post-deployment evaluation status has not moved at all. *)
Definition wli_walked (s o : WorkloadInstance.KeptnWorkloadInstanceStatus) : Prop :=
  stepped (WorkloadInstance.PreDeploymentStatus s) (WorkloadInstance.PreDeploymentStatus o)
  /\ stepped (WorkloadInstance.PreDeploymentEvaluationStatus s)
       (WorkloadInstance.PreDeploymentEvaluationStatus o)
  /\ stepped (WorkloadInstance.DeploymentStatus s) (WorkloadInstance.DeploymentStatus o)
  /\ stepped (WorkloadInstance.PostDeploymentStatus s) (WorkloadInstance.PostDeploymentStatus o)
  /\ WorkloadInstance.PostDeploymentEvaluationStatus o
     = WorkloadInstance.PostDeploymentEvaluationStatus s
  /\ WorkloadInstance.CurrentPhase o = WorkloadInstance.CurrentPhase s
  /\ WorkloadInstance.OverallStatus o = WorkloadInstance.OverallStatus s
  /\ WorkloadInstance.StartTime o = WorkloadInstance.StartTime s
  /\ WorkloadInstance.EndTime o = WorkloadInstance.EndTime s.

(** What a reconcile of a workload instance may have done when it returns
    [d]: no callback at all, or the one callback of the first unfinished
    phase, whose answer decides [d]; [w0] is the instance after the start
    time was stamped and [post] the short name of the last phase. *)
Definition wli_walk (w0 : WorkloadInstance.KeptnWorkloadInstance) (post : string)
    (l : list (Effect WorkloadInstance.KeptnWorkloadInstance)) (d : Directive) : Prop :=
  callbacks l = []
  \/ exists c w answer,
       callbacks l = [(c, w, answer)]
       /\ firstUnfinished wli_sequence w = Some c
       /\ d = driverDirective answer
       /\ (c = CallPrePostEvaluation common.PostDeploymentEvaluationCheckType ->
           WorkloadInstance.Status w
           = WorkloadInstance.Status (WorkloadInstance.setCurrentPhase post w0)).

(** Nothing in [l] is a call of a phase callback. *)
Definition no_callback {E : Type} (l : list (Effect E)) : Prop := callbacks l = [].

(** [o] is on its way from [w0], in the sense of [wli_walked]. *)
Definition wli_on_walk (w0 o : WorkloadInstance.KeptnWorkloadInstance) : Prop :=
  wli_walked (WorkloadInstance.Status w0) (WorkloadInstance.Status o).

(** No event in [l] announces a start. *)
Definition noStart {E : Type} (l : list (Effect E)) : Prop :=
  Forall (fun pr => snd pr <> "Started") (events l).

Definition app_quiet (l : list (Effect AppVersion.KeptnAppVersion)) : Prop :=
  noStart l /\ callbacks l = [].

(** What the phase sequence of an application version may have done when
    it returns [d]: it announced no start, and it called no callback or the
    one callback of the first unfinished phase, whose answer decides [d]. *)
Definition app_walk (l : list (Effect AppVersion.KeptnAppVersion)) (d : Directive) : Prop :=
  noStart l
  /\ (callbacks l = []
      \/ exists c w answer,
           callbacks l = [(c, w, answer)]
           /\ firstUnfinished app_sequence w = Some c
           /\ d = driverDirective answer).

(** The accessor each reconciler passes to the driver as [phaseFailed],
    by the callback of the phase. *)
Definition wli_failed_of (c : PhaseCall)
  : WorkloadInstance.KeptnWorkloadInstance -> bool :=
  match c with
  | CallPrePostDeployment common.PreDeploymentCheckType =>
      WorkloadInstance.IsPreDeploymentFailed
  | CallPrePostEvaluation common.PreDeploymentEvaluationCheckType =>
      WorkloadInstance.IsPreDeploymentEvaluationFailed
  | CallDeployment => WorkloadInstance.IsDeploymentFailed
  | CallPrePostDeployment common.PostDeploymentCheckType =>
      WorkloadInstance.IsPostDeploymentFailed
  | CallPrePostEvaluation common.PostDeploymentEvaluationCheckType =>
      WorkloadInstance.IsPostDeploymentEvaluationFailed
  | _ => fun _ => false
  end.

Definition app_failed_of (c : PhaseCall) : AppVersion.KeptnAppVersion -> bool :=
  match c with
  | CallPrePostDeployment common.PreDeploymentCheckType =>
      AppVersion.IsPreDeploymentFailed
  | CallPrePostEvaluation common.PreDeploymentEvaluationCheckType =>
      AppVersion.IsPreDeploymentEvaluationFailed
  | CallWorkloads => AppVersion.AreWorkloadsFailed
  | CallPrePostDeployment common.PostDeploymentCheckType =>
      AppVersion.IsPostDeploymentFailed
  | CallPrePostEvaluation common.PostDeploymentEvaluationCheckType =>
      AppVersion.IsPostDeploymentEvaluationFailed
  | _ => fun _ => false
  end.

(** The phase sequence of an application version with the tests its
    reconciler makes: the last phase passes when it is completed, succeeded
    or failed. *)
Definition app_tested_sequence
  : list (PhaseCall * (AppVersion.KeptnAppVersion -> bool)) :=
  [ (CallPrePostDeployment common.PreDeploymentCheckType,
     AppVersion.IsPreDeploymentSucceeded);
    (CallPrePostEvaluation common.PreDeploymentEvaluationCheckType,
     AppVersion.IsPreDeploymentEvaluationSucceeded);
    (CallWorkloads, AppVersion.AreWorkloadsSucceeded);
    (CallPrePostDeployment common.PostDeploymentCheckType,
     AppVersion.IsPostDeploymentSucceeded);
    (CallPrePostEvaluation common.PostDeploymentEvaluationCheckType,
     AppVersion.IsPostDeploymentEvaluationCompleted) ].

(** What a reconcile that reaches the phase of callback [c] does: with the
    phase failed ([failed]), the short-circuit; otherwise that one callback,
    whose answer decides the directive. *)
Definition runs {E : Type} (c : PhaseCall) (failed : bool)
    (l : list (Effect E)) (d : Directive) : Prop :=
  if failed then
    callbacks l = []
    /\ d = ({| ctrl.Requeue := true; ctrl.RequeueAfter := 60 * time.Second |}, None)
  else
    exists o answer, callbacks l = [(c, o, answer)] /\ d = driverDirective answer.

(** *** Predicates the reconcilers keep

    [wli_kept now I]: each mutation the workload-instance reconciler makes
    on its own, once the start time is stamped, keeps [I];
    [wli_callbacks_keep env I]: so do the callbacks. *)
Record wli_kept (now : Z) (I : WorkloadInstance.KeptnWorkloadInstance -> Prop) : Prop := {
  wli_kept_setTraceId :
    forall t o, I o -> I (WorkloadInstance.setTraceId t o);
  wli_kept_promote_pre :
    forall o, I o ->
      WorkloadInstance.PreDeploymentStatus (WorkloadInstance.Status o) = common.StatePending ->
      I (WorkloadInstance.setPreDeploymentStatus common.StateProgressing o);
  wli_kept_promote_preEval :
    forall o, I o ->
      WorkloadInstance.PreDeploymentEvaluationStatus (WorkloadInstance.Status o)
      = common.StatePending ->
      I (WorkloadInstance.setPreDeploymentEvaluationStatus common.StateProgressing o);
  wli_kept_promote_deployment :
    forall o, I o ->
      WorkloadInstance.DeploymentStatus (WorkloadInstance.Status o) = common.StatePending ->
      I (WorkloadInstance.setDeploymentStatus common.StateProgressing o);
  wli_kept_promote_post :
    forall o, I o ->
      WorkloadInstance.PostDeploymentStatus (WorkloadInstance.Status o) = common.StatePending ->
      I (WorkloadInstance.setPostDeploymentStatus common.StateProgressing o);
  wli_kept_setCurrentPhase :
    forall p o, I o -> I (WorkloadInstance.setCurrentPhase p o);
  wli_kept_failed :
    forall o, I o ->
      I (WorkloadInstance.SetEndTime now
           (WorkloadInstance.setOverallStatus common.StateFailed o));
  wli_kept_progressing :
    forall o, I o -> I (WorkloadInstance.setOverallStatus common.StateProgressing o);
  wli_kept_completed :
    forall o, I o -> WorkloadInstance.IsEndTimeSet o = false ->
      I (WorkloadInstance.SetEndTime now
           (WorkloadInstance.setOverallStatus common.StateSucceeded o))
}.

Definition wli_callbacks_keep (env : keptnworkloadinstance.Env)
    (I : WorkloadInstance.KeptnWorkloadInstance -> Prop) : Prop :=
  (forall c o, I o -> I (fst (keptnworkloadinstance.reconcilePrePostDeployment env c o)))
  /\ (forall c o, I o -> I (fst (keptnworkloadinstance.reconcilePrePostEvaluation env c o)))
  /\ (forall o, I o -> I (fst (keptnworkloadinstance.reconcileDeployment env o))).

Record app_kept (now : Z) (I : AppVersion.KeptnAppVersion -> Prop) : Prop := {
  app_kept_setCurrentPhase :
    forall p o, I o -> I (AppVersion.setCurrentPhase p o);
  app_kept_SetEndTime :
    forall o, I o -> I (AppVersion.SetEndTime now o);
  app_kept_succeeded :
    forall o, I o -> I (AppVersion.setOverallStatus common.StateSucceeded o);
  app_kept_progressing :
    forall o, I o -> I (AppVersion.setOverallStatus common.StateProgressing o);
  app_kept_failed :
    forall o, I o ->
      I (AppVersion.setOverallStatus common.StateFailed (AppVersion.SetEndTime now o))
}.

Definition app_callbacks_keep (env : keptnappversion.Env)
    (I : AppVersion.KeptnAppVersion -> Prop) : Prop :=
  (forall c o, I o -> I (fst (keptnappversion.reconcilePrePostDeployment env c o)))
  /\ (forall c o, I o -> I (fst (keptnappversion.reconcilePrePostEvaluation env c o)))
  /\ (forall o, I o -> I (fst (keptnappversion.reconcileWorkloads env o))).

(** Everything written in [l] satisfies [I]. *)
Definition writes {E : Type} (I : E -> Prop) (l : list (Effect E)) : Prop :=
  Forall I (written l).

(** [a] is an application version that matches the workload instance [w]:
    it has the application's name and lists the workload at its version
    (§4.3). *)
Definition wli_matches (w : WorkloadInstance.KeptnWorkloadInstance)
    (a : AppVersion.KeptnAppVersion) : bool :=
  String.eqb (AppVersion.AppName (AppVersion.Spec a))
    (WorkloadInstance.AppName (WorkloadInstance.Spec w))
  && existsb (fun appWorkload =>
       String.eqb (WorkloadRef.Version appWorkload)
         (WorkloadInstance.Version (WorkloadInstance.Spec w))
       && String.eqb (AppVersion.AppName (AppVersion.Spec a) ++ "-"
                      ++ WorkloadRef.Name appWorkload)
            (WorkloadInstance.WorkloadName (WorkloadInstance.Spec w)))
       (AppVersion.Workloads (AppVersion.Spec a)).

(** The application versions of the instance's namespace, as the store
    lists them. *)
Definition wli_candidates (env : keptnworkloadinstance.Env)
    (w : WorkloadInstance.KeptnWorkloadInstance) : list AppVersion.KeptnAppVersion :=
  List.filter (fun a => String.eqb (AppVersion.Namespace a) (WorkloadInstance.Namespace w))
    (keptnworkloadinstance.appVersions env).

(** *** The properties of §8 as the specification words them *)

(** The reconcile ran to its end: no requeue, no error. *)
Definition finished (d : Directive) : bool :=
  negb (ctrl.Requeue (fst d)) && match snd d with None => true | Some _ => false end.

(** Idempotence: reconciling an entity whose overall status is terminal and
    whose phases all report succeeded mutates no status and emits no metric
    sample. *)
Definition wli_idempotent (phases : common.Phases) (env : keptnworkloadinstance.Env)
    (r : Reconciler) (req : types.NamespacedName)
    (w : WorkloadInstance.KeptnWorkloadInstance) : Prop :=
  keptnworkloadinstance.Get env req = Found w ->
  common.IsCompleted (WorkloadInstance.OverallStatus (WorkloadInstance.Status w)) = true ->
  firstUnfinished wli_sequence w = None ->
  let l := fst (fst (keptnworkloadinstance.Reconcile phases env r req)) in
  writes (fun o => WorkloadInstance.Status o = WorkloadInstance.Status w) l
  /\ metrics l = [].

Definition app_idempotent (phases : common.Phases) (env : keptnappversion.Env)
    (r : Reconciler) (req : types.NamespacedName)
    (v : AppVersion.KeptnAppVersion) : Prop :=
  keptnappversion.Get env req = Found v ->
  common.IsCompleted (AppVersion.OverallStatus (AppVersion.Status v)) = true ->
  firstUnfinished app_sequence v = None ->
  let l := fst (fst (keptnappversion.Reconcile phases env r req)) in
  writes (fun o => AppVersion.Status o = AppVersion.Status v) l
  /\ metrics l = [].

(** The end-time invariant: [EndTime] is set exactly when the overall
    status is terminal. *)
Definition wli_ended_iff_terminal (o : WorkloadInstance.KeptnWorkloadInstance) : Prop :=
  WorkloadInstance.IsEndTimeSet o
  = common.IsCompleted (WorkloadInstance.OverallStatus (WorkloadInstance.Status o)).

Definition app_ended_iff_terminal (o : AppVersion.KeptnAppVersion) : Prop :=
  AppVersion.IsEndTimeSet o
  = common.IsCompleted (AppVersion.OverallStatus (AppVersion.Status o)).

Definition app_keeps_ended_iff_terminal (phases : common.Phases)
    (env : keptnappversion.Env) (r : Reconciler) (req : types.NamespacedName)
    (v : AppVersion.KeptnAppVersion) : Prop :=
  keptnappversion.Get env req = Found v ->
  app_ended_iff_terminal v ->
  writes app_ended_iff_terminal (fst (fst (keptnappversion.Reconcile phases env r req))).

(** The two halves the reconcilers do keep. *)
Definition wli_terminal_is_ended (o : WorkloadInstance.KeptnWorkloadInstance) : Prop :=
  common.IsCompleted (WorkloadInstance.OverallStatus (WorkloadInstance.Status o)) = true ->
  WorkloadInstance.IsEndTimeSet o = true.

Definition app_failed_is_ended (o : AppVersion.KeptnAppVersion) : Prop :=
  AppVersion.OverallStatus (AppVersion.Status o) = common.StateFailed ->
  AppVersion.IsEndTimeSet o = true.

(** The start announcement: a reconcile emits a "Started" event exactly
    when the entity's own [CurrentPhase] is empty. *)
Definition announces {E : Type} (l : list (Effect E)) : Prop :=
  exists p, In (p, "Started") (events l).

Definition wli_starts_when_new (phases : common.Phases) (env : keptnworkloadinstance.Env)
    (r : Reconciler) (req : types.NamespacedName)
    (w : WorkloadInstance.KeptnWorkloadInstance) : Prop :=
  keptnworkloadinstance.Get env req = Found w ->
  (WorkloadInstance.CurrentPhase (WorkloadInstance.Status w) = ""
   <-> announces (fst (fst (keptnworkloadinstance.Reconcile phases env r req)))).

(** *** Further vocabulary *)

(** The canonical text of a UUID, as [uuid.UUID.String] prints it: 36
    bytes, lower-case hexadecimal digits in five groups of 8, 4, 4, 4 and
    12, with a hyphen between the groups. *)
Definition isHexDigit (c : ascii) : bool :=
  (Ascii.leb "0" c && Ascii.leb c "9" || Ascii.leb "a" c && Ascii.leb c "f")%char.

Definition uuid_shaped (s : string) : bool :=
  Nat.eqb (String.length s) 36
  && forallb (fun ic : nat * ascii =>
       if existsb (Nat.eqb (fst ic)) [8; 13; 18; 23]%nat
       then Ascii.eqb (snd ic) "-"
       else isHexDigit (snd ic))
       (combine (seq 0 36) (list_ascii_of_string s)).

(** A workload instance and an application version by their parts. *)
Definition wli_of (ns name app workload version prev : string)
    (trace : list (string * string)) (status : WorkloadInstance.KeptnWorkloadInstanceStatus)
  : WorkloadInstance.KeptnWorkloadInstance :=
  {| WorkloadInstance.Namespace := ns; WorkloadInstance.Name := name;
     WorkloadInstance.Spec :=
       {| WorkloadInstance.AppName := app; WorkloadInstance.WorkloadName := workload;
          WorkloadInstance.Version := version; WorkloadInstance.PreviousVersion := prev;
          WorkloadInstance.TraceId := trace |};
     WorkloadInstance.Status := status |}.

(** The state of a reconciler that holds the entity [o]. *)
Definition holding {E : Type} (o : E) (r : Reconciler) (n : nat) : State E :=
  {| object := o; reconciler := r; updateSeq := n |}.

Definition app_of (ns name app version prev : string)
    (workloads : list WorkloadRef.KeptnWorkloadRef) (trace : list (string * string))
    (status : AppVersion.KeptnAppVersionStatus) : AppVersion.KeptnAppVersion :=
  {| AppVersion.Namespace := ns; AppVersion.Name := name;
     AppVersion.Spec :=
       {| AppVersion.AppName := app; AppVersion.Version := version;
          AppVersion.PreviousVersion := prev; AppVersion.Workloads := workloads;
          AppVersion.TraceId := trace |};
     AppVersion.Status := status |}.

(** The answer of a callback carries no error. *)
Definition no_error {X : Type} (answer : X * option error) : bool :=
  match snd answer with None => true | Some _ => false end.

(** What a reconcile may come back with, and the metrics it may have
    emitted by then.  Without error it is done (no requeue; the counter and
    the duration, or nothing) or waits for one of [waits] seconds (nothing,
    or the counter alone before a 5-second wait); with an error it has
    emitted no metric and asks for no requeue or for one after one of
    [error_waits] seconds. *)
Definition outcome {E : Type} (waits error_waits : list Z)
    (l : list (Effect E)) (d : Directive) : Prop :=
  match snd d with
  | None =>
      if ctrl.Requeue (fst d) then
        In (ctrl.RequeueAfter (fst d)) (map (fun n => n * time.Second) waits)
        /\ (metrics l = []
            \/ ctrl.RequeueAfter (fst d) = 5 * time.Second /\ metrics l = [CounterAdd 1])
      else
        ctrl.RequeueAfter (fst d) = 0
        /\ (metrics l = [] \/ exists t, metrics l = [CounterAdd 1; DurationRecord t])
  | Some _ =>
      metrics l = []
      /\ (if ctrl.Requeue (fst d)
          then In (ctrl.RequeueAfter (fst d)) (map (fun n => n * time.Second) error_waits)
          else ctrl.RequeueAfter (fst d) = 0)
  end.

(** Nothing in [l] is a metric. *)
Definition no_metric {E : Type} (l : list (Effect E)) : Prop := metrics l = [].

(** The application versions the resolver chooses among: those of the
    namespace that match the instance, in the order of the store. *)
Definition wli_hits (env : keptnworkloadinstance.Env)
    (w : WorkloadInstance.KeptnWorkloadInstance) : list AppVersion.KeptnAppVersion :=
  List.filter (wli_matches w) (wli_candidates env w).

(** The resolver's choice between the version it holds and one that
    matches: it takes the new one when it holds none yet (an empty version)
    or when [semver.Compare] puts the one it holds below the new one. *)
Definition pick (latestVersion app : AppVersion.KeptnAppVersion)
  : AppVersion.KeptnAppVersion :=
  if String.eqb (AppVersion.Version (AppVersion.Spec latestVersion)) "" then app
  else if semver.Compare (AppVersion.Version (AppVersion.Spec latestVersion))
            (AppVersion.Version (AppVersion.Spec app)) <? 0
  then app
  else latestVersion.

(** The application version carries a version. *)
Definition versioned (a : AppVersion.KeptnAppVersion) : bool :=
  negb (String.eqb (AppVersion.Version (AppVersion.Spec a)) "").


(** *** The order of [semver.Compare] *)

(** A comparator [c] with results -1, 0 and 1 orders the values of [D]:
    it answers 0 exactly on equal values, swapping the arguments negates
    the answer, and "below" is transitive. *)
Definition is_order {X : Type} (D : X -> Prop) (c : X -> X -> Z) : Prop :=
  (forall x y, D x -> D y -> (c x y = 0 <-> x = y))
  /\ (forall x y, D x -> D y -> c x y = -1 \/ c x y = 0 \/ c x y = 1)
  /\ (forall x y, D x -> D y -> c y x = - c x y)
  /\ (forall x y z, D x -> D y -> D z -> c x y = -1 -> c y z = -1 -> c x z = -1).

(** The first component decides unless it answers 0, as the chain of
    [if c != 0 { return c }] in [Compare] does. *)
Definition lex {X Y : Type} (c : X -> X -> Z) (d : Y -> Y -> Z) (p q : X * Y) : Z :=
  if negb (c (fst p) (fst q) =? 0) then c (fst p) (fst q) else d (snd p) (snd q).

Definition both {X Y : Type} (D1 : X -> Prop) (D2 : Y -> Prop) (p : X * Y) : Prop :=
  D1 (fst p) /\ D2 (snd p).

(** What one round of the loop of [comparePrerelease] does with the two
    identifiers [dx] and [dy] it has cut off: numeric below non-numeric,
    the shorter numeric one below the longer, bytes otherwise. *)
Definition cmpIdent (dx dy : string) : Z :=
  if String.eqb dx dy then 0
  else
    let ix := semver.isNum dx in
    let iy := semver.isNum dy in
    if negb (Bool.eqb ix iy) then (if ix then -1 else 1)
    else if ix && Nat.ltb (String.length dx) (String.length dy) then -1
    else if ix && Nat.ltb (String.length dy) (String.length dx) then 1
    else if String.ltb dx dy then -1 else 1.

(** The two strings start with the same byte, when neither is empty. *)
Definition sameHead (x y : string) : Prop :=
  match x, y with
  | String a _, String b _ => a = b
  | _, _ => True
  end.

(** The loop of [comparePrerelease] with the rounds its first argument
    can need. *)
Definition ploop (x y : string) : Z :=
  semver.comparePrereleaseLoop (String.length x) x y.

(** The pre-release part of a parsed version: empty, or with its hyphen. *)
Definition prerelease_shaped (p : string) : Prop :=
  p = "" \/ semver.startsWith "-" p = true.

(** The fields [Compare] looks at, in the order it looks at them. *)
Definition versionKey (p : semver.parsed) : string * (string * (string * string)) :=
  (semver.major p, (semver.minor p, (semver.patch p, semver.prerelease p))).

Definition compareKeys
  : string * (string * (string * string)) -> string * (string * (string * string)) -> Z :=
  lex semver.compareInt (lex semver.compareInt (lex semver.compareInt semver.comparePrerelease)).

Definition key_shaped : string * (string * (string * string)) -> Prop :=
  both (fun _ => True) (both (fun _ => True) (both (fun _ => True) prerelease_shaped)).

(** *** Status writes the store refuses *)

(** What the store answered to the status writes of [l], in order. *)
Definition aWriteAnswer {E : Type} (e : Effect E) : list (option error) :=
  match e with StatusUpdate _ err => [err] | _ => [] end.

Definition write_answers {E : Type} (l : list (Effect E)) : list (option error) :=
  observe aWriteAnswer l.

(** The refusal the answers end with: [Some None] when the store accepted
    every write, [Some (Some e)] when it refused the last one with [e] and
    accepted those before, [None] when a write follows a refused one. *)
Fixpoint refusal (answers : list (option error)) : option (option error) :=
  match answers with
  | [] => Some None
  | None :: rest => refusal rest
  | Some e :: [] => Some (Some e)
  | Some _ :: _ :: _ => None
  end.

(** No phase callback ran and the store accepted every write. *)
Definition undisturbed {E : Type} (l : list (Effect E)) : Prop :=
  callbacks l = [] /\ Forall (eq None) (write_answers l).

(** What a reconcile does with a refused write: nothing is written after
    it; the error is returned when no phase callback ran, and dropped for
    the 5-second requeue when one did. *)
Definition refusal_handled {E : Type} (l : list (Effect E)) (d : Directive) : Prop :=
  match refusal (write_answers l) with
  | None => False
  | Some None => True
  | Some (Some e) =>
      match callbacks l with
      | [] => snd d = Some e
      | _ :: _ => d = ({| ctrl.Requeue := true; ctrl.RequeueAfter := 5 * time.Second |}, None)
      end
  end.

(** The environment [env] with a store that refuses every status write
    with [e]. *)
Definition wli_refusing (env : keptnworkloadinstance.Env) (e : error)
  : keptnworkloadinstance.Env :=
  {| keptnworkloadinstance.now := keptnworkloadinstance.now env;
     keptnworkloadinstance.Get := keptnworkloadinstance.Get env;
     keptnworkloadinstance.appVersions := keptnworkloadinstance.appVersions env;
     keptnworkloadinstance.listErr := keptnworkloadinstance.listErr env;
     keptnworkloadinstance.store_answer := fun _ => Some e;
     keptnworkloadinstance.reconcilePrePostDeployment :=
       keptnworkloadinstance.reconcilePrePostDeployment env;
     keptnworkloadinstance.reconcilePrePostEvaluation :=
       keptnworkloadinstance.reconcilePrePostEvaluation env;
     keptnworkloadinstance.reconcileDeployment :=
       keptnworkloadinstance.reconcileDeployment env |}.

Definition app_refusing (env : keptnappversion.Env) (e : error) : keptnappversion.Env :=
  {| keptnappversion.now := keptnappversion.now env;
     keptnappversion.Get := keptnappversion.Get env;
     keptnappversion.store_answer := fun _ => Some e;
     keptnappversion.reconcilePrePostDeployment :=
       keptnappversion.reconcilePrePostDeployment env;
     keptnappversion.reconcilePrePostEvaluation :=
       keptnappversion.reconcilePrePostEvaluation env;
     keptnappversion.reconcileWorkloads := keptnappversion.reconcileWorkloads env |}.

(** How many events with the short reason [reason] were recorded in [l]. *)
Definition recorded {E : Type} (reason : string) (l : list (Effect E)) : nat :=
  length (List.filter (fun ev => String.eqb (snd ev) reason) (events l)).
(** ** Tactics *)

Create HintDb keptn.

Ltac unfold_engine :=
  cbv [body bind ret returnWith call emit getObject setObject modify tracerStart
       getSpanFor unbind statusUpdate callback].

(** Case analysis on whatever test the goal is stuck on. *)
Ltac crunch :=
  repeat (cbn;
    match goal with
    | |- context [if ?b then _ else _] => destruct b eqn:?
    | |- context [match ?x with Some _ => _ | None => _ end] => destruct x eqn:?
    end); cbn.

(** The same, with the setters of the two entities kept folded. *)
Ltac cbn_folded :=
  cbn -[WorkloadInstance.setCurrentPhase WorkloadInstance.setOverallStatus
        WorkloadInstance.SetEndTime WorkloadInstance.SetStartTime
        WorkloadInstance.setTraceId WorkloadInstance.setPreDeploymentStatus
        WorkloadInstance.setPreDeploymentEvaluationStatus
        WorkloadInstance.setDeploymentStatus WorkloadInstance.setPostDeploymentStatus
        AppVersion.setCurrentPhase AppVersion.setOverallStatus
        AppVersion.SetEndTime AppVersion.SetStartTime].

Ltac crunch_keep :=
  repeat (cbn_folded;
    match goal with
    | |- context [if ?b then _ else _] => destruct b eqn:?
    | |- context [match ?x with Some _ => _ | None => _ end] => destruct x eqn:?
    end);
  cbn_folded.

(** From [KeptnState_eqb a b = true] and [IsSucceeded a = true] to the
    state [a] is in. *)
Ltac eqb_facts :=
  repeat match goal with
    | H : common.KeptnState_eqb ?a _ = true |- _ =>
        destruct a eqn:?; try discriminate H; clear H
    end.

Ltac succeeded_facts :=
  repeat match goal with
    | H : common.IsSucceeded ?a = true |- _ =>
        destruct a eqn:?; try discriminate H; clear H
    end.

Ltac kept :=
  unfold writes; cbn_folded;
  repeat match goal with
    | |- _ /\ _ => split
    | |- Forall _ [] => constructor
    | |- Forall _ (_ :: _) => constructor
    end;
  eqb_facts; eauto 6.

Ltac open_wli_kept HI :=
  let K := fresh "K" in
  pose proof HI as K;
  destruct K as [Ktrace Kpre KpreEval Kdep Kpost Kphase Kfailed Kprogressing Kcompleted].

Ltac open_app_kept HI :=
  let K := fresh "K" in
  pose proof HI as K;
  destruct K as [Kphase Kend Ksucceeded Kprogressing Kfailed].

(** One step of a sequence: the rule for [bind], the two closure facts of
    the logic at hand, and the lemma for the statement in front. *)
Ltac seq_with bind_rule LC_app QR_app lem :=
  eapply bind_rule; [apply LC_app | apply QR_app | eapply lem | intros ?; cbn beta].

Ltac no_start :=
  unfold noStart; cbn; repeat constructor; cbn; discriminate.

Ltac walked_side :=
  intros o; unfold wli_on_walk, wli_walked,
    WorkloadInstance.IsPreDeploymentSucceeded,
    WorkloadInstance.IsPreDeploymentEvaluationSucceeded,
    WorkloadInstance.IsDeploymentSucceeded, WorkloadInstance.IsPostDeploymentSucceeded,
    WorkloadInstance.IsPostDeploymentEvaluationSucceeded in *;
  cbn; intros;
  repeat match goal with
    | H : _ /\ _ |- _ => destruct H
    end;
  succeeded_facts.

Ltac walked_done :=
  repeat split; eauto with keptn; try congruence;
  repeat match goal with
    | H : _ = common.StateSucceeded |- _ => rewrite H
    | H : common.IsSucceeded _ = false |- _ => rewrite H
    end; try reflexivity; try discriminate.

Ltac first_unfinished :=
  unfold firstUnfinished; cbn;
  unfold WorkloadInstance.IsPreDeploymentSucceeded,
    WorkloadInstance.IsPreDeploymentEvaluationSucceeded,
    WorkloadInstance.IsDeploymentSucceeded, WorkloadInstance.IsPostDeploymentSucceeded,
    WorkloadInstance.IsPostDeploymentEvaluationSucceeded; cbn.

(** Side conditions of the walk to the first unfinished phase: the phase at
    hand is the one [Hc] names, and it has failed now if it had at the
    start. *)
Ltac headed Hc :=
  intros o; unfold wli_on_walk, wli_walked; cbn; intros;
  repeat match goal with H : _ /\ _ |- _ => destruct H end;
  repeat match goal with
    | H : stepped ?a ?b |- _ =>
        assert (common.IsSucceeded b = common.IsSucceeded a)
          by (destruct H as [->|[-> ->]]; reflexivity);
        assert (common.IsFailed b = common.IsFailed a)
          by (destruct H as [->|[-> ->]]; reflexivity);
        clear H
    end;
  unfold WorkloadInstance.IsPreDeploymentSucceeded,
    WorkloadInstance.IsPreDeploymentEvaluationSucceeded,
    WorkloadInstance.IsDeploymentSucceeded, WorkloadInstance.IsPostDeploymentSucceeded,
    WorkloadInstance.IsPostDeploymentEvaluationSucceeded,
    WorkloadInstance.IsPreDeploymentFailed,
    WorkloadInstance.IsPreDeploymentEvaluationFailed,
    WorkloadInstance.IsDeploymentFailed, WorkloadInstance.IsPostDeploymentFailed,
    WorkloadInstance.IsPostDeploymentEvaluationFailed in *;
  cbn in *;
  repeat match goal with
    | E : common.IsSucceeded ?x = common.IsSucceeded _,
      H : common.IsSucceeded ?x = true |- _ => rewrite E in H
    | E : common.IsSucceeded ?x = common.IsSucceeded _,
      H : common.IsSucceeded ?x = false |- _ => rewrite E in H
    | E : ?x = _, H : common.IsSucceeded ?x = _ |- _ => rewrite E in H
    end;
  revert Hc; unfold firstUnfinished; cbn;
  unfold WorkloadInstance.IsPreDeploymentSucceeded,
    WorkloadInstance.IsPreDeploymentEvaluationSucceeded,
    WorkloadInstance.IsDeploymentSucceeded, WorkloadInstance.IsPostDeploymentSucceeded,
    WorkloadInstance.IsPostDeploymentEvaluationSucceeded;
  repeat match goal with
    | H : common.IsSucceeded _ = true |- _ => rewrite H
    | H : common.IsSucceeded _ = false |- _ => rewrite H
    end;
  cbn; try discriminate;
  try (let Hcc := fresh in
       intros [= Hcc]; rewrite <- Hcc; split; [reflexivity|];
       cbn; unfold WorkloadInstance.IsPreDeploymentFailed,
         WorkloadInstance.IsPreDeploymentEvaluationFailed,
         WorkloadInstance.IsDeploymentFailed, WorkloadInstance.IsPostDeploymentFailed,
         WorkloadInstance.IsPostDeploymentEvaluationFailed; congruence).

(** The same for an application version, which does not move before its
    phase is driven. *)
Ltac heading Hc :=
  intros o; cbn; intros;
  repeat match goal with H : _ /\ _ |- _ => destruct H end;
  subst o; revert Hc; unfold firstUnfinished; cbn;
  repeat match goal with
    | H : _ = true |- _ => rewrite H
    | H : _ = false |- _ => rewrite H
    end;
  cbn; try discriminate;
  try (let Hcc := fresh in
       intros [= Hcc]; rewrite <- Hcc; split; reflexivity).

Ltac app_side :=
  intros o; unfold
    AppVersion.IsPreDeploymentSucceeded, AppVersion.IsPreDeploymentEvaluationSucceeded,
    AppVersion.AreWorkloadsSucceeded, AppVersion.IsPostDeploymentSucceeded,
    AppVersion.IsPostDeploymentEvaluationCompleted in *;
  cbn; intros;
  repeat match goal with
    | H : _ /\ _ |- _ => destruct H
    end;
  unfold firstUnfinished; cbn;
  unfold AppVersion.IsPreDeploymentSucceeded,
    AppVersion.IsPreDeploymentEvaluationSucceeded,
    AppVersion.AreWorkloadsSucceeded, AppVersion.IsPostDeploymentSucceeded,
    AppVersion.IsPostDeploymentEvaluationSucceeded; cbn;
  repeat match goal with
    | H : common.IsCompleted ?a = false |- _ =>
        destruct a eqn:?; try discriminate H; clear H
    | H : _ = true |- _ => rewrite H
    | H : _ = false |- _ => rewrite H
    end; reflexivity.

(** The driver's trace ends with the two effects the goal names: what comes
    before them is the trace without its last two effects. *)
Ltac tail2 :=
  match goal with
  | |- exists l1 s' o e, ?L = _ /\ _ =>
      exists (removelast (removelast L)); eexists _, _, _; split; [reflexivity|]
  end.

(** From a decided comparison of two strings to the fact it decides. *)
Ltac eqb_strings :=
  repeat match goal with
    | H : negb (String.eqb _ _) = true |- _ =>
        apply negb_true_iff, String.eqb_neq in H
    | H : negb (String.eqb _ _) = false |- _ =>
        apply negb_false_iff, String.eqb_eq in H
    end.

(** An outcome that can be read off the trace and the directive. *)
Ltac outcome_done :=
  unfold outcome, no_metric; cbn;
  repeat match goal with
    | |- _ /\ _ => split
    | |- True => exact Logic.I
    end;
  try reflexivity; auto 8; try (right; eexists; reflexivity).

(** A refusal that can be read off the trace and the directive. *)
Ltac refusal_done :=
  repeat match goal with
    | |- context [StatusUpdate _ ?x] =>
        lazymatch x with
        | Some _ => fail
        | None => fail
        | _ => destruct x eqn:?
        end
    end;
  unfold refusal_handled, undisturbed, write_answers, callbacks, observe; cbn;
  repeat match goal with
    | |- _ /\ _ => split
    | |- True => exact Logic.I
    end;
  try reflexivity; try congruence; repeat constructor.

(** * Properties *)

Import common.

(** ** [semver.Compare] on a few versions *)

Example semver_prefixed : semver.Compare "v1.2.0" "v1.10.0" = -1.
Proof. reflexivity. Qed.

Example semver_prerelease : semver.Compare "v1.2.0-rc.1" "v1.2.0" = -1.
Proof. reflexivity. Qed.

Example semver_prerelease_numbers : semver.Compare "v1.2.0-rc.10" "v1.2.0-rc.9+b" = 1.
Proof. reflexivity. Qed.

(** ** Reading effect lists *)

Lemma observe_app {E X} (obs : Effect E -> list X) (a b : list (Effect E)) :
  observe obs (a ++ b)%list = (observe obs a ++ observe obs b)%list.
Proof. apply flat_map_app. Qed.

Lemma callbacks_app {E} (a b : list (Effect E)) :
  callbacks (a ++ b)%list = (callbacks a ++ callbacks b)%list.
Proof. apply observe_app. Qed.

Lemma written_app {E} (a b : list (Effect E)) :
  written (a ++ b)%list = (written a ++ written b)%list.
Proof. apply observe_app. Qed.

Lemma callbacks_frame {E} n s s' (l : list (Effect E)) :
  callbacks (TracerStart n s :: l ++ [SpanEnd s'])%list = callbacks l.
Proof.
  change (callbacks (TracerStart n s :: l ++ [SpanEnd s'])%list)
    with (callbacks (l ++ [SpanEnd s'])%list).
  rewrite callbacks_app. cbn. apply app_nil_r.
Qed.

Lemma written_frame {E} n s s' (l : list (Effect E)) :
  written (TracerStart n s :: l ++ [SpanEnd s'])%list = written l.
Proof.
  change (written (TracerStart n s :: l ++ [SpanEnd s'])%list)
    with (written (l ++ [SpanEnd s'])%list).
  rewrite written_app. cbn. apply app_nil_r.
Qed.

Lemma IsSucceeded_true k : IsSucceeded k = true -> k = StateSucceeded.
Proof. destruct k; cbn; congruence. Qed.

Lemma KeptnState_eqb_eq a b : KeptnState_eqb a b = true <-> a = b.
Proof. destruct a, b; cbn; split; congruence. Qed.

(** ** The rules of the program logic *)
Section ProgramLogic.
Context {E R : Type}.
Variable LC : list (Effect E) -> Prop.
Variable QR : list (Effect E) -> R -> Prop.
Hypothesis LC_nil : LC [].
Hypothesis LC_app : forall a b, LC a -> LC b -> LC (a ++ b)%list.
Hypothesis QR_app : forall a b r, LC a -> QR b r -> QR (a ++ b)%list r.

Lemma spec_bind {A B} (P : E -> Prop) (c : M E R A) (k : A -> M E R B)
    (Q1 : A -> E -> Prop) (Q : B -> E -> Prop) :
  spec LC QR P c Q1 -> (forall a, spec LC QR (Q1 a) (k a) Q) ->
  spec LC QR P (bind c k) Q.
Proof.
  intros Hc Hk st HP. unfold bind.
  specialize (Hc st HP).
  destruct (c st) as [[l1 st1] [a|r]]; [|exact Hc].
  destruct Hc as [Hl1 HQ1].
  specialize (Hk a st1 HQ1).
  destruct (k a st1) as [[l2 st2] [b|r]].
  - destruct Hk; split; auto.
  - auto.
Qed.

Lemma spec_conseq {A} (P P' : E -> Prop) (c : M E R A) (Q Q' : A -> E -> Prop) :
  spec LC QR P' c Q' -> (forall o, P o -> P' o) -> (forall a o, Q' a o -> Q a o) ->
  spec LC QR P c Q.
Proof.
  intros Hc HP HQ st Hst. specialize (Hc st (HP _ Hst)).
  destruct (c st) as [[l st'] [a|r]]; intuition.
Qed.

Lemma spec_modify (P : E -> Prop) (f : E -> E) (Q : unit -> E -> Prop) :
  (forall o, P o -> Q tt (f o)) -> spec LC QR P (modify f) Q.
Proof. intros H st HP. cbn. auto. Qed.

Lemma spec_body (P : E -> Prop) (c : M E R R) :
  spec LC QR P c (fun _ _ => False) -> fspec QR P (body c).
Proof.
  intros Hc st HP. specialize (Hc st HP). unfold body.
  destruct (c st) as [[l st'] [a|r]]; cbn; [tauto | exact Hc].
Qed.

End ProgramLogic.

(** ** The workload-instance reconciler *)
Section WorkloadInstanceWalk.
Import WorkloadInstance keptnworkloadinstance.

Variable phases : Phases.
Variable env : Env.

Lemma resolver_SetStartTime now w :
  getAppVersionForWorkloadInstance env (SetStartTime now w)
  = getAppVersionForWorkloadInstance env w.
Proof. unfold SetStartTime. destruct (StartTime (Status w)); reflexivity. Qed.

Lemma wli_Reconcile_found r req w :
  Get env req = Found w ->
  Reconcile phases env r req =
  let '(l, st, d) :=
    reconcileFound phases env (spanSeq r)
      {| object := w;
         reconciler := {| bindCRDSpan := bindCRDSpan r; spanSeq := S (spanSeq r) |};
         updateSeq := 0 |} in
  ((TracerStart "reconcile_workload_instance" (spanSeq r) :: l ++ [SpanEnd (spanSeq r)])%list,
   reconciler st, d).
Proof.
  intros H. unfold Reconcile. rewrite H. unfold_engine. cbn.
  destruct (reconcileFound _ _ _ _) as [[l st] d]. reflexivity.
Qed.

(** The driver invokes the callback at most once, and then its answer
    decides the directive. *)
Lemma wli_handlePhase_callbacks phase span phaseFailed c f st :
  let w := setCurrentPhase (ShortName phase) (object st) in
  let '(l, st', d) := handlePhase env phase span phaseFailed (callback c f) st in
  if phaseFailed w then callbacks l = []
  else callbacks l = [(c, w, snd (f w))] /\ d = driverDirective (snd (f w)).
Proof.
  unfold handlePhase, getSpan, recordEvent, unbindSpan. unfold_engine. cbn.
  destruct (bindCRDSpan (reconciler st) !! _) eqn:Hl; cbn;
    destruct (phaseFailed _) eqn:H; cbn; auto.
  all: destruct (f _) as [o [k [e|]]] eqn:Hf; cbn; auto.
  all: unfold driverDirective; crunch; auto.
Qed.

Abbreviation LC := (@no_callback KeptnWorkloadInstance).

Lemma LC_app (a b : list (Effect KeptnWorkloadInstance)) : LC a -> LC b -> LC (a ++ b)%list.
Proof. unfold no_callback. rewrite callbacks_app. intros -> ->. reflexivity. Qed.

Lemma wli_walk_app w0 post a b d : LC a -> wli_walk w0 post b d -> wli_walk w0 post (a ++ b)%list d.
Proof. unfold no_callback, wli_walk. rewrite callbacks_app. intros ->. cbn. auto. Qed.

Variable w0 : KeptnWorkloadInstance.
Variable post : string.

Abbreviation SPEC := (spec LC (wli_walk w0 post)).

Lemma wli_appGate_walk span (P : KeptnWorkloadInstance -> Prop) :
  SPEC P (appGate phases env span) (fun _ o => P o).
Proof.
  intros st HP. unfold appGate, recordEvent. unfold_engine. cbn.
  destruct (getAppVersionForWorkloadInstance env (object st)) as [[found av] [err|]];
    cbn; [left; reflexivity|].
  unfold no_callback, wli_walk. crunch; auto.
Qed.

Lemma stepped_promote a b :
  stepped a b -> b = StatePending -> stepped a StateProgressing.
Proof. unfold stepped. intros [->|[-> ->]] H; [auto|discriminate]. Qed.

Hint Resolve stepped_promote : keptn.

Abbreviation walked := (wli_on_walk w0).

Lemma wli_updateOrReturn_walk (P : KeptnWorkloadInstance -> Prop) :
  SPEC P (updateOrReturn env) (fun _ o => P o).
Proof.
  intros st HP. unfold updateOrReturn. unfold_engine. cbn.
  unfold no_callback, wli_walk. crunch; auto.
Qed.

Lemma wli_prepare_walk av :
  SPEC walked (preparePreDeployment phases env av) (fun _ o => walked o).
Proof.
  intros st HP. unfold preparePreDeployment, updateOrReturn, unbindSpan, getSpan, recordEvent.
  unfold_engine. unfold no_callback, wli_walk, walked in *.
  crunch; auto.
  all: split; [reflexivity|].
  all: unfold wli_walked in *; cbn; intuition eauto using stepped_promote.
  all: eqb_facts; eauto using stepped_promote.
Qed.

Lemma wli_promote_walk field set (P : KeptnWorkloadInstance -> Prop) :
  (forall o, P o -> field o = StatePending -> P (set StateProgressing o)) ->
  SPEC P (promote env field set) (fun _ o => P o).
Proof.
  intros Hset st HP. unfold promote, updateOrReturn. unfold_engine.
  unfold no_callback, wli_walk. crunch; auto.
  all: eqb_facts; auto.
Qed.

Lemma wli_drive_walk succeeded phase span phaseFailed c f (P : KeptnWorkloadInstance -> Prop) :
  (forall o, P o -> succeeded o = false ->
     let w := setCurrentPhase (ShortName phase) o in
     firstUnfinished wli_sequence w = Some c
     /\ (c = CallPrePostEvaluation PostDeploymentEvaluationCheckType ->
         Status w = Status (setCurrentPhase post w0))) ->
  SPEC P (drive env succeeded phase span phaseFailed (callback c f))
    (fun _ o => P o /\ succeeded o = true).
Proof.
  intros Hw st HP. unfold drive.
  cbv [bind getObject call returnWith ret].
  destruct (succeeded (object st)) eqn:Hs; cbn; [unfold no_callback; auto|].
  pose proof (wli_handlePhase_callbacks phase span phaseFailed c f st) as Hh.
  cbv zeta in Hh.
  destruct (handlePhase _ _ _ _ _ _) as [[l st'] d]. cbn.
  rewrite app_nil_r.
  destruct (phaseFailed _); [left; assumption|].
  destruct Hh as [Hc Hd]. right.
  destruct (Hw _ HP Hs) as [H1 H2].
  eexists _, _, _. eauto.
Qed.

Lemma wli_complete_walk phase span (P : KeptnWorkloadInstance -> Prop) :
  SPEC P (complete phases env phase span) (fun _ _ => False).
Proof.
  intros st HP. unfold complete, recordEvent. unfold_engine.
  unfold wli_walk. crunch; auto.
Qed.

Lemma stepped_succeeded a : stepped a StateSucceeded -> a = StateSucceeded.
Proof. intros [H|[_ H]]; [auto|discriminate]. Qed.

Lemma wli_status_ext (s t : KeptnWorkloadInstanceStatus) :
  PreDeploymentStatus s = PreDeploymentStatus t ->
  PreDeploymentEvaluationStatus s = PreDeploymentEvaluationStatus t ->
  DeploymentStatus s = DeploymentStatus t ->
  PostDeploymentStatus s = PostDeploymentStatus t ->
  PostDeploymentEvaluationStatus s = PostDeploymentEvaluationStatus t ->
  CurrentPhase s = CurrentPhase t ->
  OverallStatus s = OverallStatus t ->
  StartTime s = StartTime t ->
  EndTime s = EndTime t ->
  s = t.
Proof. destruct s, t; cbn; intros; subst; reflexivity. Qed.

Lemma wli_phaseSequence_walk av span :
  post = ShortName (PhaseAppPostEvaluation phases) ->
  SPEC walked (phaseSequence phases env av span) (fun _ _ => False).
Proof.
  intros Hpost. unfold phaseSequence.
  seq_with @spec_bind LC_app wli_walk_app wli_prepare_walk.
  seq_with @spec_bind LC_app wli_walk_app wli_drive_walk.
  { walked_side. first_unfinished. walked_done. }
  seq_with @spec_bind LC_app wli_walk_app wli_promote_walk.
  { walked_side. walked_done. }
  seq_with @spec_bind LC_app wli_walk_app wli_drive_walk.
  { walked_side. first_unfinished. walked_done. }
  seq_with @spec_bind LC_app wli_walk_app wli_promote_walk.
  { walked_side. walked_done. }
  seq_with @spec_bind LC_app wli_walk_app wli_drive_walk.
  { walked_side. first_unfinished. walked_done. }
  seq_with @spec_bind LC_app wli_walk_app wli_promote_walk.
  { walked_side. walked_done. }
  seq_with @spec_bind LC_app wli_walk_app wli_drive_walk.
  { walked_side. first_unfinished. walked_done. }
  seq_with @spec_bind LC_app wli_walk_app wli_promote_walk.
  { walked_side. congruence. }
  seq_with @spec_bind LC_app wli_walk_app wli_drive_walk.
  { walked_side. first_unfinished. split; [walked_done|].
    intros ?. subst post.
    repeat match goal with
      | H : stepped _ StateSucceeded |- _ => apply stepped_succeeded in H
      end.
    apply wli_status_ext; cbn; congruence. }
  apply wli_complete_walk.
Qed.

Lemma wli_reconcileFound_walk span :
  post = ShortName (PhaseAppPostEvaluation phases) ->
  fspec (wli_walk w0 post) (fun o => SetStartTime (now env) o = w0)
    (reconcileFound phases env span).
Proof.
  intros Hpost. unfold reconcileFound. apply spec_body with (LC := LC).
  eapply spec_bind; [apply LC_app | apply wli_walk_app | | intros ?; cbn beta].
  { apply spec_modify with (Q := fun _ o => walked o); [reflexivity|].
    intros o Ho. cbn beta in Ho. rewrite Ho.
    unfold wli_on_walk, wli_walked, stepped. intuition. }
  eapply spec_bind; [apply LC_app | apply wli_walk_app | apply wli_appGate_walk | intros av].
  cbn beta. apply wli_phaseSequence_walk. assumption.
Qed.

End WorkloadInstanceWalk.

Lemma wli_Reconcile_walk phases env r req w :
  keptnworkloadinstance.Get env req = Found w ->
  wli_walk (WorkloadInstance.SetStartTime (keptnworkloadinstance.now env) w)
    (ShortName (PhaseAppPostEvaluation phases))
    (fst (fst (keptnworkloadinstance.Reconcile phases env r req)))
    (snd (keptnworkloadinstance.Reconcile phases env r req)).
Proof.
  intros H. rewrite (wli_Reconcile_found phases env r req w H).
  pose proof (wli_reconcileFound_walk phases env _ _ (spanSeq r) eq_refl
    {| object := w;
       reconciler := {| bindCRDSpan := bindCRDSpan r; spanSeq := S (spanSeq r) |};
       updateSeq := 0 |} eq_refl) as Hw.
  destruct (keptnworkloadinstance.reconcileFound _ _ _ _) as [[l st] d].
  cbn [fst snd] in *. unfold wli_walk in *.
  rewrite callbacks_frame. exact Hw.
Qed.

(** ** The application-version reconciler *)

Lemma events_app {E} (a b : list (Effect E)) :
  events (a ++ b)%list = (events a ++ events b)%list.
Proof. apply observe_app. Qed.

Lemma noStart_app {E} (a b : list (Effect E)) :
  noStart a -> noStart b -> noStart (a ++ b)%list.
Proof. unfold noStart. rewrite events_app. apply Forall_app_2. Qed.

Lemma noStart_nil {E} : @noStart E [].
Proof. constructor. Qed.

Lemma IsCompleted_false k : IsCompleted k = false -> IsSucceeded k = false.
Proof. destruct k; cbn; congruence. Qed.

Section AppVersionWalk.
Import AppVersion keptnappversion.

Variable phases : Phases.
Variable env : Env.

Lemma app_Reconcile_found r req v :
  Get env req = Found v ->
  Reconcile phases env r req =
  let '(l, st, d) :=
    reconcileFound phases env (spanSeq r)
      {| object := SetStartTime (now env) v;
         reconciler := {| bindCRDSpan := bindCRDSpan r; spanSeq := S (spanSeq r) |};
         updateSeq := 0 |} in
  ((TracerStart "reconcile_app_version" (spanSeq r) :: l ++ [SpanEnd (spanSeq r)])%list,
   reconciler st, d).
Proof.
  intros H. unfold Reconcile. rewrite H. unfold_engine. cbn.
  destruct (reconcileFound _ _ _ _) as [[l st] d]. reflexivity.
Qed.

Lemma app_handlePhase_callbacks phase span phaseFailed c f st :
  let w := setCurrentPhase (ShortName phase) (object st) in
  let '(l, st', d) := handlePhase env phase span phaseFailed (callback c f) st in
  noStart l
  /\ if phaseFailed w then callbacks l = []
     else callbacks l = [(c, w, snd (f w))] /\ d = driverDirective (snd (f w)).
Proof.
  unfold handlePhase, getSpan, recordEvent, unbindSpan. unfold_engine. cbn.
  destruct (bindCRDSpan (reconciler st) !! _) eqn:Hl; cbn;
    destruct (phaseFailed _) eqn:H; cbn; [split; [no_start|reflexivity]| |split; [no_start|reflexivity]|].
  all: destruct (f _) as [o [k [e|]]] eqn:Hf; cbn; [split; [no_start|auto]|].
  all: unfold driverDirective; crunch; (split; [no_start|auto]).
Qed.

Abbreviation SPEC := (spec app_quiet app_walk).

Lemma app_quiet_app a b : app_quiet a -> app_quiet b -> app_quiet (a ++ b)%list.
Proof.
  unfold app_quiet. rewrite callbacks_app. intros [? ->] [? ->].
  split; [apply noStart_app; assumption | reflexivity].
Qed.

Lemma app_walk_app a b d : app_quiet a -> app_walk b d -> app_walk (a ++ b)%list d.
Proof.
  unfold app_quiet, app_walk. rewrite callbacks_app. intros [? ->] [? ?].
  split; [apply noStart_app; assumption | assumption].
Qed.

Lemma app_drive_walk done phase span phaseFailed c f (P : KeptnAppVersion -> Prop) :
  (forall o, P o -> done o = false ->
     firstUnfinished app_sequence (setCurrentPhase (ShortName phase) o) = Some c) ->
  SPEC P (drive env done phase span phaseFailed (callback c f))
    (fun _ o => P o /\ done o = true).
Proof.
  intros Hw st HP. unfold drive.
  cbv [bind getObject call returnWith ret].
  destruct (done (object st)) eqn:Hs; cbn;
    [unfold app_quiet; auto using noStart_nil|].
  pose proof (app_handlePhase_callbacks phase span phaseFailed c f st) as Hh.
  cbv zeta in Hh.
  destruct (handlePhase _ _ _ _ _ _) as [[l st'] d]. cbn.
  rewrite app_nil_r. destruct Hh as [Hn Hh]. split; [assumption|].
  destruct (phaseFailed _); [left; assumption|].
  destruct Hh as [Hc Hd]. right.
  eexists _, _, _. eauto.
Qed.

Lemma app_complete_walk phase span (P : KeptnAppVersion -> Prop) :
  SPEC P (complete phases env phase span) (fun _ _ => False).
Proof.
  intros st HP. unfold complete, recordEvent. unfold_engine.
  unfold app_walk. crunch; (split; [no_start|auto]).
Qed.

Lemma app_phaseSequence_walk span :
  SPEC (fun _ => True) (phaseSequence phases env span) (fun _ _ => False).
Proof.
  unfold phaseSequence.
  seq_with @spec_bind app_quiet_app app_walk_app app_drive_walk. { app_side. }
  seq_with @spec_bind app_quiet_app app_walk_app app_drive_walk. { app_side. }
  seq_with @spec_bind app_quiet_app app_walk_app app_drive_walk. { app_side. }
  seq_with @spec_bind app_quiet_app app_walk_app app_drive_walk. { app_side. }
  seq_with @spec_bind app_quiet_app app_walk_app app_drive_walk. { app_side. }
  apply app_complete_walk.
Qed.

(** The announcement at the head of [reconcileFound]. *)
Lemma app_reconcileFound_split span st :
  exists la sta,
    announceStart phases st = (la, sta, Continue tt)
    /\ object sta = object st
    /\ reconcileFound phases env span st
       = (let '(l, st', d) := body (phaseSequence phases env span) sta in
          ((la ++ l)%list, st', d))
    /\ (if String.eqb (CurrentPhase (Status (object st))) "" then
          exists s,
            la = [TracerStart (ShortName (PhaseAppPreDeployment phases)) s;
                  SpanAddEvent s "App Version Pre-Deployment Tasks started";
                  RecordEvent (PhaseAppPreDeployment phases) "Normal" (object st)
                    "Started" "have started"]
        else la = []).
Proof.
  unfold reconcileFound, announceStart, unbindSpan, getSpan, recordEvent.
  unfold_engine. cbn.
  destruct (String.eqb (CurrentPhase (Status (object st))) "") eqn:Hc; cbn.
  - rewrite lookup_delete_eq. cbn.
    eexists _, _. split; [reflexivity|]. split; [reflexivity|].
    split; [|eexists; reflexivity].
    destruct (phaseSequence _ _ _ _) as [[l st'] [a|d]]; reflexivity.
  - eexists _, _. split; [reflexivity|]. split; [reflexivity|].
    split; [|reflexivity].
    destruct (phaseSequence _ _ _ _) as [[l st'] [a|d]]; reflexivity.
Qed.

End AppVersionWalk.

(** ** What the reconcilers keep *)

Lemma writes_app {E} (I : E -> Prop) (a b : list (Effect E)) :
  writes I a -> writes I b -> writes I (a ++ b)%list.
Proof. unfold writes. rewrite written_app. apply Forall_app_2. Qed.

Lemma keep_app {E} (I : E -> Prop) (a b : list (Effect E)) (d : Directive) :
  writes I a -> writes I b -> writes I (a ++ b)%list.
Proof. apply writes_app. Qed.

Section WorkloadInstanceKeeps.
Import WorkloadInstance keptnworkloadinstance.

Variable phases : Phases.
Variable env : Env.
Variable I : KeptnWorkloadInstance -> Prop.
Hypothesis HI : wli_kept (now env) I.

Abbreviation KEEP := (spec (writes I) (fun l (_ : Directive) => writes I l)).

Lemma wli_handlePhase_keeps phase span phaseFailed c f :
  (forall o, I o -> I (fst (f o))) ->
  fspec (fun l (_ : Directive) => writes I l) I
    (handlePhase env phase span phaseFailed (callback c f)).
Proof.
  intros Hf st HP. open_wli_kept HI.
  pose proof (Hf _ (Kphase (ShortName phase) _ HP)) as Ho.
  unfold handlePhase, getSpan, recordEvent, unbindSpan. unfold_engine.
  cbn -[setCurrentPhase].
  destruct (bindCRDSpan (reconciler st) !! _) eqn:Hl; cbn -[setCurrentPhase];
    destruct (phaseFailed _) eqn:H; cbn -[setCurrentPhase]; try (constructor; fail).
  all: destruct (f _) as [o [k [e|]]] eqn:Hfo; cbn -[setCurrentPhase] in *;
    try (constructor; fail).
  all: crunch_keep; kept.
Qed.

Lemma wli_appGate_keeps span :
  KEEP I (appGate phases env span) (fun _ o => I o).
Proof.
  intros st HP. unfold appGate, recordEvent. unfold_engine. cbn.
  destruct (getAppVersionForWorkloadInstance env (object st)) as [[found av] [err|]];
    cbn; [constructor|].
  crunch; kept.
Qed.

Lemma wli_prepare_keeps av :
  KEEP I (preparePreDeployment phases env av) (fun _ o => I o).
Proof.
  intros st HP. open_wli_kept HI.
  unfold preparePreDeployment, updateOrReturn, unbindSpan, getSpan, recordEvent.
  unfold_engine. crunch_keep; kept.
Qed.

Lemma wli_promote_keeps field set :
  (forall o, I o -> field o = StatePending -> I (set StateProgressing o)) ->
  KEEP I (promote env field set) (fun _ o => I o).
Proof.
  intros Hset st HP. unfold promote, updateOrReturn. unfold_engine.
  crunch; kept.
Qed.

Lemma wli_drive_keeps succeeded phase span phaseFailed c f :
  (forall o, I o -> I (fst (f o))) ->
  KEEP I (drive env succeeded phase span phaseFailed (callback c f)) (fun _ o => I o).
Proof.
  intros Hf st HP. unfold drive.
  cbv [bind getObject call returnWith ret].
  destruct (succeeded (object st)) eqn:Hs; cbn; [split; [constructor|assumption]|].
  pose proof (wli_handlePhase_keeps phase span phaseFailed c f Hf st HP) as Hh.
  destruct (handlePhase _ _ _ _ _ _) as [[l st'] d]. cbn in *.
  rewrite app_nil_r. assumption.
Qed.

Lemma wli_complete_keeps phase span :
  KEEP I (complete phases env phase span) (fun _ _ => False).
Proof.
  intros st HP. open_wli_kept HI. unfold complete, recordEvent. unfold_engine.
  crunch_keep; kept.
  all: apply Kcompleted; [apply Kphase; assumption|].
  all: match goal with H : negb _ = true |- _ => apply negb_true_iff in H; exact H end.
Qed.

Hypothesis Hcb : wli_callbacks_keep env I.

Lemma wli_phaseSequence_keeps av span :
  KEEP I (phaseSequence phases env av span) (fun _ _ => False).
Proof.
  destruct Hcb as [Hdep [Heval Hdeploy]]. open_wli_kept HI.
  unfold phaseSequence.
  seq_with @spec_bind (@writes_app _ I) (@keep_app _ I) wli_prepare_keeps.
  seq_with @spec_bind (@writes_app _ I) (@keep_app _ I) wli_drive_keeps; [apply Hdep|].
  seq_with @spec_bind (@writes_app _ I) (@keep_app _ I) wli_promote_keeps; [exact KpreEval|].
  seq_with @spec_bind (@writes_app _ I) (@keep_app _ I) wli_drive_keeps; [apply Heval|].
  seq_with @spec_bind (@writes_app _ I) (@keep_app _ I) wli_promote_keeps; [exact Kdep|].
  seq_with @spec_bind (@writes_app _ I) (@keep_app _ I) wli_drive_keeps; [apply Hdeploy|].
  seq_with @spec_bind (@writes_app _ I) (@keep_app _ I) wli_promote_keeps; [exact Kpost|].
  seq_with @spec_bind (@writes_app _ I) (@keep_app _ I) wli_drive_keeps; [apply Hdep|].
  seq_with @spec_bind (@writes_app _ I) (@keep_app _ I) wli_promote_keeps; [exact Kpost|].
  seq_with @spec_bind (@writes_app _ I) (@keep_app _ I) wli_drive_keeps; [apply Heval|].
  apply wli_complete_keeps.
Qed.

(** Whatever the reconciler and the callbacks keep holds of every status
    the reconcile writes. *)
Lemma wli_Reconcile_keeps r req w :
  Get env req = Found w -> I (SetStartTime (now env) w) ->
  writes I (fst (fst (Reconcile phases env r req))).
Proof.
  intros Hget Hw. rewrite (wli_Reconcile_found phases env r req w Hget).
  assert (fspec (fun l (_ : Directive) => writes I l)
            (fun o => I (SetStartTime (now env) o))
            (reconcileFound phases env (spanSeq r))) as Hf.
  { unfold reconcileFound. apply spec_body with (LC := writes I).
    open_wli_kept HI.
    eapply spec_bind;
      [apply writes_app | apply keep_app | | intros ?; cbn beta].
    { apply spec_modify with (Q := fun _ o => I o); [constructor | auto]. }
    eapply spec_bind;
      [apply writes_app | apply keep_app | apply wli_appGate_keeps
      | intros av; cbn beta].
    apply wli_phaseSequence_keeps. }
  specialize (Hf {| object := w;
     reconciler := {| bindCRDSpan := bindCRDSpan r; spanSeq := S (spanSeq r) |};
     updateSeq := 0 |} Hw).
  destruct (reconcileFound _ _ _ _) as [[l st] d]. cbn [fst snd] in *.
  unfold writes in *. rewrite written_frame. exact Hf.
Qed.

End WorkloadInstanceKeeps.

Section AppVersionKeeps.
Import AppVersion keptnappversion.

Variable phases : Phases.
Variable env : Env.
Variable I : KeptnAppVersion -> Prop.
Hypothesis HI : app_kept (now env) I.

Abbreviation KEEP := (spec (writes I) (fun l (_ : Directive) => writes I l)).

Lemma app_handlePhase_keeps phase span phaseFailed c f :
  (forall o, I o -> I (fst (f o))) ->
  fspec (fun l (_ : Directive) => writes I l) I
    (handlePhase env phase span phaseFailed (callback c f)).
Proof.
  intros Hf st HP. open_app_kept HI.
  pose proof (Hf _ (Kphase (ShortName phase) _ HP)) as Ho.
  unfold handlePhase, getSpan, recordEvent, unbindSpan. unfold_engine.
  cbn -[setCurrentPhase].
  destruct (bindCRDSpan (reconciler st) !! _) eqn:Hl; cbn -[setCurrentPhase];
    destruct (phaseFailed _) eqn:H; cbn -[setCurrentPhase]; try (constructor; fail).
  all: destruct (f _) as [o [k [e|]]] eqn:Hfo; cbn -[setCurrentPhase] in *;
    try (constructor; fail).
  all: crunch_keep; kept.
Qed.

Lemma app_announceStart_keeps :
  KEEP I (announceStart phases) (fun _ o => I o).
Proof.
  intros st HP. unfold announceStart, unbindSpan, getSpan, recordEvent.
  unfold_engine. crunch_keep; kept.
Qed.

Lemma app_drive_keeps done phase span phaseFailed c f :
  (forall o, I o -> I (fst (f o))) ->
  KEEP I (drive env done phase span phaseFailed (callback c f)) (fun _ o => I o).
Proof.
  intros Hf st HP. unfold drive.
  cbv [bind getObject call returnWith ret].
  destruct (done (object st)) eqn:Hs; cbn; [split; [constructor|assumption]|].
  pose proof (app_handlePhase_keeps phase span phaseFailed c f Hf st HP) as Hh.
  destruct (handlePhase _ _ _ _ _ _) as [[l st'] d]. cbn in *.
  rewrite app_nil_r. assumption.
Qed.

Lemma app_complete_keeps phase span :
  KEEP I (complete phases env phase span) (fun _ _ => False).
Proof.
  intros st HP. open_app_kept HI. unfold complete, recordEvent. unfold_engine.
  crunch_keep; kept.
Qed.

Hypothesis Hcb : app_callbacks_keep env I.

Lemma app_Reconcile_keeps r req v :
  Get env req = Found v -> I (SetStartTime (now env) v) ->
  writes I (fst (fst (Reconcile phases env r req))).
Proof.
  intros Hget Hv. rewrite (app_Reconcile_found phases env r req v Hget).
  assert (fspec (fun l (_ : Directive) => writes I l) I
            (reconcileFound phases env (spanSeq r))) as Hf.
  { unfold reconcileFound, phaseSequence. apply spec_body with (LC := writes I).
    destruct Hcb as [Hdep [Heval Hwork]].
    seq_with @spec_bind (@writes_app _ I) (@keep_app _ I) app_announceStart_keeps.
    seq_with @spec_bind (@writes_app _ I) (@keep_app _ I) app_drive_keeps; [apply Hdep|].
    seq_with @spec_bind (@writes_app _ I) (@keep_app _ I) app_drive_keeps; [apply Heval|].
    seq_with @spec_bind (@writes_app _ I) (@keep_app _ I) app_drive_keeps; [apply Hwork|].
    seq_with @spec_bind (@writes_app _ I) (@keep_app _ I) app_drive_keeps; [apply Hdep|].
    seq_with @spec_bind (@writes_app _ I) (@keep_app _ I) app_drive_keeps; [apply Heval|].
    apply app_complete_keeps. }
  specialize (Hf {| object := SetStartTime (now env) v;
     reconciler := {| bindCRDSpan := bindCRDSpan r; spanSeq := S (spanSeq r) |};
     updateSeq := 0 |} Hv).
  destruct (reconcileFound _ _ _ _) as [[l st] d]. cbn [fst snd] in *.
  unfold writes in *. rewrite written_frame. exact Hf.
Qed.

End AppVersionKeeps.

(** ** The resolver *)

Lemma parse_needs_v v : semver.startsWith "v" v = false -> semver.parse v = None.
Proof.
  destruct v as [|c v]; [reflexivity|].
  destruct c as [[] [] [] [] [] [] [] []]; cbn; try reflexivity; discriminate.
Qed.

(** Versions without the leading [v] are all the same to [semver.Compare]. *)
Lemma Compare_unprefixed v w :
  semver.startsWith "v" v = false -> semver.startsWith "v" w = false ->
  semver.Compare v w = 0.
Proof.
  intros Hv Hw. unfold semver.Compare.
  rewrite (parse_needs_v v Hv), (parse_needs_v w Hw). reflexivity.
Qed.

Example resolver_prefixed_versions :
  let w := Sample.wliFresh in
  keptnworkloadinstance.getAppVersionForWorkloadInstance
    (Sample.wliEnv w [Sample.appGo "v1.2.0"; Sample.appGo "v1.10.0"] StateProgressing) w
  = (true, Sample.appGo "v1.10.0", None)
  /\ keptnworkloadinstance.getAppVersionForWorkloadInstance
       (Sample.wliEnv w [Sample.appGo "v1.10.0"; Sample.appGo "v1.2.0"] StateProgressing) w
     = (true, Sample.appGo "v1.10.0", None).
Proof. split; vm_compute; reflexivity. Qed.

(** C1: among the matching application versions [1.2.0] and [1.10.0] the
    resolver is to select [1.10.0].  The code compares them with
    [semver.Compare], which takes both for invalid (no leading [v]) and
    answers 0, so the resolver keeps whichever the store lists first: it
    selects [1.2.0] when that one comes first, [1.10.0] when that one does. *)
Theorem C1_resolver_keeps_the_first_unprefixed_match :
  let w := Sample.wliFresh in
  semver.Compare "1.2.0" "1.10.0" = 0
  /\ keptnworkloadinstance.getAppVersionForWorkloadInstance
       (Sample.wliEnv w [Sample.appGo "1.2.0"; Sample.appGo "1.10.0"] StateProgressing) w
     = (true, Sample.appGo "1.2.0", None)
  /\ keptnworkloadinstance.getAppVersionForWorkloadInstance
       (Sample.wliEnv w [Sample.appGo "1.10.0"; Sample.appGo "1.2.0"] StateProgressing) w
     = (true, Sample.appGo "1.10.0", None).
Proof. repeat split; vm_compute; reflexivity. Qed.

(** ** The phase driver *)

(** C5: when [phaseFailed()] is true the driver emits a "Failed" event and
    returns a 60-second requeue without error; it writes no status, emits no
    metric, and what it does is the same whatever the callback is, since the
    callback is not invoked.  Both entity kinds. *)
Theorem C5_failed_phase_short_circuit :
  (forall env phase span phaseFailed reconcilePhase st,
     phaseFailed (WorkloadInstance.setCurrentPhase (ShortName phase) (object st)) = true ->
     let '(l, st', d) :=
       keptnworkloadinstance.handlePhase env phase span phaseFailed reconcilePhase st in
     d = ({| ctrl.Requeue := true; ctrl.RequeueAfter := 60 * time.Second |}, None)
     /\ events l = [(phase, "Failed")]
     /\ written l = [] /\ metrics l = [] /\ callbacks l = []
     /\ forall reconcilePhase',
          keptnworkloadinstance.handlePhase env phase span phaseFailed reconcilePhase' st
          = (l, st', d))
  /\ (forall env phase span phaseFailed reconcilePhase st,
     phaseFailed (AppVersion.setCurrentPhase (ShortName phase) (object st)) = true ->
     let '(l, st', d) :=
       keptnappversion.handlePhase env phase span phaseFailed reconcilePhase st in
     d = ({| ctrl.Requeue := true; ctrl.RequeueAfter := 60 * time.Second |}, None)
     /\ events l = [(phase, "Failed")]
     /\ written l = [] /\ metrics l = [] /\ callbacks l = []
     /\ forall reconcilePhase',
          keptnappversion.handlePhase env phase span phaseFailed reconcilePhase' st
          = (l, st', d)).
Proof.
  split; intros env phase span pf rp st H.
  - unfold keptnworkloadinstance.handlePhase, keptnworkloadinstance.getSpan,
      keptnworkloadinstance.recordEvent.
    unfold_engine. cbn.
    destruct (bindCRDSpan (reconciler st) !! _) eqn:Hl; cbn; rewrite H; cbn; auto 10.
  - unfold keptnappversion.handlePhase, keptnappversion.getSpan,
      keptnappversion.recordEvent.
    unfold_engine. cbn.
    destruct (bindCRDSpan (reconciler st) !! _) eqn:Hl; cbn; rewrite H; cbn; auto 10.
Qed.

Lemma C5_witness :
  let '(l, st', d) :=
    keptnworkloadinstance.handlePhase
      (Sample.wliEnv Sample.wliFresh [] StateSucceeded)
      (PhaseWorkloadPreDeployment Sample.phases) 0%nat
      WorkloadInstance.IsPreDeploymentFailed
      (callback (CallPrePostDeployment PreDeploymentCheckType) (Sample.answer StateSucceeded))
      Sample.wliFailedState in
  d = ({| ctrl.Requeue := true; ctrl.RequeueAfter := 60 * time.Second |}, None)
  /\ events l = [(PhaseWorkloadPreDeployment Sample.phases, "Failed")]
  /\ written l = [] /\ metrics l = [] /\ callbacks l = []
  /\ forall reconcilePhase',
      keptnworkloadinstance.handlePhase
        (Sample.wliEnv Sample.wliFresh [] StateSucceeded)
        (PhaseWorkloadPreDeployment Sample.phases) 0%nat
        WorkloadInstance.IsPreDeploymentFailed reconcilePhase' Sample.wliFailedState
      = (l, st', d).
Proof.
  exact (proj1 C5_failed_phase_short_circuit
    (Sample.wliEnv Sample.wliFresh [] StateSucceeded)
    (PhaseWorkloadPreDeployment Sample.phases) 0%nat
    WorkloadInstance.IsPreDeploymentFailed
    (callback (CallPrePostDeployment PreDeploymentCheckType) (Sample.answer StateSucceeded))
    Sample.wliFailedState eq_refl).
Defined.

(** C7: past the short-circuit, a callback error makes the driver ask for an
    immediate requeue and hand the error on; any answer without error, the
    terminal Failed included, makes it ask for a requeue after five seconds
    without error.  Both entity kinds. *)
Theorem C7_driver_directive :
  (forall env phase span phaseFailed c f st,
     let w := WorkloadInstance.setCurrentPhase (ShortName phase) (object st) in
     phaseFailed w = false ->
     snd (keptnworkloadinstance.handlePhase env phase span phaseFailed (callback c f) st)
     = match snd (snd (f w)) with
       | Some err => ({| ctrl.Requeue := true; ctrl.RequeueAfter := 0 |}, Some err)
       | None => ({| ctrl.Requeue := true; ctrl.RequeueAfter := 5 * time.Second |}, None)
       end)
  /\ (forall env phase span phaseFailed c f st,
     let w := AppVersion.setCurrentPhase (ShortName phase) (object st) in
     phaseFailed w = false ->
     snd (keptnappversion.handlePhase env phase span phaseFailed (callback c f) st)
     = match snd (snd (f w)) with
       | Some err => ({| ctrl.Requeue := true; ctrl.RequeueAfter := 0 |}, Some err)
       | None => ({| ctrl.Requeue := true; ctrl.RequeueAfter := 5 * time.Second |}, None)
       end).
Proof.
  split; intros env phase span pf c f st w H.
  - pose proof (wli_handlePhase_callbacks env phase span pf c f st) as Hh.
    cbv zeta in Hh. fold w in Hh.
    destruct (keptnworkloadinstance.handlePhase _ _ _ _ _ _) as [[l st'] d].
    rewrite H in Hh. destruct Hh as [_ ->]. reflexivity.
  - pose proof (app_handlePhase_callbacks env phase span pf c f st) as Hh.
    cbv zeta in Hh. fold w in Hh.
    destruct (keptnappversion.handlePhase _ _ _ _ _ _) as [[l st'] d].
    rewrite H in Hh. destruct Hh as [_ [_ ->]]. reflexivity.
Qed.

Lemma C7_witness :
  snd (keptnappversion.handlePhase (Sample.appEnv Sample.appFresh StateFailed)
         (PhaseAppPreDeployment Sample.phases) 0%nat AppVersion.IsPreDeploymentFailed
         (callback (CallPrePostDeployment PreDeploymentCheckType) (Sample.answer StateFailed))
         Sample.appFreshState)
  = ({| ctrl.Requeue := true; ctrl.RequeueAfter := 5 * time.Second |}, None).
Proof.
  exact (proj2 C7_driver_directive (Sample.appEnv Sample.appFresh StateFailed)
           (PhaseAppPreDeployment Sample.phases) 0%nat AppVersion.IsPreDeploymentFailed
           (CallPrePostDeployment PreDeploymentCheckType) (Sample.answer StateFailed)
           Sample.appFreshState eq_refl).
Defined.

(** ** The cross-entity gate *)

(** C6: the gate of the workload-instance reconciler.  A resolution error
    gives a 10-second requeue with the error handed on; no application
    version found gives a 10-second requeue with an error saying so; a
    failed pre-deployment evaluation of the application gives a 60-second
    requeue, one that has not succeeded yet a 20-second requeue, both
    without error; in all four cases no callback is called and nothing is
    written.  Only when that evaluation has succeeded does the reconcile go
    on with the instance's own phase sequence, and then it does just that. *)
Theorem C6_cross_entity_gate phases env r req wli :
  keptnworkloadinstance.Get env req = Found wli ->
  let '(l, r', d) := keptnworkloadinstance.Reconcile phases env r req in
  match keptnworkloadinstance.getAppVersionForWorkloadInstance env wli with
  | (_, _, Some err) =>
      d = ({| ctrl.Requeue := true; ctrl.RequeueAfter := 10 * time.Second |},
           Some (Errorf "could not fetch AppVersion for KeptnWorkloadInstance: " err))
      /\ callbacks l = [] /\ written l = []
  | (false, _, None) =>
      d = ({| ctrl.Requeue := true; ctrl.RequeueAfter := 10 * time.Second |},
           Some "could not find AppVersion for KeptnWorkloadInstance")
      /\ callbacks l = [] /\ written l = []
  | (true, appVersion, None) =>
      let appPreEvalStatus :=
        AppVersion.PreDeploymentEvaluationStatus (AppVersion.Status appVersion) in
      if IsSucceeded appPreEvalStatus then
        let '(l', st', d') :=
          body (keptnworkloadinstance.phaseSequence phases env appVersion (spanSeq r))
            {| object := WorkloadInstance.SetStartTime (keptnworkloadinstance.now env) wli;
               reconciler := {| bindCRDSpan := bindCRDSpan r; spanSeq := S (spanSeq r) |};
               updateSeq := 0 |} in
        l = (TracerStart "reconcile_workload_instance" (spanSeq r) :: l'
               ++ [SpanEnd (spanSeq r)])%list
        /\ r' = reconciler st' /\ d = d'
      else if IsFailed appPreEvalStatus then
        d = ({| ctrl.Requeue := true; ctrl.RequeueAfter := 60 * time.Second |}, None)
        /\ callbacks l = [] /\ written l = []
      else
        d = ({| ctrl.Requeue := true; ctrl.RequeueAfter := 20 * time.Second |}, None)
        /\ callbacks l = [] /\ written l = []
  end.
Proof.
  intros Hget. unfold keptnworkloadinstance.Reconcile. rewrite Hget.
  unfold keptnworkloadinstance.reconcileFound, keptnworkloadinstance.appGate,
    keptnworkloadinstance.recordEvent.
  unfold_engine. cbn.
  rewrite resolver_SetStartTime.
  destruct (keptnworkloadinstance.getAppVersionForWorkloadInstance env wli)
    as [[found av] [err|]]; [destruct found; cbn; auto|].
  destruct found; cbn; auto.
  destruct (IsSucceeded _); cbn.
  - destruct (keptnworkloadinstance.phaseSequence _ _ _ _ _) as [[l' st'] [a|d']];
      cbn; auto.
  - destruct (IsFailed _); cbn; auto.
Qed.

Lemma C6_witness :
  snd (keptnworkloadinstance.Reconcile Sample.phases
         (Sample.wliEnv Sample.wliFresh [Sample.appFailedGate] StateProgressing)
         Sample.r0 Sample.req)
  = ({| ctrl.Requeue := true; ctrl.RequeueAfter := 60 * time.Second |}, None).
Proof.
  pose proof (C6_cross_entity_gate Sample.phases
    (Sample.wliEnv Sample.wliFresh [Sample.appFailedGate] StateProgressing)
    Sample.r0 Sample.req Sample.wliFresh eq_refl) as H.
  destruct (keptnworkloadinstance.Reconcile _ _ _ _) as [[l r'] d].
  exact (proj1 H).
Defined.

(** The resolver finds nothing when no application version of the
    namespace matches the instance. *)
Lemma selectWorkload_nomatch w a ws latest :
  existsb (fun appWorkload =>
       String.eqb (WorkloadRef.Version appWorkload)
         (WorkloadInstance.Version (WorkloadInstance.Spec w))
       && String.eqb (AppVersion.AppName (AppVersion.Spec a) ++ "-"
                      ++ WorkloadRef.Name appWorkload)
            (WorkloadInstance.WorkloadName (WorkloadInstance.Spec w))) ws = false ->
  fold_left (keptnworkloadinstance.selectWorkload w a) ws latest = latest.
Proof.
  revert latest. induction ws as [|x ws IH]; intros latest H; [reflexivity|].
  cbn in H. apply orb_false_iff in H as [Hx Hws].
  cbn. unfold keptnworkloadinstance.selectWorkload at 2. rewrite Hx. auto.
Qed.

Lemma selectApp_nomatch w apps latest :
  forallb (fun a => negb (wli_matches w a)) apps = true ->
  fold_left (keptnworkloadinstance.selectApp w) apps latest = latest.
Proof.
  revert latest. induction apps as [|a apps IH]; intros latest H; [reflexivity|].
  cbn in H. apply andb_true_iff in H as [Ha Happs].
  cbn. rewrite IH by assumption.
  unfold keptnworkloadinstance.selectApp.
  destruct (String.eqb _ _) eqn:Hn; [|reflexivity].
  apply selectWorkload_nomatch.
  unfold wli_matches in Ha. rewrite Hn in Ha. cbn in Ha.
  apply negb_true_iff in Ha. exact Ha.
Qed.

Lemma resolver_finds_nothing env w :
  keptnworkloadinstance.listErr env = None ->
  forallb (fun a => negb (wli_matches w a))
    (wli_candidates env w) = true ->
  keptnworkloadinstance.getAppVersionForWorkloadInstance env w
  = (false, AppVersion.zero, None).
Proof.
  intros He Hn. unfold keptnworkloadinstance.getAppVersionForWorkloadInstance,
    keptnworkloadinstance.List.
  rewrite He. cbv zeta. rewrite selectApp_nomatch by assumption. reflexivity.
Qed.

(** C10: the gate comes before every check of the instance's own status.
    Whatever state the fetched instance is in, terminal or not, when no
    application version of its namespace matches it the reconcile records
    the absence and returns a 10-second requeue with an error; it calls no
    callback and writes nothing. *)
Theorem C10_gate_runs_before_own_status phases env r req w :
  keptnworkloadinstance.Get env req = Found w ->
  keptnworkloadinstance.listErr env = None ->
  forallb (fun a => negb (wli_matches w a))
    (wli_candidates env w) = true ->
  keptnworkloadinstance.Reconcile phases env r req
  = ([ TracerStart "reconcile_workload_instance" (spanSeq r);
       SpanSetStatus (spanSeq r) CodeError "app could not be found";
       RecordEvent (PhaseAppPreEvaluation phases) "Warning"
         (WorkloadInstance.SetStartTime (keptnworkloadinstance.now env) w)
         "AppVersionNotFound" "has failed since app could not be found";
       SpanEnd (spanSeq r) ],
     {| bindCRDSpan := bindCRDSpan r; spanSeq := S (spanSeq r) |},
     ({| ctrl.Requeue := true; ctrl.RequeueAfter := 10 * time.Second |},
      Some "could not find AppVersion for KeptnWorkloadInstance")).
Proof.
  intros Hget He Hn. unfold keptnworkloadinstance.Reconcile. rewrite Hget.
  unfold keptnworkloadinstance.reconcileFound, keptnworkloadinstance.appGate,
    keptnworkloadinstance.recordEvent.
  unfold_engine. cbn.
  rewrite resolver_SetStartTime, (resolver_finds_nothing env w He Hn).
  reflexivity.
Qed.

Lemma C10_witness :
  snd (keptnworkloadinstance.Reconcile Sample.phases
         (Sample.wliEnv Sample.wliDone [] StateSucceeded) Sample.r0 Sample.req)
  = ({| ctrl.Requeue := true; ctrl.RequeueAfter := 10 * time.Second |},
     Some "could not find AppVersion for KeptnWorkloadInstance").
Proof.
  exact (f_equal snd (C10_gate_runs_before_own_status Sample.phases
           (Sample.wliEnv Sample.wliDone [] StateSucceeded) Sample.r0 Sample.req
           Sample.wliDone eq_refl eq_refl eq_refl)).
Defined.

(** ** One phase per call *)

Lemma app_Reconcile_walk phases env r req v :
  keptnappversion.Get env req = Found v ->
  let '(l, _, d) := keptnappversion.Reconcile phases env r req in
  callbacks l = []
  \/ exists c w answer,
       callbacks l = [(c, w, answer)]
       /\ firstUnfinished app_sequence w = Some c
       /\ d = driverDirective answer.
Proof.
  intros H. rewrite (app_Reconcile_found phases env r req v H).
  set (st := {| object := _ |}).
  destruct (app_reconcileFound_split phases env (spanSeq r) st)
    as (la & sta & Ha & Ho & -> & Hla).
  pose proof (spec_body app_quiet app_walk _ _
                (app_phaseSequence_walk phases env (spanSeq r)) sta Logic.I) as Hw.
  destruct (body _ sta) as [[l st'] d]. cbn [fst snd] in Hw.
  rewrite callbacks_frame, callbacks_app.
  replace (callbacks la) with (@nil (PhaseCall * AppVersion.KeptnAppVersion
                                     * (KeptnState * option error))).
  - exact (proj2 Hw).
  - destruct (String.eqb _ _); [destruct Hla as [s ->]|subst la]; reflexivity.
Qed.

(** ** The walk reaches the first unfinished phase *)

Lemma runs_app {E} c failed (a b : list (Effect E)) d :
  no_callback a -> runs c failed b d -> runs c failed (a ++ b)%list d.
Proof.
  unfold no_callback, runs. rewrite callbacks_app. intros ->. cbn. auto.
Qed.

Section WorkloadInstanceRuns.
Import WorkloadInstance keptnworkloadinstance.

Variable phases : Phases.
Variable env : Env.
Hypothesis Hstore : forall n, store_answer env n = None.

Variable w0 : KeptnWorkloadInstance.
Variable c : PhaseCall.
Hypothesis Hc : firstUnfinished wli_sequence w0 = Some c.

Abbreviation RUNS :=
  (spec (@no_callback KeptnWorkloadInstance) (runs c (wli_failed_of c w0))).
Abbreviation walked := (wli_on_walk w0).

Hint Resolve stepped_promote : keptn.

Lemma wli_runs_app (a b : list (Effect KeptnWorkloadInstance)) d :
  no_callback a -> runs c (wli_failed_of c w0) b d ->
  runs c (wli_failed_of c w0) (a ++ b)%list d.
Proof. apply runs_app. Qed.

Lemma wli_handlePhase_runs phase span phaseFailed f st :
  let w := setCurrentPhase (ShortName phase) (object st) in
  let '(l, st', d) := handlePhase env phase span phaseFailed (callback c f) st in
  runs c (phaseFailed w) l d.
Proof.
  unfold handlePhase, getSpan, recordEvent, unbindSpan, runs. unfold_engine. cbn.
  destruct (bindCRDSpan (reconciler st) !! _) eqn:Hl; cbn;
    destruct (phaseFailed _) eqn:H; cbn; auto.
  all: destruct (f _) as [o [k [e|]]] eqn:Hf; cbn; [eexists _, _; split; reflexivity|].
  all: unfold driverDirective; crunch; eexists _, _; split; reflexivity.
Qed.

Lemma wli_prepare_runs av :
  RUNS walked (preparePreDeployment phases env av) (fun _ o => walked o).
Proof.
  intros st HP.
  unfold preparePreDeployment, updateOrReturn, unbindSpan, getSpan, recordEvent.
  unfold_engine. unfold no_callback, walked in *.
  repeat (cbn_folded; rewrite ?Hstore;
    match goal with
    | |- context [if ?b then _ else _] => destruct b eqn:?
    | |- context [match ?x with Some _ => _ | None => _ end] => destruct x eqn:?
    end).
  all: cbn_folded; rewrite ?Hstore; cbn_folded.
  all: split; [reflexivity|].
  all: unfold wli_walked in *; cbn; intuition eauto using stepped_promote.
  all: eqb_facts; eauto using stepped_promote.
Qed.

Lemma wli_promote_runs field set (P : KeptnWorkloadInstance -> Prop) :
  (forall o, P o -> field o = StatePending -> P (set StateProgressing o)) ->
  RUNS P (promote env field set) (fun _ o => P o).
Proof.
  intros Hset st HP. unfold promote, updateOrReturn. unfold_engine.
  unfold no_callback.
  destruct (KeptnState_eqb _ _) eqn:He; cbn; rewrite ?Hstore; cbn; auto.
  split; [reflexivity|]. apply Hset; [assumption|].
  apply KeptnState_eqb_eq. assumption.
Qed.

Lemma wli_drive_runs succeeded phase span phaseFailed c' f
    (P : KeptnWorkloadInstance -> Prop) :
  (forall o, P o -> succeeded o = false ->
     c' = c /\ phaseFailed (setCurrentPhase (ShortName phase) o) = wli_failed_of c w0) ->
  RUNS P (drive env succeeded phase span phaseFailed (callback c' f))
    (fun _ o => P o /\ succeeded o = true).
Proof.
  intros Hw st HP. unfold drive.
  cbv [bind getObject call returnWith ret].
  destruct (succeeded (object st)) eqn:Hs; cbn; [unfold no_callback; auto|].
  destruct (Hw _ HP Hs) as [-> Hf].
  pose proof (wli_handlePhase_runs phase span phaseFailed f st) as Hh.
  cbv zeta in Hh. rewrite Hf in Hh.
  destruct (handlePhase _ _ _ _ _ _) as [[l st'] d]. cbn.
  rewrite app_nil_r. exact Hh.
Qed.

Lemma wli_complete_runs phase span (P : KeptnWorkloadInstance -> Prop) :
  (forall o, P o -> False) ->
  RUNS P (complete phases env phase span) (fun _ _ => False).
Proof. intros H st HP. destruct (H _ HP). Qed.

Lemma wli_phaseSequence_runs av span :
  RUNS walked (phaseSequence phases env av span) (fun _ _ => False).
Proof.
  unfold phaseSequence.
  seq_with @spec_bind (@LC_app) wli_runs_app wli_prepare_runs.
  seq_with @spec_bind (@LC_app) wli_runs_app wli_drive_runs. { headed Hc. }
  seq_with @spec_bind (@LC_app) wli_runs_app wli_promote_runs. { walked_side. walked_done. }
  seq_with @spec_bind (@LC_app) wli_runs_app wli_drive_runs. { headed Hc. }
  seq_with @spec_bind (@LC_app) wli_runs_app wli_promote_runs. { walked_side. walked_done. }
  seq_with @spec_bind (@LC_app) wli_runs_app wli_drive_runs. { headed Hc. }
  seq_with @spec_bind (@LC_app) wli_runs_app wli_promote_runs. { walked_side. walked_done. }
  seq_with @spec_bind (@LC_app) wli_runs_app wli_drive_runs. { headed Hc. }
  seq_with @spec_bind (@LC_app) wli_runs_app wli_promote_runs. { walked_side. congruence. }
  seq_with @spec_bind (@LC_app) wli_runs_app wli_drive_runs. { headed Hc. }
  apply wli_complete_runs. headed Hc.
Qed.

Lemma wli_gate_open_runs av span :
  getAppVersionForWorkloadInstance env w0 = (true, av, None) ->
  IsSucceeded (AppVersion.PreDeploymentEvaluationStatus (AppVersion.Status av)) = true ->
  RUNS (fun o => o = w0) (appGate phases env span) (fun _ o => o = w0).
Proof.
  intros Hg Hs st Hst. unfold appGate, recordEvent. unfold_engine. cbn.
  cbn in Hst. rewrite Hst, Hg. cbn. unfold AppVersion.IsPreDeploymentEvaluationSucceeded.
  rewrite Hs. cbn. unfold no_callback. auto.
Qed.

Lemma wli_reconcileFound_runs av span :
  getAppVersionForWorkloadInstance env w0 = (true, av, None) ->
  IsSucceeded (AppVersion.PreDeploymentEvaluationStatus (AppVersion.Status av)) = true ->
  fspec (runs c (wli_failed_of c w0)) (fun o => SetStartTime (now env) o = w0)
    (reconcileFound phases env span).
Proof.
  intros Hg Hs. unfold reconcileFound.
  apply spec_body with (LC := @no_callback KeptnWorkloadInstance).
  eapply spec_bind; [apply LC_app | apply wli_runs_app | | intros ?; cbn beta].
  { apply spec_modify with (Q := fun _ o => o = w0); [reflexivity|].
    intros o Ho. exact Ho. }
  eapply spec_bind;
    [apply LC_app | apply wli_runs_app | apply (wli_gate_open_runs av span Hg Hs)
    | intros av'].
  cbn beta. eapply spec_conseq; [apply (wli_phaseSequence_runs av' span) | | auto].
  intros o ->. unfold wli_on_walk, wli_walked, stepped. intuition.
Qed.

End WorkloadInstanceRuns.

Lemma wli_heading_SetStartTime now w :
  firstUnfinished wli_sequence (WorkloadInstance.SetStartTime now w)
  = firstUnfinished wli_sequence w
  /\ forall c, wli_failed_of c (WorkloadInstance.SetStartTime now w) = wli_failed_of c w.
Proof.
  unfold WorkloadInstance.SetStartTime.
  destruct (WorkloadInstance.StartTime _); split; try reflexivity.
  intros [[]|[]| |]; reflexivity.
Qed.

Lemma wli_Reconcile_runs phases env r req w av c :
  keptnworkloadinstance.Get env req = Found w ->
  (forall n, keptnworkloadinstance.store_answer env n = None) ->
  keptnworkloadinstance.getAppVersionForWorkloadInstance env w = (true, av, None) ->
  AppVersion.IsPreDeploymentEvaluationSucceeded av = true ->
  firstUnfinished wli_sequence w = Some c ->
  runs c (wli_failed_of c w)
    (fst (fst (keptnworkloadinstance.Reconcile phases env r req)))
    (snd (keptnworkloadinstance.Reconcile phases env r req)).
Proof.
  intros Hget Hstore Hgate Hs Hc.
  rewrite (wli_Reconcile_found phases env r req w Hget).
  set (w0 := WorkloadInstance.SetStartTime (keptnworkloadinstance.now env) w).
  destruct (wli_heading_SetStartTime (keptnworkloadinstance.now env) w) as [E1 E2].
  assert (Hc0 : firstUnfinished wli_sequence w0 = Some c) by (unfold w0; congruence).
  assert (Hg0 : keptnworkloadinstance.getAppVersionForWorkloadInstance env w0
                = (true, av, None)).
  { unfold w0. rewrite resolver_SetStartTime. assumption. }
  pose proof (wli_reconcileFound_runs phases env Hstore w0 c Hc0 av (spanSeq r) Hg0 Hs
    {| object := w;
       reconciler := {| bindCRDSpan := bindCRDSpan r; spanSeq := S (spanSeq r) |};
       updateSeq := 0 |} eq_refl) as H.
  destruct (keptnworkloadinstance.reconcileFound _ _ _ _) as [[l st] d].
  cbn [fst snd] in *. unfold w0 in H. rewrite E2 in H.
  unfold runs in *. rewrite callbacks_frame. exact H.
Qed.

Section AppVersionRuns.
Import AppVersion keptnappversion.

Variable phases : Phases.
Variable env : Env.

Variable v0 : KeptnAppVersion.
Variable c : PhaseCall.
Hypothesis Hc : firstUnfinished app_tested_sequence v0 = Some c.

Abbreviation RUNS :=
  (spec (@no_callback KeptnAppVersion) (runs c (app_failed_of c v0))).

Lemma app_no_callback_app (a b : list (Effect KeptnAppVersion)) :
  no_callback a -> no_callback b -> no_callback (a ++ b)%list.
Proof. unfold no_callback. rewrite callbacks_app. intros -> ->. reflexivity. Qed.

Lemma app_runs_app (a b : list (Effect KeptnAppVersion)) d :
  no_callback a -> runs c (app_failed_of c v0) b d ->
  runs c (app_failed_of c v0) (a ++ b)%list d.
Proof. apply runs_app. Qed.

Lemma app_handlePhase_runs phase span phaseFailed f st :
  let w := setCurrentPhase (ShortName phase) (object st) in
  let '(l, st', d) := handlePhase env phase span phaseFailed (callback c f) st in
  runs c (phaseFailed w) l d.
Proof.
  unfold handlePhase, getSpan, recordEvent, unbindSpan, runs. unfold_engine. cbn.
  destruct (bindCRDSpan (reconciler st) !! _) eqn:Hl; cbn;
    destruct (phaseFailed _) eqn:H; cbn; auto.
  all: destruct (f _) as [o [k [e|]]] eqn:Hf; cbn; [eexists _, _; split; reflexivity|].
  all: unfold driverDirective; crunch; eexists _, _; split; reflexivity.
Qed.

Lemma app_drive_runs done phase span phaseFailed c' f (P : KeptnAppVersion -> Prop) :
  (forall o, P o -> done o = false ->
     c' = c /\ phaseFailed (setCurrentPhase (ShortName phase) o) = app_failed_of c v0) ->
  RUNS P (drive env done phase span phaseFailed (callback c' f))
    (fun _ o => P o /\ done o = true).
Proof.
  intros Hw st HP. unfold drive.
  cbv [bind getObject call returnWith ret].
  destruct (done (object st)) eqn:Hs; cbn; [unfold no_callback; auto|].
  destruct (Hw _ HP Hs) as [-> Hf].
  pose proof (app_handlePhase_runs phase span phaseFailed f st) as Hh.
  cbv zeta in Hh. rewrite Hf in Hh.
  destruct (handlePhase _ _ _ _ _ _) as [[l st'] d]. cbn.
  rewrite app_nil_r. exact Hh.
Qed.

Lemma app_announce_runs (P : KeptnAppVersion -> Prop) :
  RUNS P (announceStart phases) (fun _ o => P o).
Proof.
  intros st HP. unfold announceStart, unbindSpan, getSpan, recordEvent.
  unfold_engine. unfold no_callback. crunch; auto.
Qed.

Lemma app_phaseSequence_runs span :
  RUNS (fun o => o = v0) (phaseSequence phases env span) (fun _ _ => False).
Proof.
  unfold phaseSequence.
  seq_with @spec_bind app_no_callback_app app_runs_app app_drive_runs. { heading Hc. }
  seq_with @spec_bind app_no_callback_app app_runs_app app_drive_runs. { heading Hc. }
  seq_with @spec_bind app_no_callback_app app_runs_app app_drive_runs. { heading Hc. }
  seq_with @spec_bind app_no_callback_app app_runs_app app_drive_runs. { heading Hc. }
  seq_with @spec_bind app_no_callback_app app_runs_app app_drive_runs. { heading Hc. }
  intros st HP. exfalso. revert HP. generalize (object st). heading Hc.
Qed.

Lemma app_reconcileFound_runs span :
  fspec (runs c (app_failed_of c v0)) (fun o => o = v0) (reconcileFound phases env span).
Proof.
  unfold reconcileFound. apply spec_body with (LC := @no_callback KeptnAppVersion).
  seq_with @spec_bind app_no_callback_app app_runs_app app_announce_runs.
  apply app_phaseSequence_runs.
Qed.

End AppVersionRuns.

Lemma app_heading_SetStartTime now v :
  firstUnfinished app_tested_sequence (AppVersion.SetStartTime now v)
  = firstUnfinished app_tested_sequence v
  /\ forall c, app_failed_of c (AppVersion.SetStartTime now v) = app_failed_of c v.
Proof.
  unfold AppVersion.SetStartTime.
  destruct (AppVersion.StartTime _); split; try reflexivity.
  intros [[]|[]| |]; reflexivity.
Qed.

Lemma app_Reconcile_runs phases env r req v c :
  keptnappversion.Get env req = Found v ->
  firstUnfinished app_tested_sequence v = Some c ->
  runs c (app_failed_of c v)
    (fst (fst (keptnappversion.Reconcile phases env r req)))
    (snd (keptnappversion.Reconcile phases env r req)).
Proof.
  intros Hget Hc.
  rewrite (app_Reconcile_found phases env r req v Hget).
  set (v0 := AppVersion.SetStartTime (keptnappversion.now env) v).
  destruct (app_heading_SetStartTime (keptnappversion.now env) v) as [E1 E2].
  assert (Hc0 : firstUnfinished app_tested_sequence v0 = Some c) by (unfold v0; congruence).
  pose proof (app_reconcileFound_runs phases env v0 c Hc0 (spanSeq r)
    {| object := v0;
       reconciler := {| bindCRDSpan := bindCRDSpan r; spanSeq := S (spanSeq r) |};
       updateSeq := 0 |} eq_refl) as H.
  destruct (keptnappversion.reconcileFound _ _ _ _) as [[l st] d].
  cbn [fst snd] in *. unfold v0 in H. rewrite E2 in H.
  unfold runs in *. rewrite callbacks_frame. exact H.
Qed.



(** ** The post-deployment evaluation step of the workload instance *)

Lemma wli_keeps_post_evaluation now k :
  wli_kept now
    (fun o => WorkloadInstance.PostDeploymentEvaluationStatus (WorkloadInstance.Status o) = k).
Proof.
  constructor; intros; unfold WorkloadInstance.SetEndTime;
    repeat match goal with
      | |- context [match ?x with Some _ => _ | None => _ end] => destruct x eqn:?
      end; cbn in *; congruence.
Qed.



(** ** Reconciling an entity that is through *)

Lemma wli_all_succeeded w :
  firstUnfinished wli_sequence w = None ->
  WorkloadInstance.PreDeploymentStatus (WorkloadInstance.Status w) = StateSucceeded
  /\ WorkloadInstance.PreDeploymentEvaluationStatus (WorkloadInstance.Status w) = StateSucceeded
  /\ WorkloadInstance.DeploymentStatus (WorkloadInstance.Status w) = StateSucceeded
  /\ WorkloadInstance.PostDeploymentStatus (WorkloadInstance.Status w) = StateSucceeded
  /\ WorkloadInstance.PostDeploymentEvaluationStatus (WorkloadInstance.Status w) = StateSucceeded.
Proof.
  unfold firstUnfinished, wli_sequence. cbn.
  unfold WorkloadInstance.IsPreDeploymentSucceeded,
    WorkloadInstance.IsPreDeploymentEvaluationSucceeded,
    WorkloadInstance.IsDeploymentSucceeded, WorkloadInstance.IsPostDeploymentSucceeded,
    WorkloadInstance.IsPostDeploymentEvaluationSucceeded.
  destruct (IsSucceeded _) eqn:H1; cbn; [|discriminate].
  destruct (IsSucceeded _) eqn:H2 in |- *; cbn; [|discriminate].
  destruct (IsSucceeded _) eqn:H3 in |- *; cbn; [|discriminate].
  destruct (IsSucceeded _) eqn:H4 in |- *; cbn; [|discriminate].
  destruct (IsSucceeded _) eqn:H5 in |- *; cbn; [|discriminate].
  intros _. repeat split; try apply IsSucceeded_true; assumption.
Qed.

Lemma app_all_succeeded v :
  firstUnfinished app_sequence v = None ->
  AppVersion.PreDeploymentStatus (AppVersion.Status v) = StateSucceeded
  /\ AppVersion.PreDeploymentEvaluationStatus (AppVersion.Status v) = StateSucceeded
  /\ forallb IsSucceeded (AppVersion.WorkloadStatus (AppVersion.Status v)) = true
  /\ AppVersion.PostDeploymentStatus (AppVersion.Status v) = StateSucceeded
  /\ AppVersion.PostDeploymentEvaluationStatus (AppVersion.Status v) = StateSucceeded.
Proof.
  unfold firstUnfinished, app_sequence. cbn.
  unfold AppVersion.IsPreDeploymentSucceeded,
    AppVersion.IsPreDeploymentEvaluationSucceeded,
    AppVersion.AreWorkloadsSucceeded, AppVersion.IsPostDeploymentSucceeded,
    AppVersion.IsPostDeploymentEvaluationSucceeded.
  destruct (IsSucceeded _) eqn:H1; cbn; [|discriminate].
  destruct (IsSucceeded _) eqn:H2 in |- *; cbn; [|discriminate].
  destruct (forallb _ _) eqn:H3 in |- *; cbn; [|discriminate].
  destruct (IsSucceeded _) eqn:H4 in |- *; cbn; [|discriminate].
  destruct (IsSucceeded _) eqn:H5 in |- *; cbn; [|discriminate].
  intros _. repeat split; try apply IsSucceeded_true; assumption.
Qed.

Lemma wli_settled phases env r req w t0 t1 :
  keptnworkloadinstance.Get env req = Found w ->
  firstUnfinished wli_sequence w = None ->
  WorkloadInstance.StartTime (WorkloadInstance.Status w) = Some t0 ->
  WorkloadInstance.EndTime (WorkloadInstance.Status w) = Some t1 ->
  let '(l, _, d) := keptnworkloadinstance.Reconcile phases env r req in
  writes (fun o => WorkloadInstance.Status o = WorkloadInstance.Status w) l
  /\ callbacks l = []
  /\ metrics l = if finished d then [CounterAdd 1; DurationRecord (t1 - t0)] else [].
Proof.
  intros Hget Hall Hs He.
  apply wli_all_succeeded in Hall as (H1 & H2 & H3 & H4 & H5).
  unfold keptnworkloadinstance.Reconcile. rewrite Hget.
  destruct w as [ns name spec [pre preEval dep post postEval phase overall start finish]].
  cbn in H1, H2, H3, H4, H5, Hs, He. subst.
  unfold keptnworkloadinstance.reconcileFound, keptnworkloadinstance.appGate,
    keptnworkloadinstance.phaseSequence, keptnworkloadinstance.preparePreDeployment,
    keptnworkloadinstance.drive, keptnworkloadinstance.promote,
    keptnworkloadinstance.complete, keptnworkloadinstance.updateOrReturn,
    keptnworkloadinstance.recordEvent, keptnworkloadinstance.unbindSpan,
    keptnworkloadinstance.getSpan.
  unfold_engine. cbn.
  destruct (keptnworkloadinstance.getAppVersionForWorkloadInstance env _)
    as [[found av] [err|]]; cbn; [repeat split; constructor|].
  crunch; unfold writes; cbn; repeat split; repeat constructor.
Qed.

Lemma app_settled phases env r req v t0 t1 :
  keptnappversion.Get env req = Found v ->
  firstUnfinished app_sequence v = None ->
  AppVersion.StartTime (AppVersion.Status v) = Some t0 ->
  AppVersion.EndTime (AppVersion.Status v) = Some t1 ->
  let '(l, _, d) := keptnappversion.Reconcile phases env r req in
  writes (fun o => AppVersion.Status o = AppVersion.Status v) l
  /\ callbacks l = []
  /\ metrics l = if finished d then [CounterAdd 1; DurationRecord (t1 - t0)] else [].
Proof.
  intros Hget Hall Hs He.
  apply app_all_succeeded in Hall as (H1 & H2 & H3 & H4 & H5).
  unfold keptnappversion.Reconcile. rewrite Hget.
  destruct v as [ns name spec [pre preEval work post postEval phase overall start finish]].
  cbn in H1, H2, H3, H4, H5, Hs, He. subst.
  unfold keptnappversion.reconcileFound, keptnappversion.announceStart,
    keptnappversion.phaseSequence, keptnappversion.drive, keptnappversion.complete,
    keptnappversion.recordEvent, keptnappversion.unbindSpan, keptnappversion.getSpan.
  unfold_engine. unfold AppVersion.AreWorkloadsSucceeded.
  repeat (cbn -[forallb]; rewrite ?H3;
    match goal with
    | |- context [if ?b then _ else _] => destruct b eqn:?
    | |- context [match ?x with Some _ => _ | None => _ end] => destruct x eqn:?
    end).
  all: try match goal with H : negb true = true |- _ => discriminate H end.
  all: cbn -[forallb]; rewrite ?H3; cbn.
  all: unfold writes; cbn; repeat split; repeat constructor.
Qed.

(** C2 as worded does not hold: a workload instance that is Succeeded with
    every phase succeeded gets one more counter increment and one more
    duration sample from a further reconcile, and an application version in
    that state whose end time is not stamped yet gets its status changed. *)
Lemma C2_counterexample :
  ~ wli_idempotent Sample.phases
      (Sample.wliEnv Sample.wliDone [Sample.appGo "1.2.0"] StateSucceeded)
      Sample.r0 Sample.req Sample.wliDone
  /\ ~ app_idempotent Sample.phases (Sample.appEnv Sample.appLastPhase StateSucceeded)
         Sample.r0 Sample.req Sample.appLastPhase.
Proof.
  split; intros H; destruct (H eq_refl eq_refl eq_refl) as [Hw Hm].
  - vm_compute in Hm. discriminate.
  - unfold writes in Hw. vm_compute in Hw.
    apply Forall_inv_tail, Forall_inv in Hw. discriminate.
Qed.

(** C2, amended: for an entity whose phases all report succeeded and whose
    start and end times are set, a further reconcile calls no callback and
    writes back no status but the one it fetched; when it runs to its end it
    emits one more counter increment and one more duration sample, and none
    when it stops before.  Both entity kinds. *)
Theorem C2_settled_entity_keeps_its_status :
  (forall phases env r req w t0 t1,
     keptnworkloadinstance.Get env req = Found w ->
     firstUnfinished wli_sequence w = None ->
     WorkloadInstance.StartTime (WorkloadInstance.Status w) = Some t0 ->
     WorkloadInstance.EndTime (WorkloadInstance.Status w) = Some t1 ->
     let '(l, _, d) := keptnworkloadinstance.Reconcile phases env r req in
     writes (fun o => WorkloadInstance.Status o = WorkloadInstance.Status w) l
     /\ callbacks l = []
     /\ metrics l = if finished d then [CounterAdd 1; DurationRecord (t1 - t0)] else [])
  /\ (forall phases env r req v t0 t1,
     keptnappversion.Get env req = Found v ->
     firstUnfinished app_sequence v = None ->
     AppVersion.StartTime (AppVersion.Status v) = Some t0 ->
     AppVersion.EndTime (AppVersion.Status v) = Some t1 ->
     let '(l, _, d) := keptnappversion.Reconcile phases env r req in
     writes (fun o => AppVersion.Status o = AppVersion.Status v) l
     /\ callbacks l = []
     /\ metrics l = if finished d then [CounterAdd 1; DurationRecord (t1 - t0)] else []).
Proof. split; [exact wli_settled | exact app_settled]. Qed.

Lemma C2_witness :
  let '(l, _, d) :=
    keptnworkloadinstance.Reconcile Sample.phases
      (Sample.wliEnv Sample.wliDone [Sample.appGo "1.2.0"] StateSucceeded)
      Sample.r0 Sample.req in
  writes (fun o => WorkloadInstance.Status o = WorkloadInstance.Status Sample.wliDone) l
  /\ callbacks l = []
  /\ metrics l = if finished d then [CounterAdd 1; DurationRecord (160 - 100)] else [].
Proof.
  exact (proj1 C2_settled_entity_keeps_its_status Sample.phases
           (Sample.wliEnv Sample.wliDone [Sample.appGo "1.2.0"] StateSucceeded)
           Sample.r0 Sample.req Sample.wliDone 100 160 eq_refl eq_refl eq_refl eq_refl).
Defined.

(** ** The end time *)

Lemma wli_keeps_end_time now t :
  wli_kept now (fun o => WorkloadInstance.EndTime (WorkloadInstance.Status o) = Some t).
Proof.
  constructor; intros; unfold WorkloadInstance.SetStartTime, WorkloadInstance.SetEndTime;
    repeat match goal with
      | |- context [match ?x with Some _ => _ | None => _ end] => destruct x eqn:?
      end; cbn in *; congruence.
Qed.

Lemma wli_keeps_terminal_is_ended now : wli_kept now wli_terminal_is_ended.
Proof.
  constructor; unfold wli_terminal_is_ended, WorkloadInstance.IsEndTimeSet;
    intros; unfold WorkloadInstance.SetStartTime, WorkloadInstance.SetEndTime in *;
    repeat match goal with
      | |- context [match ?x with Some _ => _ | None => _ end] => destruct x eqn:?
      | H : context [match ?x with Some _ => _ | None => _ end] |- _ => destruct x eqn:?
      end; cbn in *; auto; try congruence.
Qed.

Lemma app_keeps_end_time now t :
  app_kept now (fun o => AppVersion.EndTime (AppVersion.Status o) = Some t).
Proof.
  constructor; intros; unfold AppVersion.SetStartTime, AppVersion.SetEndTime;
    repeat match goal with
      | |- context [match ?x with Some _ => _ | None => _ end] => destruct x eqn:?
      end; cbn in *; congruence.
Qed.

Lemma app_keeps_failed_is_ended now : app_kept now app_failed_is_ended.
Proof.
  constructor; unfold app_failed_is_ended, AppVersion.IsEndTimeSet;
    intros; unfold AppVersion.SetStartTime, AppVersion.SetEndTime in *;
    repeat match goal with
      | |- context [match ?x with Some _ => _ | None => _ end] => destruct x eqn:?
      | H : context [match ?x with Some _ => _ | None => _ end] |- _ => destruct x eqn:?
      end; cbn in *; auto; try congruence.
Qed.



Lemma wliMark_keeps_terminal_is_ended c k o :
  wli_terminal_is_ended o -> wli_terminal_is_ended (fst (Sample.wliMark c k o)).
Proof. intros H. exact H. Qed.

Lemma appMark_keeps_failed_is_ended c k o :
  app_failed_is_ended o -> app_failed_is_ended (fst (Sample.appMark c k o)).
Proof. intros H. exact H. Qed.


(** ** The start of a rollout *)

Lemma noStart_announces {E} (l : list (Effect E)) : noStart l -> ~ announces l.
Proof.
  unfold noStart, announces. intros H [p Hin].
  rewrite List.Forall_forall in H. apply (H _ Hin). reflexivity.
Qed.

Lemma events_frame {E} n s s' (l : list (Effect E)) :
  events (TracerStart n s :: l ++ [SpanEnd s'])%list = events l.
Proof.
  change (events (TracerStart n s :: l ++ [SpanEnd s'])%list)
    with (events (l ++ [SpanEnd s'])%list).
  rewrite events_app. cbn. apply app_nil_r.
Qed.

Lemma app_SetStartTime_CurrentPhase now v :
  AppVersion.CurrentPhase (AppVersion.Status (AppVersion.SetStartTime now v))
  = AppVersion.CurrentPhase (AppVersion.Status v).
Proof. unfold AppVersion.SetStartTime. destruct (AppVersion.StartTime _); reflexivity. Qed.

(** An application version announces its start exactly when its current
    phase is empty, and then the span of the first phase is the first thing
    it opens. *)
Lemma app_announces_when_new phases env r req v :
  keptnappversion.Get env req = Found v ->
  let l := fst (fst (keptnappversion.Reconcile phases env r req)) in
  (announces l <-> AppVersion.CurrentPhase (AppVersion.Status v) = "")
  /\ (AppVersion.CurrentPhase (AppVersion.Status v) = "" ->
      exists s l',
        l = TracerStart "reconcile_app_version" (spanSeq r)
            :: TracerStart (ShortName (PhaseAppPreDeployment phases)) s :: l').
Proof.
  intros H. cbv zeta. rewrite (app_Reconcile_found phases env r req v H).
  set (st := {| object := _ |}).
  destruct (app_reconcileFound_split phases env (spanSeq r) st)
    as (la & sta & Ha & Ho & -> & Hla).
  pose proof (spec_body app_quiet app_walk _ _
                (app_phaseSequence_walk phases env (spanSeq r)) sta Logic.I) as Hw.
  destruct (body _ sta) as [[l st'] d]. cbn [fst snd] in *.
  destruct Hw as [Hn _].
  subst st. cbn [object] in Hla. rewrite app_SetStartTime_CurrentPhase in Hla.
  unfold announces. rewrite events_frame, events_app.
  destruct (String.eqb _ "") eqn:Hc.
  - destruct Hla as [s ->]. apply String.eqb_eq in Hc. split.
    + split; [intros _; exact Hc|]. intros _.
      exists (PhaseAppPreDeployment phases). cbn. left. reflexivity.
    + intros _. eexists _, _. cbn. reflexivity.
  - subst la. apply String.eqb_neq in Hc. split; [|contradiction].
    split; [|contradiction]. cbn. intros Hin.
    exfalso. exact (noStart_announces _ Hn Hin).
Qed.

(** A workload instance announces no start while the gate is closed. *)
Lemma wli_announces_past_the_gate phases env r req w :
  keptnworkloadinstance.Get env req = Found w ->
  announces (fst (fst (keptnworkloadinstance.Reconcile phases env r req))) ->
  exists appVersion,
    keptnworkloadinstance.getAppVersionForWorkloadInstance env w = (true, appVersion, None)
    /\ IsSucceeded (AppVersion.PreDeploymentEvaluationStatus (AppVersion.Status appVersion))
       = true.
Proof.
  intros Hget. unfold keptnworkloadinstance.Reconcile. rewrite Hget.
  unfold keptnworkloadinstance.reconcileFound, keptnworkloadinstance.appGate,
    keptnworkloadinstance.recordEvent.
  unfold_engine. cbn.
  rewrite resolver_SetStartTime.
  destruct (keptnworkloadinstance.getAppVersionForWorkloadInstance env w)
    as [[found av] [err|]].
  - destruct found; cbn; intros [p [Hin|[]]]; discriminate.
  - destruct found; cbn; [|intros [p [Hin|[]]]; discriminate].
    destruct (IsSucceeded _) eqn:Hs; cbn; [eauto|].
    destruct (IsFailed _); cbn; intros [p [Hin|[]]]; discriminate.
Qed.

Lemma wli_keeps_start_time now t :
  wli_kept now (fun o => WorkloadInstance.StartTime (WorkloadInstance.Status o) = Some t).
Proof.
  constructor; intros; unfold WorkloadInstance.SetEndTime;
    repeat match goal with
      | |- context [match ?x with Some _ => _ | None => _ end] => destruct x eqn:?
      end; cbn in *; congruence.
Qed.

Lemma app_keeps_start_time now t :
  app_kept now (fun o => AppVersion.StartTime (AppVersion.Status o) = Some t).
Proof.
  constructor; intros; unfold AppVersion.SetEndTime;
    repeat match goal with
      | |- context [match ?x with Some _ => _ | None => _ end] => destruct x eqn:?
      end; cbn in *; congruence.
Qed.

(** C8 as worded does not hold: a workload instance whose current phase is
    empty is reconciled while no application version is in the store; the
    gate stops the reconcile and no start is announced. *)
Lemma C8_counterexample :
  ~ wli_starts_when_new Sample.phases (Sample.wliEnv Sample.wliFresh [] StateProgressing)
      Sample.r0 Sample.req Sample.wliFresh.
Proof.
  intros H. destruct (H eq_refl) as [H1 _].
  destruct (H1 eq_refl) as [p Hin]. vm_compute in Hin.
  destruct Hin as [Hin|[]]. discriminate.
Qed.

(** C8, amended.  An application version announces "Started" exactly when
    its own current phase is empty, and then the span of its first phase is
    the first it opens.  A workload instance announces "Started" only past
    the gate, that is when its application version was found with its
    pre-deployment evaluation succeeded.  For both kinds the start time does
    not wait for an empty current phase: with callbacks that leave it alone,
    every status a reconcile writes carries the start time that was fetched
    or, if there was none, the time of this reconcile. *)
Theorem C8_start_of_a_rollout :
  (forall phases env r req v,
     keptnappversion.Get env req = Found v ->
     let l := fst (fst (keptnappversion.Reconcile phases env r req)) in
     (announces l <-> AppVersion.CurrentPhase (AppVersion.Status v) = "")
     /\ (AppVersion.CurrentPhase (AppVersion.Status v) = "" ->
         exists s l',
           l = TracerStart "reconcile_app_version" (spanSeq r)
               :: TracerStart (ShortName (PhaseAppPreDeployment phases)) s :: l'))
  /\ (forall phases env r req w,
     keptnworkloadinstance.Get env req = Found w ->
     announces (fst (fst (keptnworkloadinstance.Reconcile phases env r req))) ->
     exists appVersion,
       keptnworkloadinstance.getAppVersionForWorkloadInstance env w
       = (true, appVersion, None)
       /\ IsSucceeded (AppVersion.PreDeploymentEvaluationStatus
                         (AppVersion.Status appVersion)) = true)
  /\ (forall phases env r req w t,
     keptnworkloadinstance.Get env req = Found w ->
     t = default (keptnworkloadinstance.now env)
           (WorkloadInstance.StartTime (WorkloadInstance.Status w)) ->
     wli_callbacks_keep env
       (fun o => WorkloadInstance.StartTime (WorkloadInstance.Status o) = Some t) ->
     writes (fun o => WorkloadInstance.StartTime (WorkloadInstance.Status o) = Some t)
       (fst (fst (keptnworkloadinstance.Reconcile phases env r req))))
  /\ (forall phases env r req v t,
     keptnappversion.Get env req = Found v ->
     t = default (keptnappversion.now env)
           (AppVersion.StartTime (AppVersion.Status v)) ->
     app_callbacks_keep env
       (fun o => AppVersion.StartTime (AppVersion.Status o) = Some t) ->
     writes (fun o => AppVersion.StartTime (AppVersion.Status o) = Some t)
       (fst (fst (keptnappversion.Reconcile phases env r req)))).
Proof.
  split; [exact app_announces_when_new|].
  split; [exact wli_announces_past_the_gate|].
  split; intros; subst t.
  - eapply wli_Reconcile_keeps; eauto using wli_keeps_start_time.
    unfold WorkloadInstance.SetStartTime.
    destruct (WorkloadInstance.StartTime _) eqn:Hs; cbn; rewrite ?Hs; reflexivity.
  - eapply app_Reconcile_keeps; eauto using app_keeps_start_time.
    unfold AppVersion.SetStartTime.
    destruct (AppVersion.StartTime _) eqn:Hs; cbn; rewrite ?Hs; reflexivity.
Qed.

Lemma C8_witness :
  let l := fst (fst (keptnappversion.Reconcile Sample.phases
                       (Sample.appEnv Sample.appFresh StateProgressing)
                       Sample.r0 Sample.req)) in
  (announces l <-> AppVersion.CurrentPhase (AppVersion.Status Sample.appFresh) = "")
  /\ (AppVersion.CurrentPhase (AppVersion.Status Sample.appFresh) = "" ->
      exists s l',
        l = TracerStart "reconcile_app_version" (spanSeq Sample.r0)
            :: TracerStart (ShortName (PhaseAppPreDeployment Sample.phases)) s :: l').
Proof.
  exact (proj1 C8_start_of_a_rollout Sample.phases
           (Sample.appEnv Sample.appFresh StateProgressing) Sample.r0 Sample.req
           Sample.appFresh eq_refl).
Defined.

(** * Further properties of the two controllers *)

(** ** The gauge callbacks *)

Lemma fold_collect {X Y} (keep : X -> bool) (f : X -> Y) (l : list X) (acc : list Y) :
  fold_left (fun res x => if keep x then (res ++ [f x])%list else res) l acc
  = (acc ++ map f (List.filter keep l))%list.
Proof.
  revert acc. induction l as [|x l IH]; intros acc; cbn.
  - symmetry. apply app_nil_r.
  - rewrite IH. destruct (keep x); cbn; [rewrite <- app_assoc|]; reflexivity.
Qed.

Lemma fold_collect_all {X Y} (f : X -> Y) (l : list X) (acc : list Y) :
  fold_left (fun res x => (res ++ [f x])%list) l acc = (acc ++ map f l)%list.
Proof.
  revert acc. induction l as [|x l IH]; intros acc; cbn.
  - symmetry. apply app_nil_r.
  - rewrite IH, <- app_assoc. reflexivity.
Qed.

(** The number of entities that are still running, as the active gauge
    counts them. *)
Lemma running_count {X} (ended : X -> bool) (l : list X) :
  fold_right Z.add 0 (map (fun x => if negb (ended x) then 1 else 0) l)
  = Z.of_nat (length (List.filter (fun x => negb (ended x)) l)).
Proof.
  induction l as [|x l IH]; [reflexivity|].
  cbn [map fold_right List.filter]. rewrite IH.
  destruct (ended x); cbn [negb length]; lia.
Qed.

Lemma ended_or_running {X} (ended : X -> bool) (l : list X) :
  (length (List.filter (fun x => negb (ended x)) l) + length (List.filter ended l))%nat
  = length l.
Proof.
  induction l as [|x l IH]; [reflexivity|].
  cbn [List.filter]. destruct (ended x); cbn [negb length]; lia.
Qed.

(** X1: the active gauges.  [GetActiveDeployments] and [GetActiveApps]
    answer with one gauge for every entity the store lists, in the order
    of the list, with that entity's attributes; the value is 1 for an
    entity without end time and 0 for one that has it, so the values add up
    to the number of entities still running.  When the list cannot be read
    the error is handed on, wrapped, and there are no gauges. *)
Theorem X1_active_gauges {A : Type} :
  (forall (attrs : WorkloadInstance.KeptnWorkloadInstance -> A) items,
     exists res,
       keptnworkloadinstance.GetActiveDeployments attrs (inr items) = inr res
       /\ Forall2 (fun w g =>
            GaugeValue.Attributes g = attrs w
            /\ GaugeValue.Value g = if WorkloadInstance.IsEndTimeSet w then 0 else 1)
            items res
       /\ fold_right Z.add 0 (map GaugeValue.Value res)
          = Z.of_nat (length (List.filter
                                (fun w => negb (WorkloadInstance.IsEndTimeSet w)) items)))
  /\ (forall (attrs : WorkloadInstance.KeptnWorkloadInstance -> A) err,
     keptnworkloadinstance.GetActiveDeployments attrs (inl err)
     = inl ("could not retrieve workload instances: " ++ err))
  /\ (forall (attrs : AppVersion.KeptnAppVersion -> A) items,
     exists res,
       keptnappversion.GetActiveApps attrs (inr items) = inr res
       /\ Forall2 (fun v g =>
            GaugeValue.Attributes g = attrs v
            /\ GaugeValue.Value g = if AppVersion.IsEndTimeSet v then 0 else 1)
            items res
       /\ fold_right Z.add 0 (map GaugeValue.Value res)
          = Z.of_nat (length (List.filter
                                (fun v => negb (AppVersion.IsEndTimeSet v)) items)))
  /\ (forall (attrs : AppVersion.KeptnAppVersion -> A) err,
     keptnappversion.GetActiveApps attrs (inl err)
     = inl ("could not retrieve app versions: " ++ err)).
Proof.
  split; [|split; [reflexivity|split; [|reflexivity]]].
  - intros attrs items. eexists. split.
    + unfold keptnworkloadinstance.GetActiveDeployments.
      rewrite fold_collect_all. reflexivity.
    + cbn [app]. split.
      * induction items as [|w items IH]; constructor; [|exact IH].
        cbn. destruct (WorkloadInstance.IsEndTimeSet w); auto.
      * rewrite map_map. cbn [GaugeValue.Value].
        apply (running_count WorkloadInstance.IsEndTimeSet).
  - intros attrs items. eexists. split.
    + unfold keptnappversion.GetActiveApps.
      rewrite fold_collect_all. reflexivity.
    + cbn [app]. split.
      * induction items as [|v items IH]; constructor; [|exact IH].
        cbn. destruct (AppVersion.IsEndTimeSet v); auto.
      * rewrite map_map. cbn [GaugeValue.Value].
        apply (running_count AppVersion.IsEndTimeSet).
Qed.

(** X2: the duration gauges.  [GetDeploymentDuration] of either controller
    reports the entities that have an end time, each once and in the order
    of the list, with the seconds from its start to its end; an entity is
    counted as running by the active gauge or has a duration, never both:
    the running count and the number of durations add up to the number of
    entities. *)
Theorem X2_duration_gauges {F A : Type} (Seconds : Time -> Time -> F) :
  (forall (active interval : WorkloadInstance.KeptnWorkloadInstance -> A) items,
     exists act dur,
       keptnworkloadinstance.GetActiveDeployments active (inr items) = inr act
       /\ keptnworkloadinstance.GetDeploymentDuration Seconds interval (inr items) = inr dur
       /\ dur = map (fun w =>
                  {| GaugeFloatValue.Value :=
                       Seconds (WorkloadInstance.EndTime (WorkloadInstance.Status w))
                         (WorkloadInstance.StartTime (WorkloadInstance.Status w));
                     GaugeFloatValue.Attributes := interval w |})
                  (List.filter WorkloadInstance.IsEndTimeSet items)
       /\ fold_right Z.add 0 (map GaugeValue.Value act) + Z.of_nat (length dur)
          = Z.of_nat (length items))
  /\ (forall (active duration : AppVersion.KeptnAppVersion -> A) items,
     exists act dur,
       keptnappversion.GetActiveApps active (inr items) = inr act
       /\ keptnappversion.GetDeploymentDuration Seconds duration (inr items) = inr dur
       /\ dur = map (fun v =>
                  {| GaugeFloatValue.Value :=
                       Seconds (AppVersion.EndTime (AppVersion.Status v))
                         (AppVersion.StartTime (AppVersion.Status v));
                     GaugeFloatValue.Attributes := duration v |})
                  (List.filter AppVersion.IsEndTimeSet items)
       /\ fold_right Z.add 0 (map GaugeValue.Value act) + Z.of_nat (length dur)
          = Z.of_nat (length items)).
Proof.
  split; intros active other items; eexists _, _.
  - unfold keptnworkloadinstance.GetActiveDeployments,
      keptnworkloadinstance.GetDeploymentDuration.
    rewrite fold_collect_all, fold_collect. cbn [app].
    repeat split. rewrite map_map. cbn [GaugeValue.Value].
    rewrite (running_count WorkloadInstance.IsEndTimeSet), length_map.
    rewrite <- (ended_or_running WorkloadInstance.IsEndTimeSet items). lia.
  - unfold keptnappversion.GetActiveApps, keptnappversion.GetDeploymentDuration.
    rewrite fold_collect_all, fold_collect. cbn [app].
    repeat split. rewrite map_map. cbn [GaugeValue.Value].
    rewrite (running_count AppVersion.IsEndTimeSet), length_map.
    rewrite <- (ended_or_running AppVersion.IsEndTimeSet items). lia.
Qed.

Lemma fold_left_pointwise {X Y} (f g : Y -> X -> Y) (l : list X) (acc : Y) :
  (forall a x, f a x = g a x) -> fold_left f l acc = fold_left g l acc.
Proof.
  intros H. revert acc. induction l as [|x l IH]; intros acc; cbn; [reflexivity|].
  rewrite H. apply IH.
Qed.

Lemma fold_collect_option {X Y} (f : X -> option Y) (l : list X) (acc : list Y) :
  fold_left (fun res x => match f x with Some y => (res ++ [y])%list | None => res end) l acc
  = (acc ++ flat_map (fun x => match f x with Some y => [y] | None => [] end) l)%list.
Proof.
  revert acc. induction l as [|x l IH]; intros acc; cbn.
  - symmetry. apply app_nil_r.
  - rewrite IH. destruct (f x); cbn; [rewrite <- app_assoc|]; reflexivity.
Qed.

Lemma in_flat_map_option {X Y} (f : X -> option Y) (l : list X) (y : Y) :
  In y (flat_map (fun x => match f x with Some y => [y] | None => [] end) l)
  <-> exists x, In x l /\ f x = Some y.
Proof.
  rewrite in_flat_map. split; intros [x [Hx H]]; exists x; split; auto.
  - destruct (f x); cbn in H; [destruct H as [->|[]]; reflexivity | destruct H].
  - rewrite H. left; reflexivity.
Qed.

Lemma length_flat_map_option {X Y} (f : X -> option Y) (keep : X -> bool) (l : list X) :
  (forall x, f x <> None -> keep x = true) ->
  (length (flat_map (fun x => match f x with Some y => [y] | None => [] end) l)
   <= length (List.filter keep l))%nat.
Proof.
  intros H. induction l as [|x l IH]; [reflexivity|].
  cbn [flat_map List.filter]. rewrite length_app.
  destruct (f x) eqn:Hf.
  - rewrite H by congruence. cbn. lia.
  - destruct (keep x); cbn; lia.
Qed.

(** X3: the deployment interval of workload instances.  A gauge is reported
    exactly for a listed instance that names a previous version, whose
    previous instance (workload name, a hyphen, the previous version, in
    the same namespace) the store finds, and that has an end time itself;
    its value is the seconds from the end of the previous instance to the
    start of this one.  A previous instance that is missing or cannot be
    read costs the gauge, never the call; and every instance reported here
    is one [GetDeploymentDuration] reports too. *)
Theorem X3_workload_deployment_interval {F A : Type} (Seconds : Time -> Time -> F)
    (attrs : WorkloadInstance.KeptnWorkloadInstance -> A)
    (env : keptnworkloadinstance.Env) items :
  exists res,
    keptnworkloadinstance.GetDeploymentInterval Seconds attrs env (inr items) = inr res
    /\ (forall g, In g res <->
          exists w prev,
            In w items
            /\ WorkloadInstance.PreviousVersion (WorkloadInstance.Spec w) <> ""
            /\ keptnworkloadinstance.Get env
                 {| types.Namespace := WorkloadInstance.Namespace w;
                    types.Name :=
                      WorkloadInstance.WorkloadName (WorkloadInstance.Spec w) ++ "-"
                      ++ WorkloadInstance.PreviousVersion (WorkloadInstance.Spec w) |}
               = Found prev
            /\ WorkloadInstance.IsEndTimeSet w = true
            /\ g = {| GaugeFloatValue.Value :=
                        Seconds (WorkloadInstance.StartTime (WorkloadInstance.Status w))
                          (WorkloadInstance.EndTime (WorkloadInstance.Status prev));
                      GaugeFloatValue.Attributes := attrs w |})
    /\ (forall dur,
          keptnworkloadinstance.GetDeploymentDuration Seconds attrs (inr items) = inr dur ->
          (length res <= length dur)%nat).
Proof.
  set (one := fun w : WorkloadInstance.KeptnWorkloadInstance =>
    if negb (String.eqb (WorkloadInstance.PreviousVersion (WorkloadInstance.Spec w)) "") then
      match keptnworkloadinstance.Get env
              {| types.Namespace := WorkloadInstance.Namespace w;
                 types.Name :=
                   WorkloadInstance.WorkloadName (WorkloadInstance.Spec w) ++ "-"
                   ++ WorkloadInstance.PreviousVersion (WorkloadInstance.Spec w) |} with
      | Found prev =>
          if WorkloadInstance.IsEndTimeSet w then
            Some {| GaugeFloatValue.Value :=
                      Seconds (WorkloadInstance.StartTime (WorkloadInstance.Status w))
                        (WorkloadInstance.EndTime (WorkloadInstance.Status prev));
                    GaugeFloatValue.Attributes := attrs w |}
          else None
      | _ => None
      end
    else None).
  exists (flat_map (fun w => match one w with Some g => [g] | None => [] end) items).
  split; [|split].
  - unfold keptnworkloadinstance.GetDeploymentInterval. f_equal.
    rewrite <- (app_nil_l (flat_map _ items)), <- fold_collect_option.
    apply fold_left_pointwise. intros res w. unfold one.
    destruct (negb _); [|reflexivity].
    destruct (keptnworkloadinstance.Get _ _); try reflexivity.
    destruct (WorkloadInstance.IsEndTimeSet w); reflexivity.
  - intros g. rewrite in_flat_map_option. unfold one.
    split.
    + intros [w [Hw H]]. destruct (String.eqb _ _) eqn:Hp; [discriminate|].
      cbn in H. destruct (keptnworkloadinstance.Get _ _) as [prev| |] eqn:Hg;
        try discriminate.
      destruct (WorkloadInstance.IsEndTimeSet w) eqn:He; [|discriminate].
      injection H as <-. exists w, prev. repeat split; auto.
      intros Hv. rewrite Hv in Hp. discriminate.
    + intros (w & prev & Hw & Hp & Hg & He & ->). exists w. split; [assumption|].
      apply String.eqb_neq in Hp. rewrite Hp, Hg, He. reflexivity.
  - intros dur. unfold keptnworkloadinstance.GetDeploymentDuration.
    rewrite fold_collect. cbn [app]. intros [= <-]. rewrite length_map.
    apply length_flat_map_option. intros w. unfold one.
    destruct (negb _); [|congruence].
    destruct (keptnworkloadinstance.Get _ _); try congruence.
    destruct (WorkloadInstance.IsEndTimeSet w); congruence.
Qed.

(** X4: the deployment interval of application versions.  A gauge is
    reported exactly for a listed application version that names a previous
    version and whose previous version (application name, a hyphen, the
    previous version, in the same namespace) the store finds; unlike a
    workload instance, it need not have ended.  There are never more gauges
    than application versions with a previous version, and none when the
    store finds no previous version at all. *)
Theorem X4_app_deployment_interval {F A : Type} (Seconds : Time -> Time -> F)
    (attrs : AppVersion.KeptnAppVersion -> A) (env : keptnappversion.Env) items :
  exists res,
    keptnappversion.GetDeploymentInterval Seconds attrs env (inr items) = inr res
    /\ (forall g, In g res <->
          exists v prev,
            In v items
            /\ AppVersion.PreviousVersion (AppVersion.Spec v) <> ""
            /\ keptnappversion.Get env
                 {| types.Namespace := AppVersion.Namespace v;
                    types.Name :=
                      AppVersion.AppName (AppVersion.Spec v) ++ "-"
                      ++ AppVersion.PreviousVersion (AppVersion.Spec v) |}
               = Found prev
            /\ g = {| GaugeFloatValue.Value :=
                        Seconds (AppVersion.StartTime (AppVersion.Status v))
                          (AppVersion.EndTime (AppVersion.Status prev));
                      GaugeFloatValue.Attributes := attrs v |})
    /\ (length res
        <= length (List.filter
                     (fun v => negb (String.eqb
                                       (AppVersion.PreviousVersion (AppVersion.Spec v)) ""))
                     items))%nat
    /\ ((forall key prev, keptnappversion.Get env key <> Found prev) -> res = []).
Proof.
  set (one := fun v : AppVersion.KeptnAppVersion =>
    if negb (String.eqb (AppVersion.PreviousVersion (AppVersion.Spec v)) "") then
      match keptnappversion.Get env
              {| types.Namespace := AppVersion.Namespace v;
                 types.Name :=
                   AppVersion.AppName (AppVersion.Spec v) ++ "-"
                   ++ AppVersion.PreviousVersion (AppVersion.Spec v) |} with
      | Found prev =>
          Some {| GaugeFloatValue.Value :=
                    Seconds (AppVersion.StartTime (AppVersion.Status v))
                      (AppVersion.EndTime (AppVersion.Status prev));
                  GaugeFloatValue.Attributes := attrs v |}
      | _ => None
      end
    else None).
  exists (flat_map (fun v => match one v with Some g => [g] | None => [] end) items).
  split; [|split; [|split]].
  - unfold keptnappversion.GetDeploymentInterval. f_equal.
    rewrite <- (app_nil_l (flat_map _ items)), <- fold_collect_option.
    apply fold_left_pointwise. intros res v. unfold one.
    destruct (negb _); [|reflexivity].
    destruct (keptnappversion.Get _ _); reflexivity.
  - intros g. rewrite in_flat_map_option. unfold one.
    split.
    + intros [v [Hv H]]. destruct (String.eqb _ _) eqn:Hp; [discriminate|].
      cbn in H. destruct (keptnappversion.Get _ _) as [prev| |] eqn:Hg;
        try discriminate.
      injection H as <-. exists v, prev. repeat split; auto.
      intros Hx. rewrite Hx in Hp. discriminate.
    + intros (v & prev & Hv & Hp & Hg & ->). exists v. split; [assumption|].
      apply String.eqb_neq in Hp. rewrite Hp, Hg. reflexivity.
  - apply length_flat_map_option. intros v. unfold one.
    destruct (negb _); congruence.
  - intros Hnone. induction items as [|v items IH]; [reflexivity|].
    cbn [flat_map]. rewrite IH, app_nil_r. unfold one.
    destruct (negb _); [|reflexivity].
    destruct (keptnappversion.Get _ _) as [prev| |] eqn:Hg; try reflexivity.
    destruct (Hnone _ _ Hg).
Qed.

(** ** Names and keys *)

Lemma append_assoc (a b c : string) : (a ++ b) ++ c = a ++ (b ++ c).
Proof.
  induction a as [|x a IH]; [reflexivity|].
  change (String x ((a ++ b) ++ c) = String x (a ++ (b ++ c))). f_equal. exact IH.
Qed.

Lemma append_cancel (a x y : string) : a ++ x = a ++ y -> x = y.
Proof. apply String.app_inj. Qed.

(** X5: the name of an application version.  [GetAppVersionName] tells the
    versions of one application apart, and the namespaces; it does not tell
    applications apart: application [a-b] at version [c] and application [a]
    at version [b-c] get the same name. *)
Theorem X5_app_version_names :
  (forall ns ns' app v v',
     keptnworkloadinstance.GetAppVersionName ns app v
     = keptnworkloadinstance.GetAppVersionName ns' app v' <->
     ns = ns' /\ v = v')
  /\ (forall ns a b c,
     keptnworkloadinstance.GetAppVersionName ns (a ++ "-" ++ b) c
     = keptnworkloadinstance.GetAppVersionName ns a (b ++ "-" ++ c)).
Proof.
  split.
  - intros ns ns' app v v'. unfold keptnworkloadinstance.GetAppVersionName. split.
    + intros [= Hn Hv]. split; [assumption|].
      apply append_cancel in Hv. apply (append_cancel "-") in Hv. assumption.
    + intros [-> ->]. reflexivity.
  - intros ns a b c. unfold keptnworkloadinstance.GetAppVersionName.
    rewrite append_assoc. reflexivity.
Qed.

Lemma substring_whole_prefix (n : nat) (s : string) :
  (n <= String.length s)%nat ->
  String.length (String.substring 0 n s) = n
  /\ String.prefix (String.substring 0 n s) s = true.
Proof.
  revert s. induction n as [|n IH]; intros s H.
  - destruct s; cbn; auto.
  - destruct s as [|c s]; cbn in H; [lia|].
    cbn. destruct (IH s) as [H1 H2]; [lia|]. rewrite H1.
    split; [reflexivity|].
    destruct (Ascii.ascii_dec c c) as [_|Hc]; [assumption|contradiction].
Qed.

Lemma get_substring (n i : nat) (s : string) :
  (i < n)%nat -> String.get i (String.substring 0 n s) = String.get i s.
Proof.
  revert i s. induction n as [|n IH]; intros i s H; [lia|].
  destruct s as [|c s]; [reflexivity|].
  destruct i as [|i]; cbn; [reflexivity|].
  apply IH. lia.
Qed.

(** X6: the generated suffix.  [generateSuffix] cuts the first ten bytes
    off the text of a fresh UUID (and panics on a text shorter than ten
    bytes): for a UUID in its canonical form these are its first eight
    hexadecimal digits, the hyphen that follows them, and one more digit. *)
Theorem X6_generated_suffix uid :
  (keptnworkloadinstance.generateSuffix uid = None <-> (String.length uid < 10)%nat)
  /\ (uuid_shaped uid = true ->
      exists s,
        keptnworkloadinstance.generateSuffix uid = Some s
        /\ String.length s = 10%nat
        /\ String.prefix s uid = true
        /\ String.get 8 s = Some "-"%char
        /\ forall i c, (i < 10)%nat -> i <> 8%nat -> String.get i s = Some c ->
             isHexDigit c = true).
Proof.
  unfold keptnworkloadinstance.generateSuffix. split.
  - destruct (Nat.ltb_spec (String.length uid) 10); split; intros; try discriminate;
      try reflexivity; lia.
  - intros H. unfold uuid_shaped in H. apply andb_true_iff in H as [Hlen Hall].
    apply Nat.eqb_eq in Hlen.
    destruct (Nat.ltb_spec (String.length uid) 10) as [Hlt|Hge]; [lia|].
    eexists. split; [reflexivity|].
    destruct (substring_whole_prefix 10 uid Hge) as [H1 H2].
    split; [assumption|]. split; [assumption|].
    assert (Hget : forall i c, (i < 10)%nat -> String.get i uid = Some c ->
              if Nat.eqb i 8 then c = "-"%char else isHexDigit c = true).
    { do 10 (destruct uid as [|? uid]; [cbn in Hlen; lia|]).
      cbn in Hall. repeat (apply andb_true_iff in Hall as [? Hall]).
      intros i c Hi Hc.
      do 10 (destruct i as [|i];
             [cbn in Hc; injection Hc as <-; cbn;
              try assumption; apply Ascii.eqb_eq; assumption|]).
      lia. }
    split.
    + rewrite get_substring by lia.
      destruct (String.get 8 uid) as [c|] eqn:Hc.
      * pose proof (Hget 8%nat c ltac:(lia) Hc) as Hx. cbn in Hx. congruence.
      * exfalso. revert Hc. clear -Hlen.
        do 9 (destruct uid as [|? uid]; [cbn in Hlen; lia|]). cbn. discriminate.
    + intros i c Hi Hne Hc. rewrite get_substring in Hc by lia.
      pose proof (Hget i c Hi Hc) as Hx.
      destruct (Nat.eqb_spec i 8); [contradiction|assumption].
Qed.

Lemma X6_witness :
  exists s,
    keptnworkloadinstance.generateSuffix "123e4567-e89b-12d3-a456-426614174000" = Some s
    /\ String.length s = 10%nat
    /\ String.prefix s "123e4567-e89b-12d3-a456-426614174000" = true
    /\ String.get 8 s = Some "-"%char
    /\ forall i c, (i < 10)%nat -> i <> 8%nat -> String.get i s = Some c ->
         isHexDigit c = true.
Proof.
  exact (proj2 (X6_generated_suffix "123e4567-e89b-12d3-a456-426614174000") eq_refl).
Defined.

(** ** The span cache *)

Lemma wli_getSpanName_inj w p q :
  keptnworkloadinstance.getSpanName w p = keptnworkloadinstance.getSpanName w q -> p = q.
Proof.
  unfold keptnworkloadinstance.getSpanName. intros H.
  repeat (apply String.app_inj in H). exact H.
Qed.

Lemma app_getSpanName_inj v p q :
  keptnappversion.getSpanName v p = keptnappversion.getSpanName v q -> p = q.
Proof.
  unfold keptnappversion.getSpanName. intros H.
  repeat (apply String.app_inj in H). exact H.
Qed.

(** X7: the key of the span cache does not tell entities apart.  The key
    joins the parts of the entity with dots, so the workload instance of
    application [a.b] and workload [c] has the same keys as the one of
    application [a] and workload [b.c] (same trace id and version), and
    likewise the application versions [a.b] at version [c] and [a] at
    version [b.c]: when the span of a phase is bound for the one, [getSpan]
    hands that very span to the other and starts none. *)
Theorem X7_span_key_collision :
  (forall a b c version trace phase ns1 n1 prev1 status1 ns2 n2 prev2 status2 r k1 k2,
     let w1 := wli_of ns1 n1 (a ++ "." ++ b) c version prev1 trace status1 in
     let w2 := wli_of ns2 n2 a (b ++ "." ++ c) version prev2 trace status2 in
     keptnworkloadinstance.getSpanName w1 phase = keptnworkloadinstance.getSpanName w2 phase
     /\ let '(_, st1, s1) := keptnworkloadinstance.getSpan phase (holding w1 r k1) in
        let '(l2, _, s2) :=
          keptnworkloadinstance.getSpan phase (holding w2 (reconciler st1) k2) in
        l2 = [] /\ s2 = s1)
  /\ (forall a b c trace phase ns1 n1 prev1 ws1 status1 ns2 n2 prev2 ws2 status2 r k1 k2,
     let v1 := app_of ns1 n1 (a ++ "." ++ b) c prev1 ws1 trace status1 in
     let v2 := app_of ns2 n2 a (b ++ "." ++ c) prev2 ws2 trace status2 in
     keptnappversion.getSpanName v1 phase = keptnappversion.getSpanName v2 phase
     /\ let '(_, st1, s1) := keptnappversion.getSpan phase (holding v1 r k1) in
        let '(l2, _, s2) := keptnappversion.getSpan phase (holding v2 (reconciler st1) k2) in
        l2 = [] /\ s2 = s1).
Proof.
  split.
  - intros. 
    assert (Hk : keptnworkloadinstance.getSpanName w1 phase
                 = keptnworkloadinstance.getSpanName w2 phase).
    { unfold keptnworkloadinstance.getSpanName, w1, w2, wli_of. cbn.
      rewrite !append_assoc. reflexivity. }
    split; [exact Hk|].
    unfold keptnworkloadinstance.getSpan. unfold_engine. unfold holding.
    cbn [object reconciler]. rewrite <- Hk.
    destruct (bindCRDSpan r !! _) eqn:Hl; cbn [reconciler bindCRDSpan].
    + rewrite Hl. auto.
    + rewrite lookup_insert_eq. auto.
  - intros.
    assert (Hk : keptnappversion.getSpanName v1 phase
                 = keptnappversion.getSpanName v2 phase).
    { unfold keptnappversion.getSpanName, v1, v2, app_of. cbn.
      rewrite !append_assoc. reflexivity. }
    split; [exact Hk|].
    unfold keptnappversion.getSpan. unfold_engine. unfold holding.
    cbn [object reconciler]. rewrite <- Hk.
    destruct (bindCRDSpan r !! _) eqn:Hl; cbn [reconciler bindCRDSpan].
    + rewrite Hl. auto.
    + rewrite lookup_insert_eq. auto.
Qed.

(** X8: [getSpan] caches.  The first call for a phase of an entity starts
    at most one span, under the name of the phase, and leaves the entity
    alone; a second call hands out the same span, starts nothing and
    changes nothing.  Both controllers. *)
Theorem X8_getSpan_caches :
  (forall phase st,
     let '(l1, st1, s1) := keptnworkloadinstance.getSpan phase st in
     object st1 = object st
     /\ (l1 = [] \/ exists s,
           l1 = [TracerStart
                   (WorkloadInstance.WorkloadName (WorkloadInstance.Spec (object st))
                    ++ "/" ++ phase) s]
           /\ s1 = Continue s /\ s = spanSeq (reconciler st))
     /\ keptnworkloadinstance.getSpan phase st1 = ([], st1, s1))
  /\ (forall phase st,
     let '(l1, st1, s1) := keptnappversion.getSpan phase st in
     object st1 = object st
     /\ (l1 = [] \/ exists s,
           l1 = [TracerStart phase s] /\ s1 = Continue s /\ s = spanSeq (reconciler st))
     /\ keptnappversion.getSpan phase st1 = ([], st1, s1)).
Proof.
  split; intros phase st.
  - unfold keptnworkloadinstance.getSpan. unfold_engine.
    destruct (bindCRDSpan (reconciler st) !! _) eqn:Hl; cbn.
    + rewrite Hl. auto.
    + rewrite lookup_insert_eq. split; [reflexivity|]. split; [|reflexivity].
      right. eexists. auto.
  - unfold keptnappversion.getSpan. unfold_engine.
    destruct (bindCRDSpan (reconciler st) !! _) eqn:Hl; cbn.
    + rewrite Hl. auto.
    + rewrite lookup_insert_eq. split; [reflexivity|]. split; [|reflexivity].
      right. eexists. auto.
Qed.

(** X9: [unbindSpan] forgets one phase.  After it the key of that phase is
    unbound, the spans of the other phases of the entity are bound as
    before, and the next [getSpan] for the phase starts a new span, the
    next the tracer hands out, and binds it.  Both controllers. *)
Theorem X9_unbindSpan_forgets_one_phase :
  (forall phase st,
     let '(l1, st1, _) := keptnworkloadinstance.unbindSpan phase st in
     l1 = [] /\ object st1 = object st
     /\ bindCRDSpan (reconciler st1)
          !! keptnworkloadinstance.getSpanName (object st) phase = None
     /\ (forall other, other <> phase ->
           bindCRDSpan (reconciler st1)
             !! keptnworkloadinstance.getSpanName (object st) other
           = bindCRDSpan (reconciler st)
               !! keptnworkloadinstance.getSpanName (object st) other)
     /\ let '(l2, st2, s2) := keptnworkloadinstance.getSpan phase st1 in
        l2 = [TracerStart
                (WorkloadInstance.WorkloadName (WorkloadInstance.Spec (object st))
                 ++ "/" ++ phase) (spanSeq (reconciler st))]
        /\ s2 = Continue (spanSeq (reconciler st))
        /\ bindCRDSpan (reconciler st2)
             !! keptnworkloadinstance.getSpanName (object st) phase
           = Some (spanSeq (reconciler st)))
  /\ (forall phase st,
     let '(l1, st1, _) := keptnappversion.unbindSpan phase st in
     l1 = [] /\ object st1 = object st
     /\ bindCRDSpan (reconciler st1) !! keptnappversion.getSpanName (object st) phase = None
     /\ (forall other, other <> phase ->
           bindCRDSpan (reconciler st1) !! keptnappversion.getSpanName (object st) other
           = bindCRDSpan (reconciler st) !! keptnappversion.getSpanName (object st) other)
     /\ let '(l2, st2, s2) := keptnappversion.getSpan phase st1 in
        l2 = [TracerStart phase (spanSeq (reconciler st))]
        /\ s2 = Continue (spanSeq (reconciler st))
        /\ bindCRDSpan (reconciler st2) !! keptnappversion.getSpanName (object st) phase
           = Some (spanSeq (reconciler st))).
Proof.
  split; intros phase st.
  - unfold keptnworkloadinstance.unbindSpan, keptnworkloadinstance.getSpan.
    unfold_engine. cbn. rewrite lookup_delete_eq. cbn. rewrite lookup_insert_eq.
    repeat split.
    intros other Hne. apply lookup_delete_ne.
    intros H. apply Hne. symmetry. exact (wli_getSpanName_inj _ _ _ H).
  - unfold keptnappversion.unbindSpan, keptnappversion.getSpan.
    unfold_engine. cbn. rewrite lookup_delete_eq. cbn. rewrite lookup_insert_eq.
    repeat split.
    intros other Hne. apply lookup_delete_ne.
    intros H. apply Hne. symmetry. exact (app_getSpanName_inj _ _ _ H).
Qed.

(** ** The phase driver and the span of its phase *)

(** X10: a finished phase and its span.  When the callback reports the
    phase succeeded or failed (and leaves the spec and the current phase of
    the entity alone), the driver ends the span of the phase.  If the
    entity was in this phase already, the key of the phase is unbound
    afterwards.  If the entity has just entered the phase, the driver then
    asks [getSpan] for the current phase again: a second span is started
    under the same name, it is what the key is bound to afterwards, and
    the driver does nothing more with it than write the status.  Both
    controllers. *)
Theorem X10_finished_phase_span :
  (forall env phase span phaseFailed c f st w' k,
     let w := WorkloadInstance.setCurrentPhase (ShortName phase) (object st) in
     let key := keptnworkloadinstance.getSpanName (object st) (ShortName phase) in
     let name := WorkloadInstance.WorkloadName (WorkloadInstance.Spec (object st))
                 ++ "/" ++ ShortName phase in
     let s0 := default (spanSeq (reconciler st)) (bindCRDSpan (reconciler st) !! key) in
     phaseFailed w = false ->
     f w = (w', (k, None)) ->
     WorkloadInstance.Spec w' = WorkloadInstance.Spec w ->
     WorkloadInstance.CurrentPhase (WorkloadInstance.Status w') = ShortName phase ->
     IsCompleted k = true ->
     let '(l, st', _) :=
       keptnworkloadinstance.handlePhase env phase span phaseFailed (callback c f) st in
     In (SpanEnd s0) l
     /\ if String.eqb (WorkloadInstance.CurrentPhase (WorkloadInstance.Status (object st)))
             (ShortName phase)
        then bindCRDSpan (reconciler st') !! key = None
        else exists l1 s' o e,
               l = (l1 ++ [TracerStart name s'; StatusUpdate o e])%list
               /\ bindCRDSpan (reconciler st') !! key = Some s')
  /\ (forall env phase span phaseFailed c f st v' k,
     let v := AppVersion.setCurrentPhase (ShortName phase) (object st) in
     let key := keptnappversion.getSpanName (object st) (ShortName phase) in
     let s0 := default (spanSeq (reconciler st)) (bindCRDSpan (reconciler st) !! key) in
     phaseFailed v = false ->
     f v = (v', (k, None)) ->
     AppVersion.Spec v' = AppVersion.Spec v ->
     AppVersion.CurrentPhase (AppVersion.Status v') = ShortName phase ->
     IsCompleted k = true ->
     let '(l, st', _) :=
       keptnappversion.handlePhase env phase span phaseFailed (callback c f) st in
     In (SpanEnd s0) l
     /\ if String.eqb (AppVersion.CurrentPhase (AppVersion.Status (object st)))
             (ShortName phase)
        then bindCRDSpan (reconciler st') !! key = None
        else exists l1 s' o e,
               l = (l1 ++ [TracerStart (ShortName phase) s'; StatusUpdate o e])%list
               /\ bindCRDSpan (reconciler st') !! key = Some s').
Proof.
  split.
  - intros env phase span phaseFailed c f st w' k w key name s0 Hf Hcb Hspec Hphase Hk.
    unfold keptnworkloadinstance.handlePhase, keptnworkloadinstance.getSpan,
      keptnworkloadinstance.recordEvent, keptnworkloadinstance.unbindSpan.
    unfold_engine. subst s0 name key. unfold keptnworkloadinstance.getSpanName.
    cbn in Hspec. cbn. fold w.
    destruct (bindCRDSpan (reconciler st) !! _) as [s|] eqn:Hl; cbn; fold w.
    all: rewrite Hf; cbn; fold w; rewrite Hcb; cbn.
    all: destruct k; try discriminate Hk; cbn.
    all: unfold WorkloadInstance.SetEndTime; cbn.
    all: try (destruct (WorkloadInstance.EndTime (WorkloadInstance.Status w')) eqn:Hend; cbn).
    all: rewrite ?Hspec, ?Hphase.
    all: destruct (String.eqb (WorkloadInstance.CurrentPhase _) (ShortName phase)) eqn:Hold;
      cbn.
    all: rewrite ?Hspec, ?Hphase, ?lookup_delete_eq, ?lookup_insert_eq; cbn.
    all: (split; [auto 15|]).
    all: try reflexivity.
    all: tail2; rewrite ?lookup_insert_eq; reflexivity.
  - intros env phase span phaseFailed c f st v' k v key s0 Hf Hcb Hspec Hphase Hk.
    unfold keptnappversion.handlePhase, keptnappversion.getSpan,
      keptnappversion.recordEvent, keptnappversion.unbindSpan.
    unfold_engine. subst s0 key. unfold keptnappversion.getSpanName.
    cbn in Hspec. cbn. fold v.
    destruct (bindCRDSpan (reconciler st) !! _) as [s|] eqn:Hl; cbn; fold v.
    all: rewrite Hf; cbn; fold v; rewrite Hcb; cbn.
    all: destruct k; try discriminate Hk; cbn.
    all: unfold AppVersion.SetEndTime; cbn.
    all: try (destruct (AppVersion.EndTime (AppVersion.Status v')) eqn:Hend; cbn).
    all: rewrite ?Hspec, ?Hphase.
    all: destruct (String.eqb (AppVersion.CurrentPhase _) (ShortName phase)) eqn:Hold;
      cbn.
    all: rewrite ?Hspec, ?Hphase, ?lookup_delete_eq, ?lookup_insert_eq; cbn.
    all: repeat match goal with
           | |- context [if ?b then _ else _] => destruct b eqn:?; cbn
           end.
    all: rewrite ?Hspec, ?Hphase, ?lookup_delete_eq, ?lookup_insert_eq; cbn.
    all: (split; [auto 15|]).
    all: try reflexivity.
    all: tail2; rewrite ?lookup_insert_eq; reflexivity.
Qed.

Lemma X10_witness :
  let '(l, st', _) :=
    keptnworkloadinstance.handlePhase
      (Sample.wliEnv Sample.wliFresh [Sample.appGo "1.2.0"] StateSucceeded)
      (PhaseWorkloadPreDeployment Sample.phases) 0%nat
      WorkloadInstance.IsPreDeploymentFailed
      (callback (CallPrePostDeployment PreDeploymentCheckType)
         (Sample.answer StateSucceeded))
      (holding Sample.wliFresh Sample.r0 0) in
  In (SpanEnd 0%nat) l
  /\ exists l1 s' o e,
       l = (l1 ++ [TracerStart "podtato-head-entry/WorkloadPreDeployTasks" s';
                   StatusUpdate o e])%list
       /\ bindCRDSpan (reconciler st')
            !! keptnworkloadinstance.getSpanName Sample.wliFresh "WorkloadPreDeployTasks"
          = Some s'.
Proof.
  exact (proj1 X10_finished_phase_span
           (Sample.wliEnv Sample.wliFresh [Sample.appGo "1.2.0"] StateSucceeded)
           (PhaseWorkloadPreDeployment Sample.phases) 0%nat
           WorkloadInstance.IsPreDeploymentFailed
           (CallPrePostDeployment PreDeploymentCheckType)
           (Sample.answer StateSucceeded)
           (holding Sample.wliFresh Sample.r0 0)
           (WorkloadInstance.setCurrentPhase "WorkloadPreDeployTasks" Sample.wliFresh)
           StateSucceeded eq_refl eq_refl eq_refl eq_refl eq_refl).
Defined.

(** X11: an unfinished phase and its span.  When the callback reports the
    phase neither succeeded nor failed (and leaves the spec and the current
    phase alone), the driver ends no span, the key of the phase is bound
    afterwards to the span the driver worked with, and a span is started
    only when none was bound for the phase: while a phase is in progress
    the reconciles that drive it share one span.  Both controllers. *)
Theorem X11_unfinished_phase_span :
  (forall env phase span phaseFailed c f st w' k,
     let w := WorkloadInstance.setCurrentPhase (ShortName phase) (object st) in
     let key := keptnworkloadinstance.getSpanName (object st) (ShortName phase) in
     let s0 := default (spanSeq (reconciler st)) (bindCRDSpan (reconciler st) !! key) in
     phaseFailed w = false ->
     f w = (w', (k, None)) ->
     WorkloadInstance.Spec w' = WorkloadInstance.Spec w ->
     WorkloadInstance.CurrentPhase (WorkloadInstance.Status w') = ShortName phase ->
     IsCompleted k = false ->
     let '(l, st', _) :=
       keptnworkloadinstance.handlePhase env phase span phaseFailed (callback c f) st in
     (forall s, ~ In (SpanEnd s) l)
     /\ bindCRDSpan (reconciler st') !! key = Some s0
     /\ (started l = [] <-> bindCRDSpan (reconciler st) !! key <> None))
  /\ (forall env phase span phaseFailed c f st v' k,
     let v := AppVersion.setCurrentPhase (ShortName phase) (object st) in
     let key := keptnappversion.getSpanName (object st) (ShortName phase) in
     let s0 := default (spanSeq (reconciler st)) (bindCRDSpan (reconciler st) !! key) in
     phaseFailed v = false ->
     f v = (v', (k, None)) ->
     AppVersion.Spec v' = AppVersion.Spec v ->
     AppVersion.CurrentPhase (AppVersion.Status v') = ShortName phase ->
     IsCompleted k = false ->
     let '(l, st', _) :=
       keptnappversion.handlePhase env phase span phaseFailed (callback c f) st in
     (forall s, ~ In (SpanEnd s) l)
     /\ bindCRDSpan (reconciler st') !! key = Some s0
     /\ (started l = [] <-> bindCRDSpan (reconciler st) !! key <> None)).
Proof.
  split.
  - intros env phase span phaseFailed c f st w' k w key s0 Hf Hcb Hspec Hphase Hk.
    unfold keptnworkloadinstance.handlePhase, keptnworkloadinstance.getSpan,
      keptnworkloadinstance.recordEvent, keptnworkloadinstance.unbindSpan.
    unfold_engine. subst s0 key. unfold keptnworkloadinstance.getSpanName.
    cbn in Hspec. cbn. fold w.
    destruct (bindCRDSpan (reconciler st) !! _) as [s|] eqn:Hl; cbn; fold w.
    all: rewrite Hf; cbn; fold w; rewrite Hcb; cbn.
    all: destruct k; try discriminate Hk; cbn.
    all: rewrite ?Hspec, ?Hphase.
    all: repeat match goal with
           | |- context [if ?b then _ else _] => destruct b eqn:?; cbn
           end.
    all: rewrite ?Hspec, ?Hphase, ?Hl, ?lookup_insert_eq; cbn.
    all: repeat match goal with
           | |- context [if ?b then _ else _] => destruct b eqn:?; cbn
           end.
    all: (split; [intros ?; intuition discriminate|]).
    all: (split; [rewrite ?lookup_insert_eq; assumption || reflexivity|]).
    all: split; intros; try reflexivity; try discriminate; congruence.
  - intros env phase span phaseFailed c f st v' k v key s0 Hf Hcb Hspec Hphase Hk.
    unfold keptnappversion.handlePhase, keptnappversion.getSpan,
      keptnappversion.recordEvent, keptnappversion.unbindSpan.
    unfold_engine. subst s0 key. unfold keptnappversion.getSpanName.
    cbn in Hspec. cbn. fold v.
    destruct (bindCRDSpan (reconciler st) !! _) as [s|] eqn:Hl; cbn; fold v.
    all: rewrite Hf; cbn; fold v; rewrite Hcb; cbn.
    all: destruct k; try discriminate Hk; cbn.
    all: rewrite ?Hspec, ?Hphase.
    all: repeat match goal with
           | |- context [if ?b then _ else _] => destruct b eqn:?; cbn
           end.
    all: rewrite ?Hspec, ?Hphase, ?Hl, ?lookup_insert_eq; cbn.
    all: repeat match goal with
           | |- context [if ?b then _ else _] => destruct b eqn:?; cbn
           end.
    all: (split; [intros ?; intuition discriminate|]).
    all: (split; [rewrite ?lookup_insert_eq; assumption || reflexivity|]).
    all: split; intros; try reflexivity; try discriminate; congruence.
Qed.

Lemma X11_witness :
  let '(l, st', _) :=
    keptnappversion.handlePhase (Sample.appEnv Sample.appFresh StateProgressing)
      (PhaseAppPreDeployment Sample.phases) 0%nat AppVersion.IsPreDeploymentFailed
      (callback (CallPrePostDeployment PreDeploymentCheckType)
         (Sample.answer StateProgressing))
      Sample.appFreshState in
  (forall s, ~ In (SpanEnd s) l)
  /\ bindCRDSpan (reconciler st')
       !! keptnappversion.getSpanName Sample.appFresh "AppPreDeployTasks" = Some 0%nat
  /\ (started l = [] <->
      bindCRDSpan Sample.r0
        !! keptnappversion.getSpanName Sample.appFresh "AppPreDeployTasks" <> None).
Proof.
  exact (proj2 X11_unfinished_phase_span
           (Sample.appEnv Sample.appFresh StateProgressing)
           (PhaseAppPreDeployment Sample.phases) 0%nat AppVersion.IsPreDeploymentFailed
           (CallPrePostDeployment PreDeploymentCheckType)
           (Sample.answer StateProgressing) Sample.appFreshState
           (AppVersion.setCurrentPhase "AppPreDeployTasks" Sample.appFresh)
           StateProgressing eq_refl eq_refl eq_refl eq_refl eq_refl).
Defined.

(** ** The phase driver: metrics and status writes *)

(** X12: what the driver counts.  [handlePhase] adds one to the counter
    exactly when its callback is called and reports, without error, that
    the phase has failed; in every other case it emits no metric, and it
    never records a duration.  Both controllers. *)
Theorem X12_driver_counts_failures :
  (forall env phase span phaseFailed c f st,
     let w := WorkloadInstance.setCurrentPhase (ShortName phase) (object st) in
     let '(l, _, _) :=
       keptnworkloadinstance.handlePhase env phase span phaseFailed (callback c f) st in
     metrics l
     = if negb (phaseFailed w) && no_error (snd (f w)) && IsFailed (fst (snd (f w)))
       then [CounterAdd 1] else [])
  /\ (forall env phase span phaseFailed c f st,
     let v := AppVersion.setCurrentPhase (ShortName phase) (object st) in
     let '(l, _, _) :=
       keptnappversion.handlePhase env phase span phaseFailed (callback c f) st in
     metrics l
     = if negb (phaseFailed v) && no_error (snd (f v)) && IsFailed (fst (snd (f v)))
       then [CounterAdd 1] else []).
Proof.
  split.
  - intros env phase span phaseFailed c f st w.
    unfold keptnworkloadinstance.handlePhase, keptnworkloadinstance.getSpan,
      keptnworkloadinstance.recordEvent, keptnworkloadinstance.unbindSpan, no_error.
    unfold_engine. cbn. fold w.
    destruct (bindCRDSpan (reconciler st) !! _) as [s|] eqn:Hl; cbn; fold w.
    all: destruct (phaseFailed w); cbn; [reflexivity|].
    all: destruct (f w) as [o [k [e|]]] eqn:Hf; cbn; [reflexivity|].
    all: destruct k; cbn.
    all: crunch; reflexivity.
  - intros env phase span phaseFailed c f st v.
    unfold keptnappversion.handlePhase, keptnappversion.getSpan,
      keptnappversion.recordEvent, keptnappversion.unbindSpan, no_error.
    unfold_engine. cbn. fold v.
    destruct (bindCRDSpan (reconciler st) !! _) as [s|] eqn:Hl; cbn; fold v.
    all: destruct (phaseFailed v); cbn; [reflexivity|].
    all: destruct (f v) as [o [k [e|]]] eqn:Hf; cbn; [reflexivity|].
    all: destruct k; cbn.
    all: crunch; reflexivity.
Qed.

(** X13: what the driver writes.  [handlePhase] writes the status at most
    once, the entity as it leaves it; it writes nothing when the phase has
    failed already or the callback returns an error; it always writes when
    the entity has entered another phase; and it writes nothing when the
    entity stays in its phase with the overall status in progress and the
    callback reports the phase unfinished, so a phase that is waiting
    causes no writes.  Both controllers. *)
Theorem X13_driver_status_writes :
  (forall env phase span phaseFailed c f st,
     let w := WorkloadInstance.setCurrentPhase (ShortName phase) (object st) in
     let '(l, st', _) :=
       keptnworkloadinstance.handlePhase env phase span phaseFailed (callback c f) st in
     (written l = [] \/ written l = [object st'])
     /\ (phaseFailed w = true -> written l = [])
     /\ (no_error (snd (f w)) = false -> written l = [])
     /\ (phaseFailed w = false -> no_error (snd (f w)) = true ->
         WorkloadInstance.CurrentPhase (WorkloadInstance.Status (fst (f w)))
         <> WorkloadInstance.CurrentPhase (WorkloadInstance.Status (object st)) ->
         written l = [object st'])
     /\ (phaseFailed w = false -> no_error (snd (f w)) = true ->
         IsCompleted (fst (snd (f w))) = false ->
         WorkloadInstance.CurrentPhase (WorkloadInstance.Status (fst (f w)))
         = WorkloadInstance.CurrentPhase (WorkloadInstance.Status (object st)) ->
         WorkloadInstance.OverallStatus (WorkloadInstance.Status (object st))
         = StateProgressing ->
         written l = []))
  /\ (forall env phase span phaseFailed c f st,
     let v := AppVersion.setCurrentPhase (ShortName phase) (object st) in
     let '(l, st', _) :=
       keptnappversion.handlePhase env phase span phaseFailed (callback c f) st in
     (written l = [] \/ written l = [object st'])
     /\ (phaseFailed v = true -> written l = [])
     /\ (no_error (snd (f v)) = false -> written l = [])
     /\ (phaseFailed v = false -> no_error (snd (f v)) = true ->
         AppVersion.CurrentPhase (AppVersion.Status (fst (f v)))
         <> AppVersion.CurrentPhase (AppVersion.Status (object st)) ->
         written l = [object st'])
     /\ (phaseFailed v = false -> no_error (snd (f v)) = true ->
         IsCompleted (fst (snd (f v))) = false ->
         AppVersion.CurrentPhase (AppVersion.Status (fst (f v)))
         = AppVersion.CurrentPhase (AppVersion.Status (object st)) ->
         AppVersion.OverallStatus (AppVersion.Status (object st)) = StateProgressing ->
         written l = [])).
Proof.
  split.
  - intros env phase span phaseFailed c f st w.
    unfold keptnworkloadinstance.handlePhase, keptnworkloadinstance.getSpan,
      keptnworkloadinstance.recordEvent, keptnworkloadinstance.unbindSpan, no_error.
    unfold_engine. cbn. fold w.
    destruct (bindCRDSpan (reconciler st) !! _) as [s|] eqn:Hl; cbn; fold w.
    all: destruct (phaseFailed w); cbn; [intuition discriminate|].
    all: destruct (f w) as [o [k [e|]]] eqn:Hf; cbn; [intuition discriminate|].
    all: destruct k; cbn.
    all: unfold WorkloadInstance.SetEndTime; cbn.
    all: try (destruct (WorkloadInstance.EndTime (WorkloadInstance.Status o)) eqn:Hend; cbn).
    all: try (destruct (WorkloadInstance.OverallStatus (WorkloadInstance.Status (object st)))
                eqn:Ho; cbn).
    all: crunch.
    all: eqb_strings.
    all: repeat split; auto; intros; try discriminate; try congruence.
  - intros env phase span phaseFailed c f st v.
    unfold keptnappversion.handlePhase, keptnappversion.getSpan,
      keptnappversion.recordEvent, keptnappversion.unbindSpan, no_error.
    unfold_engine. cbn. fold v.
    destruct (bindCRDSpan (reconciler st) !! _) as [s|] eqn:Hl; cbn; fold v.
    all: destruct (phaseFailed v); cbn; [intuition discriminate|].
    all: destruct (f v) as [o [k [e|]]] eqn:Hf; cbn; [intuition discriminate|].
    all: destruct k; cbn.
    all: unfold AppVersion.SetEndTime; cbn.
    all: try (destruct (AppVersion.EndTime (AppVersion.Status o)) eqn:Hend; cbn).
    all: try (destruct (AppVersion.OverallStatus (AppVersion.Status (object st)))
                eqn:Ho; cbn).
    all: crunch.
    all: eqb_strings.
    all: repeat split; auto; intros; try discriminate; try congruence.
Qed.

Lemma X13_witness :
  let '(l, _, _) :=
    keptnappversion.handlePhase (Sample.appEnv Sample.appFresh StateProgressing)
      (PhaseAppDeployment Sample.phases) 0%nat AppVersion.AreWorkloadsFailed
      (callback CallWorkloads (Sample.answer StateProgressing))
      (holding
         (Sample.app "1.2.0"
            (Sample.appStatus StateSucceeded StateSucceeded [StateProgressing]
               StatePending StatePending StateProgressing "AppDeploy" (Some 90) None))
         Sample.r0 0) in
  written l = [].
Proof.
  exact (proj2 (proj2 (proj2 (proj2 (proj2 X13_driver_status_writes
           (Sample.appEnv Sample.appFresh StateProgressing)
           (PhaseAppDeployment Sample.phases) 0%nat AppVersion.AreWorkloadsFailed
           CallWorkloads (Sample.answer StateProgressing)
           (holding
         (Sample.app "1.2.0"
            (Sample.appStatus StateSucceeded StateSucceeded [StateProgressing]
               StatePending StatePending StateProgressing "AppDeploy" (Some 90) None))
         Sample.r0 0)))))
         eq_refl eq_refl eq_refl eq_refl eq_refl).
Defined.

(** ** What a reconcile comes back with *)

Lemma metrics_app {E} (a b : list (Effect E)) :
  metrics (a ++ b)%list = (metrics a ++ metrics b)%list.
Proof. apply observe_app. Qed.

Lemma no_metric_app {E} (a b : list (Effect E)) :
  no_metric a -> no_metric b -> no_metric (a ++ b)%list.
Proof. unfold no_metric. rewrite metrics_app. intros -> ->. reflexivity. Qed.

Lemma outcome_app {E} waits error_waits (a b : list (Effect E)) d :
  no_metric a -> outcome waits error_waits b d -> outcome waits error_waits (a ++ b)%list d.
Proof. unfold no_metric, outcome. rewrite metrics_app. intros ->. cbn. auto. Qed.

Lemma outcome_frame {E} waits error_waits n s s' (l : list (Effect E)) d :
  outcome waits error_waits l d ->
  outcome waits error_waits (TracerStart n s :: l ++ [SpanEnd s'])%list d.
Proof.
  unfold outcome.
  change (metrics (TracerStart n s :: l ++ [SpanEnd s'])%list)
    with (metrics (l ++ [SpanEnd s'])%list).
  rewrite metrics_app. cbn. rewrite app_nil_r. auto.
Qed.

(** A statement meets the logic of outcomes when each of its runs does. *)
Lemma spec_runs {E A} waits error_waits (c : M E Directive A) :
  (forall st, match c st with
              | (l, _, Continue _) => no_metric l
              | (l, _, Return d) => outcome waits error_waits l d
              end) ->
  spec no_metric (outcome waits error_waits) (fun _ => True) c (fun _ _ => True).
Proof.
  intros H st _. specialize (H st). destruct (c st) as [[l st'] [a|d]]; auto.
Qed.

Section WorkloadInstanceOutcome.
Import WorkloadInstance keptnworkloadinstance.

Variable phases : Phases.
Variable env : Env.

Abbreviation OUT := (spec (@no_metric KeptnWorkloadInstance)
                       (outcome [5; 20; 60] [0; 10]) (fun _ => True)).

Lemma wli_handlePhase_outcome phase span phaseFailed c f st :
  let '(l, _, d) := handlePhase env phase span phaseFailed (callback c f) st in
  outcome [5; 20; 60] [0; 10] l d.
Proof.
  unfold handlePhase, getSpan, recordEvent, unbindSpan. unfold_engine. cbn.
  destruct (bindCRDSpan (reconciler st) !! _) as [s|] eqn:Hl; cbn.
  all: destruct (phaseFailed _); cbn; [outcome_done|].
  all: destruct (f _) as [o [k [e|]]] eqn:Hf; cbn; [outcome_done|].
  all: destruct k; cbn.
  all: crunch; outcome_done.
Qed.

Lemma wli_appGate_outcome span : OUT (appGate phases env span) (fun _ _ => True).
Proof.
  apply spec_runs. intros st. unfold appGate, recordEvent. unfold_engine. cbn.
  destruct (getAppVersionForWorkloadInstance env (object st)) as [[found av] [err|]];
    cbn; [outcome_done|].
  crunch; outcome_done.
Qed.

Lemma wli_prepare_outcome av :
  OUT (preparePreDeployment phases env av) (fun _ _ => True).
Proof.
  apply spec_runs. intros st.
  unfold preparePreDeployment, updateOrReturn, unbindSpan, getSpan, recordEvent.
  unfold_engine. crunch; outcome_done.
Qed.

Lemma wli_promote_outcome field set : OUT (promote env field set) (fun _ _ => True).
Proof.
  apply spec_runs. intros st. unfold promote, updateOrReturn. unfold_engine.
  crunch; outcome_done.
Qed.

Lemma wli_drive_outcome succeeded phase span phaseFailed c f :
  OUT (drive env succeeded phase span phaseFailed (callback c f)) (fun _ _ => True).
Proof.
  apply spec_runs. intros st. unfold drive.
  cbv [bind getObject call returnWith ret].
  destruct (succeeded (object st)); cbn; [reflexivity|].
  pose proof (wli_handlePhase_outcome phase span phaseFailed c f st) as H.
  destruct (handlePhase _ _ _ _ _ _) as [[l st'] d]. cbn.
  rewrite app_nil_r. exact H.
Qed.

Lemma wli_complete_outcome phase span :
  OUT (complete phases env phase span) (fun _ _ => False).
Proof.
  intros st _. unfold complete, recordEvent. unfold_engine.
  crunch; outcome_done.
Qed.

Lemma wli_outcome_app (a b : list (Effect KeptnWorkloadInstance)) d :
  no_metric a -> outcome [5; 20; 60] [0; 10] b d ->
  outcome [5; 20; 60] [0; 10] (a ++ b)%list d.
Proof. apply outcome_app. Qed.

Lemma wli_reconcileFound_outcome span :
  fspec (outcome [5; 20; 60] [0; 10]) (fun _ => True) (reconcileFound phases env span).
Proof.
  unfold reconcileFound, phaseSequence.
  apply spec_body with (LC := @no_metric KeptnWorkloadInstance).
  eapply spec_bind; [apply no_metric_app | apply wli_outcome_app | | intros ?; cbn beta].
  { apply spec_modify with (Q := fun _ _ => True); [reflexivity | auto]. }
  seq_with @spec_bind (@no_metric_app KeptnWorkloadInstance) wli_outcome_app wli_appGate_outcome.
  seq_with @spec_bind (@no_metric_app KeptnWorkloadInstance) wli_outcome_app wli_prepare_outcome.
  seq_with @spec_bind (@no_metric_app KeptnWorkloadInstance) wli_outcome_app wli_drive_outcome.
  seq_with @spec_bind (@no_metric_app KeptnWorkloadInstance) wli_outcome_app wli_promote_outcome.
  seq_with @spec_bind (@no_metric_app KeptnWorkloadInstance) wli_outcome_app wli_drive_outcome.
  seq_with @spec_bind (@no_metric_app KeptnWorkloadInstance) wli_outcome_app wli_promote_outcome.
  seq_with @spec_bind (@no_metric_app KeptnWorkloadInstance) wli_outcome_app wli_drive_outcome.
  seq_with @spec_bind (@no_metric_app KeptnWorkloadInstance) wli_outcome_app wli_promote_outcome.
  seq_with @spec_bind (@no_metric_app KeptnWorkloadInstance) wli_outcome_app wli_drive_outcome.
  seq_with @spec_bind (@no_metric_app KeptnWorkloadInstance) wli_outcome_app wli_promote_outcome.
  seq_with @spec_bind (@no_metric_app KeptnWorkloadInstance) wli_outcome_app wli_drive_outcome.
  apply wli_complete_outcome.
Qed.

End WorkloadInstanceOutcome.

Section AppVersionOutcome.
Import AppVersion keptnappversion.

Variable phases : Phases.
Variable env : Env.

Abbreviation OUT := (spec (@no_metric KeptnAppVersion)
                       (outcome [5; 60] [0]) (fun _ => True)).

Lemma app_outcome_app (a b : list (Effect KeptnAppVersion)) d :
  no_metric a -> outcome [5; 60] [0] b d -> outcome [5; 60] [0] (a ++ b)%list d.
Proof. apply outcome_app. Qed.

Lemma app_handlePhase_outcome phase span phaseFailed c f st :
  let '(l, _, d) := handlePhase env phase span phaseFailed (callback c f) st in
  outcome [5; 60] [0] l d.
Proof.
  unfold handlePhase, getSpan, recordEvent, unbindSpan. unfold_engine. cbn.
  destruct (bindCRDSpan (reconciler st) !! _) as [s|] eqn:Hl; cbn.
  all: destruct (phaseFailed _); cbn; [outcome_done|].
  all: destruct (f _) as [o [k [e|]]] eqn:Hf; cbn; [outcome_done|].
  all: destruct k; cbn.
  all: crunch; outcome_done.
Qed.

Lemma app_announce_outcome : OUT (announceStart phases) (fun _ _ => True).
Proof.
  apply spec_runs. intros st.
  unfold announceStart, unbindSpan, getSpan, recordEvent. unfold_engine.
  crunch; outcome_done.
Qed.

Lemma app_drive_outcome done phase span phaseFailed c f :
  OUT (drive env done phase span phaseFailed (callback c f)) (fun _ _ => True).
Proof.
  apply spec_runs. intros st. unfold drive.
  cbv [bind getObject call returnWith ret].
  destruct (done (object st)); cbn; [reflexivity|].
  pose proof (app_handlePhase_outcome phase span phaseFailed c f st) as H.
  destruct (handlePhase _ _ _ _ _ _) as [[l st'] d]. cbn.
  rewrite app_nil_r. exact H.
Qed.

Lemma app_complete_outcome phase span :
  OUT (complete phases env phase span) (fun _ _ => False).
Proof.
  intros st _. unfold complete, recordEvent. unfold_engine.
  crunch; outcome_done.
Qed.

Lemma app_reconcileFound_outcome span :
  fspec (outcome [5; 60] [0]) (fun _ => True) (reconcileFound phases env span).
Proof.
  unfold reconcileFound, phaseSequence.
  apply spec_body with (LC := @no_metric KeptnAppVersion).
  seq_with @spec_bind (@no_metric_app KeptnAppVersion) app_outcome_app app_announce_outcome.
  seq_with @spec_bind (@no_metric_app KeptnAppVersion) app_outcome_app app_drive_outcome.
  seq_with @spec_bind (@no_metric_app KeptnAppVersion) app_outcome_app app_drive_outcome.
  seq_with @spec_bind (@no_metric_app KeptnAppVersion) app_outcome_app app_drive_outcome.
  seq_with @spec_bind (@no_metric_app KeptnAppVersion) app_outcome_app app_drive_outcome.
  seq_with @spec_bind (@no_metric_app KeptnAppVersion) app_outcome_app app_drive_outcome.
  apply app_complete_outcome.
Qed.

End AppVersionOutcome.

(** X14: what a reconcile comes back with.  A reconcile of a workload
    instance is done (no requeue, no error), or waits 5, 20 or 60 seconds
    without error, or returns an error with no requeue, an immediate one or
    one after 10 seconds; a reconcile of an application version is done,
    waits 5 or 60 seconds, or returns an error with no requeue or an
    immediate one.  It emits the counter with a duration only when it is
    done, the counter alone only before a 5-second wait, and no metric in
    any other case, in particular never together with an error. *)
Theorem X14_reconcile_outcomes :
  (forall phases env r req,
     let '(l, _, d) := keptnworkloadinstance.Reconcile phases env r req in
     outcome [5; 20; 60] [0; 10] l d)
  /\ (forall phases env r req,
     let '(l, _, d) := keptnappversion.Reconcile phases env r req in
     outcome [5; 60] [0] l d).
Proof.
  split; intros phases env r req.
  - destruct (keptnworkloadinstance.Get env req) as [w| |err] eqn:Hget.
    + rewrite (wli_Reconcile_found phases env r req w Hget).
      pose proof (wli_reconcileFound_outcome phases env (spanSeq r)
        {| object := w;
           reconciler := {| bindCRDSpan := bindCRDSpan r; spanSeq := S (spanSeq r) |};
           updateSeq := 0 |} Logic.I) as H.
      destruct (keptnworkloadinstance.reconcileFound _ _ _ _) as [[l st] d].
      apply outcome_frame. exact H.
    + unfold keptnworkloadinstance.Reconcile. rewrite Hget. outcome_done.
    + unfold keptnworkloadinstance.Reconcile. rewrite Hget. outcome_done.
  - destruct (keptnappversion.Get env req) as [v| |err] eqn:Hget.
    + rewrite (app_Reconcile_found phases env r req v Hget).
      pose proof (app_reconcileFound_outcome phases env (spanSeq r)
        {| object := AppVersion.SetStartTime (keptnappversion.now env) v;
           reconciler := {| bindCRDSpan := bindCRDSpan r; spanSeq := S (spanSeq r) |};
           updateSeq := 0 |} Logic.I) as H.
      destruct (keptnappversion.reconcileFound _ _ _ _) as [[l st] d].
      apply outcome_frame. exact H.
    + unfold keptnappversion.Reconcile. rewrite Hget. outcome_done.
    + unfold keptnappversion.Reconcile. rewrite Hget. outcome_done.
Qed.

(** ** The resolver over any store *)

Lemma pick_again L a : pick (pick L a) a = pick L a.
Proof.
  assert (Ha : pick a a = a).
  { unfold pick. destruct (String.eqb (AppVersion.Version (AppVersion.Spec a)) "");
      [reflexivity|].
    destruct (semver.Compare _ _ <? 0); reflexivity. }
  unfold pick at 2 3.
  destruct (String.eqb (AppVersion.Version (AppVersion.Spec L)) "") eqn:HL;
    [exact Ha|].
  destruct (semver.Compare _ _ <? 0) eqn:Hc; [exact Ha|].
  unfold pick. rewrite HL, Hc. reflexivity.
Qed.

Lemma selectWorkload_pick w a ws L :
  fold_left (keptnworkloadinstance.selectWorkload w a) ws (pick L a) = pick L a.
Proof.
  induction ws as [|x ws IH]; [reflexivity|].
  cbn [fold_left]. unfold keptnworkloadinstance.selectWorkload at 2.
  destruct (_ && _); [|exact IH].
  fold (pick (pick L a) a). rewrite pick_again. exact IH.
Qed.

Lemma selectApp_pick w L a :
  keptnworkloadinstance.selectApp w L a = if wli_matches w a then pick L a else L.
Proof.
  unfold keptnworkloadinstance.selectApp, wli_matches.
  destruct (String.eqb _ _); [|reflexivity]. cbn [andb].
  induction (AppVersion.Workloads (AppVersion.Spec a)) as [|x ws IH] in L |- *;
    [reflexivity|].
  cbn [fold_left existsb].
  unfold keptnworkloadinstance.selectWorkload at 2.
  destruct (_ && _) eqn:Hx.
  - cbn [orb]. fold (pick L a). apply selectWorkload_pick.
  - cbn [orb]. apply IH.
Qed.

Lemma fold_left_filter {X Y} (p : X -> bool) (g : Y -> X -> Y) (l : list X) (acc : Y) :
  fold_left (fun y x => if p x then g y x else y) l acc
  = fold_left g (List.filter p l) acc.
Proof.
  revert acc. induction l as [|x l IH]; intros acc; [reflexivity|].
  cbn [fold_left List.filter]. destruct (p x); cbn [fold_left]; apply IH.
Qed.

(** The resolver is a fold of [pick] over the matching application
    versions of the namespace. *)
Lemma resolver_folds_pick env w :
  keptnworkloadinstance.listErr env = None ->
  keptnworkloadinstance.getAppVersionForWorkloadInstance env w
  = let latestVersion := fold_left pick (wli_hits env w) AppVersion.zero in
    if versioned latestVersion then (true, latestVersion, None)
    else (false, AppVersion.zero, None).
Proof.
  intros He.
  unfold keptnworkloadinstance.getAppVersionForWorkloadInstance,
    keptnworkloadinstance.List, wli_hits, wli_candidates, versioned.
  rewrite He. cbv zeta.
  rewrite (fold_left_pointwise (keptnworkloadinstance.selectApp w)
             (fun y x => if wli_matches w x then pick y x else y))
    by (intros; apply selectApp_pick).
  rewrite fold_left_filter.
  destruct (String.eqb _ _); reflexivity.
Qed.

Lemma Compare_empty v : (semver.Compare v "" <? 0) = false.
Proof. unfold semver.Compare. cbn. destruct (semver.parse v); reflexivity. Qed.

Lemma pick_versioned L a : versioned (pick L a) = versioned L || versioned a.
Proof.
  unfold pick, versioned.
  destruct (String.eqb (AppVersion.Version (AppVersion.Spec L)) "") eqn:HL;
    [reflexivity|].
  destruct (semver.Compare _ _ <? 0) eqn:Hc; [|rewrite HL; reflexivity].
  destruct (String.eqb_spec (AppVersion.Version (AppVersion.Spec a)) "") as [Ha|Ha];
    [|reflexivity].
  rewrite Ha, Compare_empty in Hc. discriminate.
Qed.

Lemma fold_pick_versioned l L :
  versioned (fold_left pick l L) = versioned L || existsb versioned l.
Proof.
  revert L. induction l as [|a l IH]; intros L; cbn [fold_left existsb].
  - symmetry. apply orb_false_r.
  - rewrite IH, pick_versioned, orb_assoc. reflexivity.
Qed.

Lemma fold_pick_in l L : fold_left pick l L = L \/ In (fold_left pick l L) l.
Proof.
  revert L. induction l as [|a l IH]; intros L; cbn [fold_left]; [auto|].
  destruct (IH (pick L a)) as [H|H]; [|right; right; exact H].
  rewrite H. unfold pick.
  destruct (String.eqb _ _); [right; left; reflexivity|].
  destruct (_ <? 0); [right; left; reflexivity | left; reflexivity].
Qed.

(** X15: what the resolver finds.  When the store lists the application
    versions, [getAppVersionForWorkloadInstance] finds one exactly when
    some application version of the instance's namespace has the
    instance's application name, lists the workload at the instance's
    version, and carries a non-empty version of its own; what it returns is
    then one of these.  A matching application version with an empty
    version is never returned: with only such matches, or none, the answer
    is not-found with the zero value and no error.  When the store cannot
    list, the answer is not-found with the store's error. *)
Theorem X15_resolver_finds_a_versioned_match env w :
  (keptnworkloadinstance.listErr env = None ->
   let '(found, app, err) :=
     keptnworkloadinstance.getAppVersionForWorkloadInstance env w in
   err = None
   /\ found = existsb versioned (wli_hits env w)
   /\ if found then
        In app (keptnworkloadinstance.appVersions env)
        /\ AppVersion.Namespace app = WorkloadInstance.Namespace w
        /\ wli_matches w app = true
        /\ AppVersion.Version (AppVersion.Spec app) <> ""
      else app = AppVersion.zero)
  /\ (forall e, keptnworkloadinstance.listErr env = Some e ->
      keptnworkloadinstance.getAppVersionForWorkloadInstance env w
      = (false, AppVersion.zero, Some e)).
Proof.
  split.
  - intros He. rewrite (resolver_folds_pick env w He). cbv zeta.
    pose proof (fold_pick_versioned (wli_hits env w) AppVersion.zero) as Hv.
    cbn [orb] in Hv. change (versioned AppVersion.zero) with false in Hv.
    cbn [orb] in Hv.
    destruct (versioned (fold_left pick (wli_hits env w) AppVersion.zero)) eqn:Hf.
    + split; [reflexivity|]. split; [exact Hv|].
      destruct (fold_pick_in (wli_hits env w) AppVersion.zero) as [H|H].
      * rewrite H in Hf. discriminate.
      * unfold wli_hits, wli_candidates in H.
        apply filter_In in H as [H Hm]. apply filter_In in H as [H Hn].
        repeat split; try assumption.
        -- apply String.eqb_eq. exact Hn.
        -- unfold versioned in Hf. apply negb_true_iff, String.eqb_neq in Hf. exact Hf.
    + repeat split. exact Hv.
  - intros e He. unfold keptnworkloadinstance.getAppVersionForWorkloadInstance,
      keptnworkloadinstance.List. rewrite He. reflexivity.
Qed.

Lemma X15_witness :
  let '(found, app, err) :=
    keptnworkloadinstance.getAppVersionForWorkloadInstance
      (Sample.wliEnv Sample.wliFresh [Sample.appGo ""; Sample.appGo "v1.2.0"]
         StateProgressing) Sample.wliFresh in
  err = None
  /\ found = true
  /\ if found then
       In app [Sample.appGo ""; Sample.appGo "v1.2.0"]
       /\ AppVersion.Namespace app = "default"
       /\ wli_matches Sample.wliFresh app = true
       /\ AppVersion.Version (AppVersion.Spec app) <> ""
     else app = AppVersion.zero.
Proof.
  exact (proj1 (X15_resolver_finds_a_versioned_match
           (Sample.wliEnv Sample.wliFresh [Sample.appGo ""; Sample.appGo "v1.2.0"]
              StateProgressing) Sample.wliFresh) eq_refl).
Defined.

Lemma last_default {X} (x : X) (l : list X) (d d' : X) :
  List.last (x :: l) d = List.last (x :: l) d'.
Proof.
  revert x. induction l as [|y l IH]; intros x; [reflexivity|].
  change (List.last (y :: l) d = List.last (y :: l) d'). apply IH.
Qed.

Lemma fold_pick_unprefixed l L :
  semver.startsWith "v" (AppVersion.Version (AppVersion.Spec L)) = false ->
  Forall (fun a =>
    semver.startsWith "v" (AppVersion.Version (AppVersion.Spec a)) = false) l ->
  fold_left pick l L
  = if versioned L then L
    else match List.find versioned l with Some a => a | None => List.last l L end.
Proof.
  intros HL Hl. revert L HL.
  induction Hl as [|a l Ha Hl IH]; intros L HL; cbn [fold_left List.find].
  - destruct (versioned L); reflexivity.
  - assert (Hp : pick L a = if versioned L then L else a).
    { unfold pick, versioned.
      destruct (String.eqb (AppVersion.Version (AppVersion.Spec L)) ""); cbn [negb];
        [reflexivity|].
      rewrite (Compare_unprefixed _ _ HL Ha). reflexivity. }
    rewrite Hp. destruct (versioned L) eqn:HvL.
    + rewrite (IH L HL), HvL. reflexivity.
    + rewrite (IH a Ha). destruct (versioned a) eqn:Hva; [reflexivity|].
      destruct (List.find versioned l); [reflexivity|].
      destruct l as [|k l]; [reflexivity|].
      symmetry. change (List.last (k :: l) L = List.last (k :: l) a).
      apply last_default.
Qed.

(** X16: versions without the leading [v].  When no matching application
    version carries a version that starts with [v], every pair of them is
    equal to [semver.Compare], and the resolver returns the first matching
    application version with a non-empty version, in the order the store
    lists them, whatever the versions are. *)
Theorem X16_resolver_keeps_first_without_prefix env w :
  keptnworkloadinstance.listErr env = None ->
  Forall (fun a =>
    semver.startsWith "v" (AppVersion.Version (AppVersion.Spec a)) = false)
    (wli_hits env w) ->
  keptnworkloadinstance.getAppVersionForWorkloadInstance env w
  = match List.find versioned (wli_hits env w) with
    | Some a => (true, a, None)
    | None => (false, AppVersion.zero, None)
    end.
Proof.
  intros He Hl. rewrite (resolver_folds_pick env w He). cbv zeta.
  destruct (List.find versioned (wli_hits env w)) as [a|] eqn:Hf.
  - rewrite (fold_pick_unprefixed _ AppVersion.zero eq_refl Hl), Hf.
    change (versioned AppVersion.zero) with false. cbv iota.
    apply find_some in Hf as [_ Hv]. rewrite Hv. reflexivity.
  - pose proof (fold_pick_versioned (wli_hits env w) AppVersion.zero) as Hv.
    change (versioned AppVersion.zero) with false in Hv. cbn [orb] in Hv.
    rewrite Hv.
    destruct (existsb versioned (wli_hits env w)) eqn:Hx; [|reflexivity].
    apply existsb_exists in Hx as [a [Hin Ha]].
    pose proof (find_none _ _ Hf a Hin) as Hn. congruence.
Qed.

Lemma X16_witness :
  keptnworkloadinstance.getAppVersionForWorkloadInstance
    (Sample.wliEnv Sample.wliFresh
       [Sample.appGo "2.0.0-rc.1"; Sample.appGo "2.0.0"; Sample.appGo "10.0.0"]
       StateProgressing) Sample.wliFresh
  = (true, Sample.appGo "2.0.0-rc.1", None).
Proof.
  exact (X16_resolver_keeps_first_without_prefix
           (Sample.wliEnv Sample.wliFresh
              [Sample.appGo "2.0.0-rc.1"; Sample.appGo "2.0.0"; Sample.appGo "10.0.0"]
              StateProgressing) Sample.wliFresh eq_refl
           ltac:(repeat constructor)).
Defined.

(** *** [semver.Compare] is a total preorder *)

Lemma string_compare_refl (x : string) : String.compare x x = Eq.
Proof.
  induction x as [|c x IH]; [reflexivity|].
  cbn. unfold Ascii.compare. rewrite N.compare_refl. exact IH.
Qed.

Lemma string_compare_trans (x y z : string) :
  String.compare x y = Lt -> String.compare y z = Lt -> String.compare x z = Lt.
Proof.
  revert y z. induction x as [|a x IH]; intros [|b y] [|c z]; cbn; try discriminate;
    try reflexivity.
  destruct (Ascii.compare a b) eqn:Hab; try discriminate.
  - apply Ascii.compare_eq_iff in Hab as ->.
    destruct (Ascii.compare b c); try discriminate; eauto.
  - intros _. destruct (Ascii.compare b c) eqn:Hbc; try discriminate.
    + apply Ascii.compare_eq_iff in Hbc as <-. rewrite Hab. reflexivity.
    + intros _. unfold Ascii.compare in *.
      apply N.compare_lt_iff in Hab. apply N.compare_lt_iff in Hbc.
      assert (H : (N_of_ascii a ?= N_of_ascii c)%N = Lt)
        by (apply N.compare_lt_iff; eapply N.lt_trans; eassumption).
      rewrite H. reflexivity.
Qed.

Lemma ltb_trans (x y z : string) :
  String.ltb x y = true -> String.ltb y z = true -> String.ltb x z = true.
Proof.
  unfold String.ltb. intros Hxy Hyz.
  destruct (String.compare x y) eqn:H1; try discriminate.
  destruct (String.compare y z) eqn:H2; try discriminate.
  rewrite (string_compare_trans x y z H1 H2). reflexivity.
Qed.

Lemma ltb_flip (x y : string) : x <> y -> String.ltb y x = negb (String.ltb x y).
Proof.
  intros Hne. unfold String.ltb. rewrite (String.compare_antisym y x).
  destruct (String.compare x y) eqn:H; try reflexivity.
  apply String.compare_eq_iff in H. contradiction.
Qed.

Lemma ltb_irrefl (x : string) : String.ltb x x = false.
Proof. unfold String.ltb. rewrite string_compare_refl. reflexivity. Qed.

Lemma compareInt_lt (x y : string) :
  semver.compareInt x y = -1 <->
  (String.length x < String.length y)%nat
  \/ (String.length x = String.length y /\ String.ltb x y = true).
Proof.
  unfold semver.compareInt.
  destruct (String.eqb_spec x y) as [->|Hne].
  - rewrite ltb_irrefl. split; [discriminate|]. intros [H|[_ H]]; [lia|discriminate].
  - destruct (Nat.ltb_spec (String.length x) (String.length y)) as [Hl|Hl];
      [split; auto|].
    destruct (Nat.ltb_spec (String.length y) (String.length x)) as [Hg|Hg].
    + split; [discriminate|]. intros [H|[H _]]; lia.
    + destruct (String.ltb x y); split; auto; try discriminate.
      * intros _. right. split; [lia|reflexivity].
      * intros [H|[_ H]]; [lia|discriminate].
Qed.

Lemma compareInt_order : is_order (fun _ => True) semver.compareInt.
Proof.
  unfold is_order. split; [|split; [|split]].
  - intros x y _ _. unfold semver.compareInt.
    destruct (String.eqb_spec x y) as [->|Hne]; [tauto|].
    split; [|contradiction].
    destruct (Nat.ltb _ _); [discriminate|]. destruct (Nat.ltb _ _); [discriminate|].
    destruct (String.ltb x y); discriminate.
  - intros x y _ _. unfold semver.compareInt. destruct (String.eqb x y); auto.
    destruct (Nat.ltb _ _); auto. destruct (Nat.ltb _ _); auto.
    destruct (String.ltb x y); auto.
  - intros x y _ _. unfold semver.compareInt.
    destruct (String.eqb_spec x y) as [->|Hne].
    + rewrite String.eqb_refl. reflexivity.
    + destruct (String.eqb_spec y x) as [->|_]; [contradiction|].
      destruct (Nat.ltb_spec (String.length x) (String.length y));
        destruct (Nat.ltb_spec (String.length y) (String.length x)); try lia;
        try reflexivity.
      rewrite (ltb_flip x y Hne). destruct (String.ltb x y); reflexivity.
  - intros x y z _ _ _. rewrite !compareInt_lt.
    intros [H1|[H1 L1]] [H2|[H2 L2]]; try (left; lia).
    right. split; [lia|]. exact (ltb_trans x y z L1 L2).
Qed.

Lemma cmpIdent_lt (x y : string) :
  cmpIdent x y = -1 <->
  (semver.isNum x = true /\ semver.isNum y = false)
  \/ (semver.isNum x = true /\ semver.isNum y = true /\ semver.compareInt x y = -1)
  \/ (semver.isNum x = false /\ semver.isNum y = false /\ String.ltb x y = true).
Proof.
  unfold cmpIdent. rewrite compareInt_lt.
  destruct (String.eqb_spec x y) as [->|Hne].
  - rewrite ltb_irrefl. split; [discriminate|].
    intros [[H1 H2]|[(_ & _ & [H|[_ H]])|(_ & _ & H)]]; try congruence; lia.
  - destruct (semver.isNum x), (semver.isNum y); cbn [negb Bool.eqb andb].
    + destruct (Nat.ltb_spec (String.length x) (String.length y)) as [Hl|Hl];
        [split; [intros _; right; left; auto | reflexivity]|].
      destruct (Nat.ltb_spec (String.length y) (String.length x)) as [Hg|Hg].
      * split; [discriminate|].
        intros [[_ H]|[(_ & _ & [H|[H _]])|(H & _)]]; try discriminate; lia.
      * destruct (String.ltb x y); split; auto; try discriminate.
        -- intros _. right. left. repeat split. right. split; [lia|reflexivity].
        -- intros [[_ H]|[(_ & _ & [H|[_ H]])|(H & _)]]; try discriminate; lia.
    + split; auto.
    + split; [discriminate|].
      intros [[H _]|[(H & _)|(_ & H & _)]]; discriminate.
    + destruct (String.ltb x y); split; auto; try discriminate.
      intros [[H _]|[(H & _)|(_ & _ & H)]]; discriminate.
Qed.

Lemma cmpIdent_order : is_order (fun _ => True) cmpIdent.
Proof.
  unfold is_order. split; [|split; [|split]].
  - intros x y _ _. unfold cmpIdent.
    destruct (String.eqb_spec x y) as [->|Hne]; [tauto|].
    split; [|contradiction].
    repeat match goal with
      | |- context [if ?b then _ else _] => destruct b
      end; discriminate.
  - intros x y _ _. unfold cmpIdent.
    repeat match goal with
      | |- context [if ?b then _ else _] => destruct b
      end; auto.
  - intros x y _ _. unfold cmpIdent.
    destruct (String.eqb_spec x y) as [->|Hne].
    + rewrite String.eqb_refl. reflexivity.
    + destruct (String.eqb_spec y x) as [->|_]; [contradiction|].
      destruct (semver.isNum x), (semver.isNum y); cbn [negb Bool.eqb andb];
        try reflexivity.
      * destruct (Nat.ltb_spec (String.length x) (String.length y));
          destruct (Nat.ltb_spec (String.length y) (String.length x)); try lia;
          try reflexivity.
        rewrite (ltb_flip x y Hne). destruct (String.ltb x y); reflexivity.
      * rewrite (ltb_flip x y Hne). destruct (String.ltb x y); reflexivity.
  - intros x y z _ _ _. rewrite !cmpIdent_lt.
    destruct compareInt_order as (_ & _ & _ & Htrans).
    intros [[X1 Y1]|[(X1 & Y1 & H1)|(X1 & Y1 & H1)]]
           [[Y2 Z2]|[(Y2 & Z2 & H2)|(Y2 & Z2 & H2)]]; try congruence.
    + left. auto.
    + left. auto.
    + right. left. repeat split; auto. exact (Htrans x y z Logic.I Logic.I Logic.I H1 H2).
    + right. right. repeat split; auto. exact (ltb_trans x y z H1 H2).
Qed.

(** The loop of [comparePrerelease]. *)

Lemma nextIdent_splits (x : string) :
  x = fst (semver.nextIdent x) ++ snd (semver.nextIdent x)
  /\ (snd (semver.nextIdent x) = "" \/ semver.startsWith "." (snd (semver.nextIdent x)) = true)
  /\ (String.length (snd (semver.nextIdent x)) <= String.length x)%nat.
Proof.
  induction x as [|c x IH]; [cbn; auto|].
  cbn [semver.nextIdent]. destruct (Ascii.eqb c ".") eqn:Hc.
  - cbn. rewrite Hc. auto.
  - destruct (semver.nextIdent x) as [dx r]. cbn in *.
    destruct IH as (H1 & H2 & H3). repeat split; auto.
    change (String c x = String c (dx ++ r)). congruence.
Qed.

Lemma loop_fuel (n m : nat) (x y : string) :
  (String.length x <= n)%nat -> (String.length x <= m)%nat ->
  semver.comparePrereleaseLoop n x y = semver.comparePrereleaseLoop m x y.
Proof.
  revert m x y. induction n as [|n IH]; intros m x y Hn Hm.
  - destruct x; [|cbn in Hn; lia]. destruct m; reflexivity.
  - destruct x as [|a x]; [destruct m; reflexivity|].
    destruct y as [|b y]; [destruct m; reflexivity|].
    destruct m as [|m]; [cbn in Hm; lia|].
    cbn [semver.comparePrereleaseLoop String.eqb orb semver.tail].
    pose proof (nextIdent_splits x) as (_ & _ & Hx).
    destruct (semver.nextIdent x) as [dx x'], (semver.nextIdent y) as [dy y'].
    destruct (negb (String.eqb dx dy)); [reflexivity|].
    cbn in *. apply IH; lia.
Qed.

Lemma ploop_step a x b y :
  ploop (String a x) (String b y)
  = if String.eqb (fst (semver.nextIdent x)) (fst (semver.nextIdent y))
    then ploop (snd (semver.nextIdent x)) (snd (semver.nextIdent y))
    else cmpIdent (fst (semver.nextIdent x)) (fst (semver.nextIdent y)).
Proof.
  unfold ploop. cbn [String.length semver.comparePrereleaseLoop String.eqb orb semver.tail].
  pose proof (nextIdent_splits x) as (_ & _ & Hx).
  destruct (semver.nextIdent x) as [dx x'], (semver.nextIdent y) as [dy y']. cbn [fst snd] in *.
  unfold cmpIdent.
  destruct (String.eqb dx dy); cbn [negb]; [|reflexivity].
  apply loop_fuel; lia.
Qed.

Lemma ploop_nil_l y : ploop "" y = -1.
Proof. reflexivity. Qed.

Lemma ploop_nil_r a x : ploop (String a x) "" = 1.
Proof. reflexivity. Qed.

Lemma sameHead_rests (x y : string) :
  sameHead (snd (semver.nextIdent x)) (snd (semver.nextIdent y)).
Proof.
  pose proof (nextIdent_splits x) as (_ & [Hx|Hx] & _);
    pose proof (nextIdent_splits y) as (_ & [Hy|Hy] & _).
  - rewrite Hx. exact Logic.I.
  - rewrite Hx. exact Logic.I.
  - rewrite Hy. destruct (snd (semver.nextIdent x)); exact Logic.I.
  - destruct (snd (semver.nextIdent x)) as [|a r]; [exact Logic.I|].
    destruct (snd (semver.nextIdent y)) as [|b s]; [exact Logic.I|].
    cbn in *. apply Ascii.eqb_eq in Hx, Hy. congruence.
Qed.

Lemma rests_differ (x y : string) :
  x <> y -> fst (semver.nextIdent x) = fst (semver.nextIdent y) ->
  snd (semver.nextIdent x) <> snd (semver.nextIdent y).
Proof.
  intros Hne Hd Hr. apply Hne.
  rewrite (proj1 (nextIdent_splits x)), (proj1 (nextIdent_splits y)). congruence.
Qed.

Lemma ploop_range (x y : string) : ploop x y = -1 \/ ploop x y = 1.
Proof.
  remember (String.length x) as n eqn:Hn.
  assert (Hle : (String.length x <= n)%nat) by lia. clear Hn.
  revert x y Hle. induction n as [|n IH]; intros x y Hle.
  - destruct x; [auto | cbn in Hle; lia].
  - destruct x as [|a x]; [auto|]. destruct y as [|b y]; [auto|].
    rewrite ploop_step.
    destruct (String.eqb_spec (fst (semver.nextIdent x)) (fst (semver.nextIdent y)))
      as [He|He].
    + apply IH. pose proof (nextIdent_splits x) as (_ & _ & H). cbn in Hle. lia.
    + destruct cmpIdent_order as (H0 & Hr & _).
      destruct (Hr (fst (semver.nextIdent x)) (fst (semver.nextIdent y)) Logic.I Logic.I)
        as [H|[H|H]]; auto.
      apply H0 in H; auto. contradiction.
Qed.

Lemma ploop_flip (x y : string) :
  x <> y -> sameHead x y -> ploop y x = - ploop x y.
Proof.
  remember (String.length x) as n eqn:Hn.
  assert (Hle : (String.length x <= n)%nat) by lia. clear Hn.
  revert x y Hle. induction n as [|n IH]; intros x y Hle Hne Hs.
  - destruct x; [|cbn in Hle; lia]. destruct y; [contradiction|reflexivity].
  - destruct x as [|a x]; [destruct y; [contradiction|reflexivity]|].
    destruct y as [|b y]; [reflexivity|].
    cbn in Hs. subst b. rewrite !ploop_step.
    assert (Hxy : x <> y) by congruence.
    destruct (String.eqb_spec (fst (semver.nextIdent x)) (fst (semver.nextIdent y)))
      as [He|He].
    + rewrite He, String.eqb_refl. apply IH.
      * pose proof (nextIdent_splits x) as (_ & _ & H). cbn in Hle. lia.
      * apply rests_differ; assumption.
      * apply sameHead_rests.
    + destruct (String.eqb_spec (fst (semver.nextIdent y)) (fst (semver.nextIdent x)))
        as [He'|_]; [congruence|].
      destruct cmpIdent_order as (_ & _ & Hf & _). apply Hf; exact Logic.I.
Qed.

Lemma ploop_trans (x y z : string) :
  x <> y -> y <> z -> sameHead x y -> sameHead y z -> sameHead x z ->
  ploop x y = -1 -> ploop y z = -1 -> ploop x z = -1.
Proof.
  remember (String.length x) as n eqn:Hn.
  assert (Hle : (String.length x <= n)%nat) by lia. clear Hn.
  revert x y z Hle. induction n as [|n IH]; intros x y z Hle Hxy Hyz S1 S2 S3 H1 H2.
  - destruct x; [reflexivity | cbn in Hle; lia].
  - destruct x as [|a x]; [reflexivity|].
    destruct y as [|b y]; [discriminate H1|].
    destruct z as [|c z]; [discriminate H2|].
    cbn in S1, S2. subst b c.
    rewrite ploop_step in *.
    assert (Hxy' : x <> y) by congruence. assert (Hyz' : y <> z) by congruence.
    destruct cmpIdent_order as (H0 & _ & _ & Ht).
    destruct (String.eqb_spec (fst (semver.nextIdent x)) (fst (semver.nextIdent y)))
      as [E1|E1];
      destruct (String.eqb_spec (fst (semver.nextIdent y)) (fst (semver.nextIdent z)))
        as [E2|E2].
    + rewrite E1, E2, String.eqb_refl.
      apply (IH _ (snd (semver.nextIdent y))); auto using sameHead_rests, rests_differ.
      pose proof (nextIdent_splits x) as (_ & _ & H). cbn in Hle. lia.
    + rewrite E1. destruct (String.eqb_spec (fst (semver.nextIdent y))
                              (fst (semver.nextIdent z))); [contradiction|assumption].
    + rewrite <- E2. destruct (String.eqb_spec (fst (semver.nextIdent x))
                                 (fst (semver.nextIdent y))); [contradiction|assumption].
    + pose proof (Ht _ _ _ Logic.I Logic.I Logic.I H1 H2) as H3.
      destruct (String.eqb_spec (fst (semver.nextIdent x)) (fst (semver.nextIdent z)))
        as [E3|_]; [|exact H3].
      apply (H0 _ _ Logic.I Logic.I) in E3. rewrite E3 in H3. discriminate.
Qed.

(** *** [comparePrerelease] orders the pre-release strings of parsed
    versions: the empty one and those that start with a hyphen *)

Lemma shaped_sameHead (x y : string) :
  prerelease_shaped x -> prerelease_shaped y -> sameHead x y.
Proof.
  intros [->|Hx] [->|Hy]; try exact Logic.I.
  - destruct x; exact Logic.I.
  - destruct x as [|a x]; [exact Logic.I|]. destruct y as [|b y]; [exact Logic.I|].
    cbn in *. apply Ascii.eqb_eq in Hx, Hy. congruence.
Qed.

Lemma comparePrerelease_ploop (x y : string) :
  semver.comparePrerelease x y
  = if String.eqb x y then 0
    else if String.eqb x "" then 1
    else if String.eqb y "" then -1
    else ploop x y.
Proof. reflexivity. Qed.

Lemma comparePrerelease_order : is_order prerelease_shaped semver.comparePrerelease.
Proof.
  unfold is_order. split; [|split; [|split]].
  - intros x y _ _. rewrite comparePrerelease_ploop.
    destruct (String.eqb_spec x y) as [->|Hne]; [tauto|].
    split; [|contradiction].
    destruct (String.eqb x ""); [discriminate|].
    destruct (String.eqb y ""); [discriminate|].
    destruct (ploop_range x y) as [-> | ->]; discriminate.
  - intros x y _ _. rewrite comparePrerelease_ploop.
    destruct (String.eqb x y); auto. destruct (String.eqb x ""); auto.
    destruct (String.eqb y ""); auto.
    destruct (ploop_range x y) as [-> | ->]; auto.
  - intros x y Dx Dy. rewrite !comparePrerelease_ploop.
    destruct (String.eqb_spec x y) as [->|Hne].
    + rewrite String.eqb_refl. reflexivity.
    + destruct (String.eqb_spec y x) as [->|_]; [contradiction|].
      destruct (String.eqb_spec x "") as [->|Hx].
      * destruct (String.eqb_spec y "") as [->|Hy]; [contradiction|reflexivity].
      * destruct (String.eqb_spec y "") as [->|Hy]; [reflexivity|].
        apply ploop_flip; [assumption|]. apply shaped_sameHead; assumption.
  - intros x y z Dx Dy Dz. rewrite !comparePrerelease_ploop.
    destruct (String.eqb_spec x y) as [->|Hxy]; [discriminate|].
    destruct (String.eqb_spec y z) as [->|Hyz]; [discriminate|].
    destruct (String.eqb_spec x "") as [->|Hx]; [discriminate|].
    destruct (String.eqb_spec y "") as [->|Hy].
    + intros _. discriminate.
    + destruct (String.eqb_spec z "") as [->|Hz].
      * intros _ _. destruct (String.eqb_spec x ""); [contradiction|reflexivity].
      * intros H1 H2.
        pose proof (ploop_trans x y z Hxy Hyz (shaped_sameHead _ _ Dx Dy)
                      (shaped_sameHead _ _ Dy Dz) (shaped_sameHead _ _ Dx Dz) H1 H2) as H3.
        destruct (String.eqb_spec x z) as [->|Hxz]; [|exact H3].
        rewrite (ploop_flip z y) in H2 by (auto using shaped_sameHead).
        rewrite H1 in H2. discriminate.
Qed.

Lemma append_startsWith c (t u : string) :
  semver.startsWith c t = true -> semver.startsWith c (t ++ u) = true.
Proof. destruct t; [discriminate | auto]. Qed.

Lemma prereleaseLoop_keeps_head c v ident taken t rest :
  semver.startsWith c taken = true ->
  semver.prereleaseLoop v ident taken = Some (t, rest) ->
  semver.startsWith c t = true.
Proof.
  revert ident taken. induction v as [|a v IH]; intros ident taken Ht; cbn.
  - destruct (_ || _); [discriminate|]. intros [= <- _]. exact Ht.
  - destruct (Ascii.eqb a "+").
    + destruct (_ || _); [discriminate|]. intros [= <- _]. exact Ht.
    + destruct (negb (semver.isIdentChar a) && negb (Ascii.eqb a ".")); [discriminate|].
      destruct (Ascii.eqb a ".").
      * destruct (_ || _); [discriminate|]. apply IH. apply append_startsWith, Ht.
      * apply IH. apply append_startsWith, Ht.
Qed.

Lemma parseSuffix_shaped ma mi pa v pv :
  semver.parseSuffix ma mi pa v = Some pv -> prerelease_shaped (semver.prerelease pv).
Proof.
  unfold semver.parseSuffix.
  destruct (semver.startsWith "-" v) eqn:Hs.
  - destruct (semver.parsePrerelease v) as [[pre rest]|] eqn:Hp; [|discriminate].
    assert (Hpre : semver.startsWith "-" pre = true).
    { unfold semver.parsePrerelease in Hp.
      destruct v as [|a v]; [discriminate|].
      destruct a as [[] [] [] [] [] [] [] []]; try discriminate.
      exact (prereleaseLoop_keeps_head "-" v "" "-" pre rest eq_refl Hp). }
    destruct (if semver.startsWith "+" rest then _ else _) as [[bld r]|]; [|discriminate].
    destruct (String.eqb r ""); [|discriminate].
    intros [= <-]. right. exact Hpre.
  - destruct (if semver.startsWith "+" v then _ else _) as [[bld r]|]; [|discriminate].
    destruct (String.eqb r ""); [|discriminate].
    intros [= <-]. left. reflexivity.
Qed.

Lemma parse_shaped v pv :
  semver.parse v = Some pv -> prerelease_shaped (semver.prerelease pv).
Proof.
  unfold semver.parse. destruct v as [|a v]; [discriminate|].
  destruct a as [[] [] [] [] [] [] [] []]; try discriminate.
  destruct (semver.parseInt v) as [[ma v1]|]; [|discriminate].
  destruct (String.eqb v1 ""); [intros [= <-]; left; reflexivity|].
  destruct (negb (semver.startsWith "." v1)); [discriminate|].
  destruct (semver.parseInt (semver.tail v1)) as [[mi v2]|]; [|discriminate].
  destruct (String.eqb v2 ""); [intros [= <-]; left; reflexivity|].
  destruct (negb (semver.startsWith "." v2)); [discriminate|].
  destruct (semver.parseInt (semver.tail v2)) as [[pa v3]|]; [|discriminate].
  apply parseSuffix_shaped.
Qed.

(** *** Lexicographic products and [Compare] *)

Lemma lex_order {X Y} (D1 : X -> Prop) (D2 : Y -> Prop) c d :
  is_order D1 c -> is_order D2 d -> is_order (both D1 D2) (lex c d).
Proof.
  intros (c0 & cr & cf & ct) (d0 & dr & df & dt).
  unfold is_order, lex, both. split; [|split; [|split]].
  - intros [x1 x2] [y1 y2] [Hx1 Hx2] [Hy1 Hy2]. cbn [fst snd] in *.
    destruct (Z.eqb_spec (c x1 y1) 0) as [E|E]; cbn [negb].
    + rewrite (d0 x2 y2 Hx2 Hy2). apply (c0 x1 y1 Hx1 Hy1) in E. subst y1.
      split; [intros ->; reflexivity | intros [= ->]; reflexivity].
    + split; [contradiction|]. intros [= -> ->]. apply c0; auto.
  - intros [x1 x2] [y1 y2] [Hx1 Hx2] [Hy1 Hy2]. cbn [fst snd] in *.
    destruct (negb _); auto.
  - intros [x1 x2] [y1 y2] [Hx1 Hx2] [Hy1 Hy2]. cbn [fst snd] in *.
    rewrite (cf x1 y1 Hx1 Hy1).
    destruct (Z.eqb_spec (c x1 y1) 0) as [E|E]; cbn [negb].
    + rewrite E. cbn. apply df; assumption.
    + destruct (Z.eqb_spec (- c x1 y1) 0); [lia|]. reflexivity.
  - intros [x1 x2] [y1 y2] [z1 z2] [Hx1 Hx2] [Hy1 Hy2] [Hz1 Hz2]. cbn [fst snd] in *.
    destruct (Z.eqb_spec (c x1 y1) 0) as [E1|E1]; cbn [negb];
      destruct (Z.eqb_spec (c y1 z1) 0) as [E2|E2]; cbn [negb]; intros H1 H2.
    + apply c0 in E1, E2; auto. subst y1 z1.
      assert (E : c x1 x1 = 0) by (apply c0; auto). rewrite E. cbn. eauto.
    + apply c0 in E1; auto. subst y1. rewrite H2. reflexivity.
    + apply c0 in E2; auto. subst z1. rewrite H1. reflexivity.
    + rewrite (ct x1 y1 z1 Hx1 Hy1 Hz1 H1 H2). reflexivity.
Qed.

Lemma order_flip_le {X} (D : X -> Prop) c x y :
  is_order D c -> D x -> D y -> (c x y <? 0) = false -> c y x <= 0.
Proof. intros (_ & _ & Hf & _) Hx Hy H. rewrite (Hf x y Hx Hy). lia. Qed.

Lemma order_trans_le {X} (D : X -> Prop) c x y z :
  is_order D c -> D x -> D y -> D z -> c x y <= 0 -> c y z < 0 -> c x z <= 0.
Proof.
  intros (H0 & Hr & _ & Ht) Hx Hy Hz H1 H2.
  destruct (Hr y z Hy Hz) as [E2|[E2|E2]]; try lia.
  destruct (Hr x y Hx Hy) as [E1|[E1|E1]]; try lia.
  - rewrite (Ht x y z Hx Hy Hz E1 E2). lia.
  - apply H0 in E1; auto. subst y. lia.
Qed.

Lemma compareKeys_order : is_order key_shaped compareKeys.
Proof.
  unfold compareKeys, key_shaped.
  repeat (apply lex_order; [apply compareInt_order|]).
  apply comparePrerelease_order.
Qed.

Lemma Compare_keys v w :
  semver.Compare v w
  = match semver.parse v, semver.parse w with
    | None, None => 0
    | None, Some _ => -1
    | Some _, None => 1
    | Some pv, Some pw => compareKeys (versionKey pv) (versionKey pw)
    end.
Proof. reflexivity. Qed.

Lemma key_of_parse v pv : semver.parse v = Some pv -> key_shaped (versionKey pv).
Proof. intros H. unfold key_shaped, both. repeat split. exact (parse_shaped v pv H). Qed.

Lemma Compare_refl v : semver.Compare v v = 0.
Proof.
  rewrite Compare_keys. destruct (semver.parse v) as [pv|] eqn:Hp; [|reflexivity].
  destruct compareKeys_order as (H0 & _). apply H0; eauto using key_of_parse.
Qed.

Lemma Compare_flip v w : (semver.Compare v w <? 0) = false -> semver.Compare w v <= 0.
Proof.
  rewrite !Compare_keys.
  destruct (semver.parse v) as [pv|] eqn:Hv, (semver.parse w) as [pw|] eqn:Hw;
    try discriminate; try lia.
  apply (order_flip_le key_shaped); eauto using key_of_parse, compareKeys_order.
Qed.

Lemma Compare_trans u v w :
  semver.Compare u v <= 0 -> semver.Compare v w < 0 -> semver.Compare u w <= 0.
Proof.
  rewrite !Compare_keys.
  destruct (semver.parse u) as [pu|] eqn:Hu, (semver.parse v) as [pv|] eqn:Hv,
    (semver.parse w) as [pw|] eqn:Hw; try lia.
  apply (order_trans_le key_shaped); eauto using key_of_parse, compareKeys_order.
Qed.

Lemma Compare_invalid u w : semver.Compare u "" <= 0 -> semver.Compare u w <= 0.
Proof.
  rewrite !Compare_keys. cbn [semver.parse].
  destruct (semver.parse u); [lia|]. destruct (semver.parse w); lia.
Qed.

(** *** The resolver returns a greatest match *)

Lemma pick_greatest L a (seen : list AppVersion.KeptnAppVersion) :
  (forall c, In c seen ->
     semver.Compare (AppVersion.Version (AppVersion.Spec c))
       (AppVersion.Version (AppVersion.Spec L)) <= 0) ->
  forall c, In c (seen ++ [a]) ->
    semver.Compare (AppVersion.Version (AppVersion.Spec c))
      (AppVersion.Version (AppVersion.Spec (pick L a))) <= 0.
Proof.
  intros Hseen c Hc. apply in_app_or in Hc. unfold pick.
  destruct (String.eqb_spec (AppVersion.Version (AppVersion.Spec L)) "") as [HL|HL].
  - destruct Hc as [Hc|[<-|[]]]; [|rewrite Compare_refl; lia].
    apply Compare_invalid. rewrite <- HL. apply Hseen, Hc.
  - destruct (semver.Compare _ _ <? 0) eqn:Hlt.
    + destruct Hc as [Hc|[<-|[]]]; [|rewrite Compare_refl; lia].
      apply Z.ltb_lt in Hlt. eapply Compare_trans; [apply Hseen, Hc | exact Hlt].
    + destruct Hc as [Hc|[<-|[]]]; [apply Hseen, Hc|].
      apply Compare_flip, Hlt.
Qed.

Lemma fold_pick_greatest l L (seen : list AppVersion.KeptnAppVersion) :
  (forall c, In c seen ->
     semver.Compare (AppVersion.Version (AppVersion.Spec c))
       (AppVersion.Version (AppVersion.Spec L)) <= 0) ->
  forall c, In c (seen ++ l) ->
    semver.Compare (AppVersion.Version (AppVersion.Spec c))
      (AppVersion.Version (AppVersion.Spec (fold_left pick l L))) <= 0.
Proof.
  revert L seen. induction l as [|a l IH]; intros L seen Hseen c Hc; cbn [fold_left].
  - rewrite app_nil_r in Hc. apply Hseen, Hc.
  - apply (IH (pick L a) (seen ++ [a])%list).
    + apply pick_greatest, Hseen.
    + rewrite <- app_assoc. exact Hc.
Qed.

(** X17: the resolver returns a greatest match.  When the store lists the
    application versions and [getAppVersionForWorkloadInstance] finds one,
    no application version of the instance's namespace that matches the
    instance is above the returned one in the order of [semver.Compare]:
    compared with the returned version, each of them is lower or equal. *)
Theorem X17_resolver_returns_a_greatest_match env w :
  keptnworkloadinstance.listErr env = None ->
  let '(found, app, _) :=
    keptnworkloadinstance.getAppVersionForWorkloadInstance env w in
  found = true ->
  forall a, In a (keptnworkloadinstance.appVersions env) ->
    AppVersion.Namespace a = WorkloadInstance.Namespace w ->
    wli_matches w a = true ->
    semver.Compare (AppVersion.Version (AppVersion.Spec a))
      (AppVersion.Version (AppVersion.Spec app)) <= 0.
Proof.
  intros He. rewrite (resolver_folds_pick env w He). cbv zeta.
  destruct (versioned _); [|discriminate].
  intros _ a Hin Hns Hm.
  apply (fold_pick_greatest (wli_hits env w) AppVersion.zero []).
  - intros c [].
  - cbn [app]. unfold wli_hits, wli_candidates.
    apply filter_In. split; [|exact Hm].
    apply filter_In. split; [exact Hin|]. apply String.eqb_eq. exact Hns.
Qed.

Lemma X17_witness :
  let '(found, app, _) :=
    keptnworkloadinstance.getAppVersionForWorkloadInstance
      (Sample.wliEnv Sample.wliFresh
         [Sample.appGo "v1.9.0"; Sample.appGo "v1.10.0-rc.1"; Sample.appGo "v1.10.0";
          Sample.appGo "v1.2.0"] StateProgressing) Sample.wliFresh in
  found = true
  /\ AppVersion.Version (AppVersion.Spec app) = "v1.10.0"
  /\ semver.Compare "v1.10.0-rc.1" (AppVersion.Version (AppVersion.Spec app)) <= 0.
Proof.
  pose proof (X17_resolver_returns_a_greatest_match
           (Sample.wliEnv Sample.wliFresh
              [Sample.appGo "v1.9.0"; Sample.appGo "v1.10.0-rc.1"; Sample.appGo "v1.10.0";
               Sample.appGo "v1.2.0"] StateProgressing) Sample.wliFresh eq_refl) as H.
  destruct (keptnworkloadinstance.getAppVersionForWorkloadInstance _ _)
    as [[found app] err] eqn:E.
  vm_compute in E. injection E as <- <- <-.
  split; [reflexivity|]. split; [reflexivity|].
  apply (H eq_refl (Sample.appGo "v1.10.0-rc.1")).
  - right. left. reflexivity.
  - reflexivity.
  - reflexivity.
Defined.

(** ** Refused status writes *)

Lemma write_answers_app {E} (a b : list (Effect E)) :
  write_answers (a ++ b)%list = (write_answers a ++ write_answers b)%list.
Proof. apply observe_app. Qed.

Lemma refusal_accepted (a b : list (option error)) :
  Forall (eq None) a -> refusal (a ++ b)%list = refusal b.
Proof. induction 1 as [|x a <- _ IH]; [reflexivity | exact IH]. Qed.

Lemma undisturbed_app {E} (a b : list (Effect E)) :
  undisturbed a -> undisturbed b -> undisturbed (a ++ b)%list.
Proof.
  unfold undisturbed. rewrite callbacks_app, write_answers_app.
  intros [-> Ha] [-> Hb]. split; [reflexivity | apply Forall_app; auto].
Qed.

Lemma refusal_handled_app {E} (a b : list (Effect E)) d :
  undisturbed a -> refusal_handled b d -> refusal_handled (a ++ b)%list d.
Proof.
  unfold undisturbed, refusal_handled. rewrite callbacks_app, write_answers_app.
  intros [-> Ha]. rewrite (refusal_accepted _ _ Ha). auto.
Qed.

Lemma refusal_handled_frame {E} n s s' (l : list (Effect E)) d :
  refusal_handled l d -> refusal_handled (TracerStart n s :: l ++ [SpanEnd s'])%list d.
Proof.
  unfold refusal_handled.
  change (write_answers (TracerStart n s :: l ++ [SpanEnd s'])%list)
    with (write_answers (l ++ [SpanEnd s'])%list).
  change (callbacks (TracerStart n s :: l ++ [SpanEnd s'])%list)
    with (callbacks (l ++ [SpanEnd s'])%list).
  rewrite write_answers_app, callbacks_app. cbn. rewrite !app_nil_r. auto.
Qed.

(** What [refusal] says of a refused write in the middle of the answers. *)
Lemma refusal_split (answers pre post : list (option error)) e :
  answers = (pre ++ Some e :: post)%list ->
  match refusal answers with
  | None => True
  | Some None => False
  | Some (Some e') => post = [] /\ e' = e
  end.
Proof.
  intros ->. induction pre as [|[x|] pre IH]; cbn.
  - destruct post; auto.
  - destruct (pre ++ Some e :: post)%list eqn:H; [destruct pre; discriminate | exact Logic.I].
  - exact IH.
Qed.

Lemma spec_each {E R A} (LC : list (Effect E) -> Prop) (QR : list (Effect E) -> R -> Prop)
    (c : M E R A) :
  (forall st, match c st with
              | (l, _, Continue _) => LC l
              | (l, _, Return d) => QR l d
              end) ->
  spec LC QR (fun _ => True) c (fun _ _ => True).
Proof.
  intros H st _. specialize (H st). destruct (c st) as [[l st'] [a|d]]; auto.
Qed.

Section WorkloadInstanceRefusals.
Import WorkloadInstance keptnworkloadinstance.

Variable phases : Phases.
Variable env : Env.

Abbreviation REF := (spec (@undisturbed KeptnWorkloadInstance)
                     (@refusal_handled KeptnWorkloadInstance) (fun _ => True)).

Lemma wli_handlePhase_refusals phase span phaseFailed c f st :
let '(l, _, d) := handlePhase env phase span phaseFailed (callback c f) st in
refusal_handled l d.
Proof.
unfold handlePhase, getSpan, recordEvent, unbindSpan. unfold_engine. cbn.
destruct (bindCRDSpan (reconciler st) !! _) as [s|] eqn:Hl; cbn.
all: destruct (phaseFailed _); cbn; [refusal_done|].
all: destruct (f _) as [o [k [e|]]] eqn:Hf; cbn; [refusal_done|].
all: destruct k; cbn.
all: crunch; refusal_done.
Qed.

Lemma wli_appGate_refusals span : REF (appGate phases env span) (fun _ _ => True).
Proof.
apply spec_each. intros st. unfold appGate, recordEvent. unfold_engine. cbn.
destruct (getAppVersionForWorkloadInstance env (object st)) as [[found av] [err|]];
  cbn; [refusal_done|].
crunch; refusal_done.
Qed.

Lemma wli_prepare_refusals av :
REF (preparePreDeployment phases env av) (fun _ _ => True).
Proof.
apply spec_each. intros st.
unfold preparePreDeployment, updateOrReturn, unbindSpan, getSpan, recordEvent.
unfold_engine. crunch; refusal_done.
Qed.

Lemma wli_promote_refusals field set : REF (promote env field set) (fun _ _ => True).
Proof.
apply spec_each. intros st. unfold promote, updateOrReturn. unfold_engine.
crunch; refusal_done.
Qed.

Lemma wli_drive_refusals succeeded phase span phaseFailed c f :
REF (drive env succeeded phase span phaseFailed (callback c f)) (fun _ _ => True).
Proof.
apply spec_each. intros st. unfold drive.
cbv [bind getObject call returnWith ret].
destruct (succeeded (object st)); cbn; [refusal_done|].
pose proof (wli_handlePhase_refusals phase span phaseFailed c f st) as H.
destruct (handlePhase _ _ _ _ _ _) as [[l st'] d]. cbn.
rewrite app_nil_r. exact H.
Qed.

Lemma wli_complete_refusals phase span :
REF (complete phases env phase span) (fun _ _ => False).
Proof.
intros st _. unfold complete, recordEvent. unfold_engine.
crunch; refusal_done.
Qed.

Lemma wli_reconcileFound_refusals span :
fspec (@refusal_handled KeptnWorkloadInstance) (fun _ => True)
  (reconcileFound phases env span).
Proof.
unfold reconcileFound, phaseSequence.
apply spec_body with (LC := @undisturbed KeptnWorkloadInstance).
eapply spec_bind; [apply undisturbed_app | apply refusal_handled_app | | intros ?; cbn beta].
{ apply spec_modify with (Q := fun _ _ => True); [refusal_done | auto]. }
seq_with @spec_bind (@undisturbed_app KeptnWorkloadInstance) (@refusal_handled_app KeptnWorkloadInstance) wli_appGate_refusals.
seq_with @spec_bind (@undisturbed_app KeptnWorkloadInstance) (@refusal_handled_app KeptnWorkloadInstance) wli_prepare_refusals.
seq_with @spec_bind (@undisturbed_app KeptnWorkloadInstance) (@refusal_handled_app KeptnWorkloadInstance) wli_drive_refusals.
seq_with @spec_bind (@undisturbed_app KeptnWorkloadInstance) (@refusal_handled_app KeptnWorkloadInstance) wli_promote_refusals.
seq_with @spec_bind (@undisturbed_app KeptnWorkloadInstance) (@refusal_handled_app KeptnWorkloadInstance) wli_drive_refusals.
seq_with @spec_bind (@undisturbed_app KeptnWorkloadInstance) (@refusal_handled_app KeptnWorkloadInstance) wli_promote_refusals.
seq_with @spec_bind (@undisturbed_app KeptnWorkloadInstance) (@refusal_handled_app KeptnWorkloadInstance) wli_drive_refusals.
seq_with @spec_bind (@undisturbed_app KeptnWorkloadInstance) (@refusal_handled_app KeptnWorkloadInstance) wli_promote_refusals.
seq_with @spec_bind (@undisturbed_app KeptnWorkloadInstance) (@refusal_handled_app KeptnWorkloadInstance) wli_drive_refusals.
seq_with @spec_bind (@undisturbed_app KeptnWorkloadInstance) (@refusal_handled_app KeptnWorkloadInstance) wli_promote_refusals.
seq_with @spec_bind (@undisturbed_app KeptnWorkloadInstance) (@refusal_handled_app KeptnWorkloadInstance) wli_drive_refusals.
apply wli_complete_refusals.
Qed.

End WorkloadInstanceRefusals.

Section AppVersionRefusals.
Import AppVersion keptnappversion.

Variable phases : Phases.
Variable env : Env.

Abbreviation REF := (spec (@undisturbed KeptnAppVersion)
                     (@refusal_handled KeptnAppVersion) (fun _ => True)).

Lemma app_handlePhase_refusals phase span phaseFailed c f st :
let '(l, _, d) := handlePhase env phase span phaseFailed (callback c f) st in
refusal_handled l d.
Proof.
unfold handlePhase, getSpan, recordEvent, unbindSpan. unfold_engine. cbn.
destruct (bindCRDSpan (reconciler st) !! _) as [s|] eqn:Hl; cbn.
all: destruct (phaseFailed _); cbn; [refusal_done|].
all: destruct (f _) as [o [k [e|]]] eqn:Hf; cbn; [refusal_done|].
all: destruct k; cbn.
all: crunch; refusal_done.
Qed.

Lemma app_announce_refusals : REF (announceStart phases) (fun _ _ => True).
Proof.
apply spec_each. intros st.
unfold announceStart, unbindSpan, getSpan, recordEvent. unfold_engine.
crunch; refusal_done.
Qed.

Lemma app_drive_refusals done phase span phaseFailed c f :
REF (drive env done phase span phaseFailed (callback c f)) (fun _ _ => True).
Proof.
apply spec_each. intros st. unfold drive.
cbv [bind getObject call returnWith ret].
destruct (done (object st)); cbn; [refusal_done|].
pose proof (app_handlePhase_refusals phase span phaseFailed c f st) as H.
destruct (handlePhase _ _ _ _ _ _) as [[l st'] d]. cbn.
rewrite app_nil_r. exact H.
Qed.

Lemma app_complete_refusals phase span :
REF (complete phases env phase span) (fun _ _ => False).
Proof.
intros st _. unfold complete, recordEvent. unfold_engine.
crunch; refusal_done.
Qed.

Lemma app_reconcileFound_refusals span :
fspec (@refusal_handled KeptnAppVersion) (fun _ => True)
  (reconcileFound phases env span).
Proof.
unfold reconcileFound, phaseSequence.
apply spec_body with (LC := @undisturbed KeptnAppVersion).
seq_with @spec_bind (@undisturbed_app KeptnAppVersion) (@refusal_handled_app KeptnAppVersion) app_announce_refusals.
seq_with @spec_bind (@undisturbed_app KeptnAppVersion) (@refusal_handled_app KeptnAppVersion) app_drive_refusals.
seq_with @spec_bind (@undisturbed_app KeptnAppVersion) (@refusal_handled_app KeptnAppVersion) app_drive_refusals.
seq_with @spec_bind (@undisturbed_app KeptnAppVersion) (@refusal_handled_app KeptnAppVersion) app_drive_refusals.
seq_with @spec_bind (@undisturbed_app KeptnAppVersion) (@refusal_handled_app KeptnAppVersion) app_drive_refusals.
seq_with @spec_bind (@undisturbed_app KeptnAppVersion) (@refusal_handled_app KeptnAppVersion) app_drive_refusals.
apply app_complete_refusals.
Qed.

End AppVersionRefusals.

Lemma refusal_handled_reads {E} (l : list (Effect E)) d :
  refusal_handled l d ->
  forall pre e post,
    write_answers l = (pre ++ Some e :: post)%list ->
    post = []
    /\ match callbacks l with
       | [] => snd d = Some e
       | _ :: _ =>
           d = ({| ctrl.Requeue := true; ctrl.RequeueAfter := 5 * time.Second |}, None)
       end.
Proof.
  unfold refusal_handled. intros H pre e post Hw.
  pose proof (refusal_split _ pre post e Hw) as Hs.
  destruct (refusal (write_answers l)) as [[e'|]|]; try contradiction.
  destruct Hs as [-> ->]. split; [reflexivity | exact H].
Qed.

(** X18: refused status writes.  In a reconcile of either controller a
    status write the store refuses is the last write of that reconcile.
    When no phase callback ran in the reconcile (the write follows a
    promotion or is one of the completion block), the reconcile returns
    the store's error; when one ran (the write is the phase driver's), the
    error is dropped and the reconcile returns the requeue after five
    seconds without error, as if the status had been saved. *)
Theorem X18_refused_status_writes :
  (forall phases env r req,
     let '(l, _, d) := keptnworkloadinstance.Reconcile phases env r req in
     forall pre e post,
       write_answers l = (pre ++ Some e :: post)%list ->
       post = []
       /\ match callbacks l with
          | [] => snd d = Some e
          | _ :: _ =>
              d = ({| ctrl.Requeue := true; ctrl.RequeueAfter := 5 * time.Second |}, None)
          end)
  /\ (forall phases env r req,
     let '(l, _, d) := keptnappversion.Reconcile phases env r req in
     forall pre e post,
       write_answers l = (pre ++ Some e :: post)%list ->
       post = []
       /\ match callbacks l with
          | [] => snd d = Some e
          | _ :: _ =>
              d = ({| ctrl.Requeue := true; ctrl.RequeueAfter := 5 * time.Second |}, None)
          end).
Proof.
  split; intros phases env r req.
  - destruct (keptnworkloadinstance.Get env req) as [w| |err] eqn:Hget.
    + rewrite (wli_Reconcile_found phases env r req w Hget).
      pose proof (wli_reconcileFound_refusals phases env (spanSeq r)
        {| object := w;
           reconciler := {| bindCRDSpan := bindCRDSpan r; spanSeq := S (spanSeq r) |};
           updateSeq := 0 |} Logic.I) as H.
      destruct (keptnworkloadinstance.reconcileFound _ _ _ _) as [[l st] d].
      apply refusal_handled_reads, refusal_handled_frame, H.
    + unfold keptnworkloadinstance.Reconcile. rewrite Hget.
      apply refusal_handled_reads. refusal_done.
    + unfold keptnworkloadinstance.Reconcile. rewrite Hget.
      apply refusal_handled_reads. refusal_done.
  - destruct (keptnappversion.Get env req) as [v| |err] eqn:Hget.
    + rewrite (app_Reconcile_found phases env r req v Hget).
      pose proof (app_reconcileFound_refusals phases env (spanSeq r)
        {| object := AppVersion.SetStartTime (keptnappversion.now env) v;
           reconciler := {| bindCRDSpan := bindCRDSpan r; spanSeq := S (spanSeq r) |};
           updateSeq := 0 |} Logic.I) as H.
      destruct (keptnappversion.reconcileFound _ _ _ _) as [[l st] d].
      apply refusal_handled_reads, refusal_handled_frame, H.
    + unfold keptnappversion.Reconcile. rewrite Hget.
      apply refusal_handled_reads. refusal_done.
    + unfold keptnappversion.Reconcile. rewrite Hget.
      apply refusal_handled_reads. refusal_done.
Qed.

Lemma X18_witness :
  let '(l, _, d) :=
    keptnappversion.Reconcile Sample.phases
      (app_refusing (Sample.appEnv Sample.appFresh StateProgressing) "conflict")
      Sample.r0 Sample.req in
  write_answers l = [Some "conflict"]
  /\ d = ({| ctrl.Requeue := true; ctrl.RequeueAfter := 5 * time.Second |}, None).
Proof.
  pose proof (proj2 X18_refused_status_writes Sample.phases
           (app_refusing (Sample.appEnv Sample.appFresh StateProgressing) "conflict")
           Sample.r0 Sample.req) as H.
  destruct (keptnappversion.Reconcile _ _ _ _) as [[l r] d] eqn:E.
  vm_compute in E. injection E as <- <- <-.
  split; [reflexivity|].
  exact (proj2 (H [] "conflict" [] eq_refl)).
Defined.

(** ** The event of a completion *)

(** X19: the "Finished" event of an entity whose phases have all
    succeeded.  A reconcile of such a workload instance records "Finished"
    once when it returns done and not at all otherwise, so never when the
    store refuses the completion write.  A reconcile of such an application
    version records "Finished" exactly once whatever happens next: the
    event comes before the status write, and when the store refuses that
    first write with an error the reconcile returns an immediate requeue
    with that error, the event already recorded. *)
Theorem X19_finished_events :
  (forall phases env r req w,
     keptnworkloadinstance.Get env req = Found w ->
     firstUnfinished wli_sequence w = None ->
     let '(l, _, d) := keptnworkloadinstance.Reconcile phases env r req in
     recorded "Finished" l = if finished d then 1%nat else 0%nat)
  /\ (forall phases env r req v,
     keptnappversion.Get env req = Found v ->
     firstUnfinished app_sequence v = None ->
     let '(l, _, d) := keptnappversion.Reconcile phases env r req in
     recorded "Finished" l = 1%nat
     /\ forall e, keptnappversion.store_answer env 0%nat = Some e ->
          d = ({| ctrl.Requeue := true; ctrl.RequeueAfter := 0 |}, Some e)).
Proof.
  split.
  - intros phases env r req w Hget Hall.
    apply wli_all_succeeded in Hall as (H1 & H2 & H3 & H4 & H5).
    unfold keptnworkloadinstance.Reconcile. rewrite Hget.
    destruct w as [ns name spec [pre preEval dep post postEval phase overall start finish]].
    cbn in H1, H2, H3, H4, H5. subst. destruct start, finish.
    all: unfold keptnworkloadinstance.reconcileFound, keptnworkloadinstance.appGate,
      keptnworkloadinstance.phaseSequence, keptnworkloadinstance.preparePreDeployment,
      keptnworkloadinstance.drive, keptnworkloadinstance.promote,
      keptnworkloadinstance.complete, keptnworkloadinstance.updateOrReturn,
      keptnworkloadinstance.recordEvent, keptnworkloadinstance.unbindSpan,
      keptnworkloadinstance.getSpan.
    all: unfold_engine; cbn.
    all: destruct (keptnworkloadinstance.getAppVersionForWorkloadInstance env _)
      as [[found av] [err|]]; cbn; [reflexivity|].
    all: crunch; reflexivity.
  - intros phases env r req v Hget Hall.
    apply app_all_succeeded in Hall as (H1 & H2 & H3 & H4 & H5).
    unfold keptnappversion.Reconcile. rewrite Hget.
    destruct v as [ns name spec [pre preEval work post postEval phase overall start finish]].
    cbn in H1, H2, H3, H4, H5. subst. destruct start, finish.
    all: unfold keptnappversion.reconcileFound, keptnappversion.announceStart,
      keptnappversion.phaseSequence, keptnappversion.drive, keptnappversion.complete,
      keptnappversion.recordEvent, keptnappversion.unbindSpan, keptnappversion.getSpan.
    all: unfold_engine; unfold AppVersion.AreWorkloadsSucceeded.
    all: repeat (cbn -[forallb]; rewrite ?H3;
      match goal with
      | |- context [if ?b then _ else _] => destruct b eqn:?
      | |- context [match ?x with Some _ => _ | None => _ end] => destruct x eqn:?
      end).
    all: try match goal with H : negb true = true |- _ => discriminate H end.
    all: cbn -[forallb]; rewrite ?H3; cbn.
    all: split; [reflexivity|]; intros; congruence.
Qed.

Lemma X19_witness :
  let '(l, _, d) :=
    keptnappversion.Reconcile Sample.phases
      (app_refusing (Sample.appEnv Sample.appDone StateSucceeded) "conflict")
      Sample.r0 Sample.req in
  recorded "Finished" l = 1%nat
  /\ d = ({| ctrl.Requeue := true; ctrl.RequeueAfter := 0 |}, Some "conflict").
Proof.
  pose proof (proj2 X19_finished_events Sample.phases
           (app_refusing (Sample.appEnv Sample.appDone StateSucceeded) "conflict")
           Sample.r0 Sample.req Sample.appDone eq_refl eq_refl) as H.
  destruct (keptnappversion.Reconcile _ _ _ _) as [[l r] d] eqn:E.
  split; [exact (proj1 H) | exact (proj2 H "conflict" eq_refl)].
Defined.
